(** * dagster.core.execution: a shallow embedding and its specification

    The development follows [python_modules/dagster/dagster/core/execution.py].
    Python dictionaries are finite maps ([gmap]) or association lists where the
    iteration order is observable, exceptions are a result type, and the code
    that opens scopes and emits events runs in a small trace-and-error monad. *)

From stdpp Require Import base strings list gmap.

Set Default Proof Using "Type".

(** ** Exceptions

    Exceptions are identified by their class and structured fields; the text of
    the message is not modelled.  [CheckError] is what [check.failed] and
    [check.invariant] raise, [ParameterCheckError] what [check.param_invariant]
    raises. *)
Inductive exn : Type :=
| DagsterInvariantViolationError
| CheckError
| ParameterCheckError
| DagsterExecutionStepNotFoundError (step_key : string)
| DagsterUnmarshalInputNotFoundError (input_name step_key : string)
| DagsterMarshalOutputNotFoundError (output_name step_key : string)
| DagsterUnmarshalInputError (input_name step_key : string)
| DagsterMarshalOutputError (output_name step_key : string)
| PipelineConfigEvaluationError
| AttributeError
| IndexError
| KeyError (key : string)
| UserException (tag : string).

#[global] Instance exn_eq_dec : EqDecision exn.
Proof. solve_decision. Defined.

(** Modelled from the spec: the error taxonomy of section 7, which is not part
    of the file.  Its kind "InvariantViolation" covers "missing solid,
    overlapping tags, unsupported persistence key, empty result list", that is
    both the explicit [DagsterInvariantViolationError] and the failures of
    [check.failed] and [check.invariant]. *)
Definition invariant_violation (e : exn) : bool :=
  match e with
  | DagsterInvariantViolationError | CheckError => true
  | _ => false
  end.

(** ** The result of a computation that may raise *)
Inductive result (A : Type) : Type :=
| Return (a : A)
| Raise (e : exn).
Arguments Return {A} a.
Arguments Raise {A} e.

Definition rbind {A B} (m : result A) (k : A → result B) : result B :=
  match m with
  | Return a => k a
  | Raise e => Raise e
  end.

Notation "'let?' x := m 'in' k" := (rbind m (fun x => k))
  (at level 10, x name, m at level 100, k at level 200).
Notation "m ;? k" := (rbind m (fun _ => k))
  (at level 100, k at level 200, right associativity).

(** [check.invariant(condition)] and [check.param_invariant(condition, ...)]. *)
Definition check_invariant (condition : bool) : result unit :=
  if condition then Return tt else Raise CheckError.

Definition check_param_invariant (condition : bool) : result unit :=
  if condition then Return tt else Raise ParameterCheckError.

(** A [for] loop whose body may raise: the first exception ends the loop. *)
Fixpoint for_each {A} (body : A → result unit) (l : list A) : result unit :=
  match l with
  | [] => Return tt
  | x :: l' => body x ;? for_each body l'
  end.

(** ** Definitions imported from [dagster.core.definitions], which the file
    uses but does not contain. *)

(** Modelled from the spec: a solid definition "declares inputs, outputs,
    transform, and expectations"; only the declared names are used here, and
    [has_output] is membership in the declared outputs. *)
Record SolidDefinition : Type := {
  definition_name : string;
  input_defs : list string;
  output_defs : list string;
}.

#[global] Instance SolidDefinition_eq_dec : EqDecision SolidDefinition.
Proof. solve_decision. Defined.

Definition has_output (d : SolidDefinition) (name : string) : bool :=
  bool_decide (name ∈ output_defs d).

(** Modelled from the spec: a solid is "an instance within a pipeline with a
    [name] (unique) and a [definition]".  [solid_id] stands for the identity of
    the Python object, which [from_results] compares with [is]. *)
Record Solid : Type := {
  solid_id : nat;
  solid_name : string;
  definition : SolidDefinition;
}.

#[global] Instance Solid_eq_dec : EqDecision Solid.
Proof. solve_decision. Defined.

Definition is_same (a b : Solid) : bool := bool_decide (solid_id a = solid_id b).

(** [DEFAULT_OUTPUT] of [definitions]. *)
Definition DEFAULT_OUTPUT : string := "result".

(** ** Step results, from [execution_plan.objects] *)

Inductive StepKind : Type := TRANSFORM | INPUT_EXPECTATION | OUTPUT_EXPECTATION.

#[global] Instance StepKind_eq_dec : EqDecision StepKind.
Proof. solve_decision. Defined.

Definition StepKind_to_nat (k : StepKind) : nat :=
  match k with TRANSFORM => 0 | INPUT_EXPECTATION => 1 | OUTPUT_EXPECTATION => 2 end.

Definition StepKind_of_nat (n : nat) : option StepKind :=
  match n with
  | 0 => Some TRANSFORM
  | 1 => Some INPUT_EXPECTATION
  | 2 => Some OUTPUT_EXPECTATION
  | _ => None
  end.

#[global] Instance StepKind_countable : Countable StepKind.
Proof.
  refine (inj_countable StepKind_to_nat StepKind_of_nat _).
  by intros [].
Defined.

(** Modelled from the spec: a runtime type "whose serialization strategy may be
    used for marshalling"; the strategy may be missing. *)
Record RuntimeType : Type := {
  serialization_strategy : option string;
}.

(** Modelled from the spec: "each step has a [key] (string, unique), a [kind],
    an owning solid, an input dictionary, and an output dictionary; each
    input/output carries a runtime type". *)
Record ExecutionStep : Type := {
  key : string;
  step_kind : StepKind;
  step_solid : Solid;
  step_input_dict : list (string * RuntimeType);
  step_output_dict : list (string * RuntimeType);
}.

Definition step_inputs (s : ExecutionStep) : list (string * RuntimeType) :=
  step_input_dict s.

Definition has_step_output (s : ExecutionStep) (name : string) : bool :=
  bool_decide (name ∈ (step_output_dict s).*1).

Definition has_step_input (s : ExecutionStep) (name : string) : bool :=
  bool_decide (name ∈ (step_input_dict s).*1).

(** Truthiness of a Python list: it is not empty. *)
Definition truthy {A} (l : list A) : bool :=
  match l with [] => false | _ :: _ => true end.

(** An association list read as a Python dictionary: [d[k]]. *)
Fixpoint assoc {A} (k : string) (d : list (string * A)) : option A :=
  match d with
  | [] => None
  | (k', v) :: d' => if decide (k = k') then Some v else assoc k d'
  end.

Section Results.
Context {Value : Type}.

(** Modelled from the spec: [StepResult] is
    "{ step, success: bool, kind, success_data?: {output_name, value},
       failure_data?: {dagster_error} }".  Reading a field of a datum that is
    [None] raises [AttributeError]. *)
Record StepSuccessData : Type := {
  output_name : string;
  value : Value;
}.

Record StepFailureData : Type := {
  failure_error : Value;
}.

Record StepResult : Type := {
  success : bool;
  step : ExecutionStep;
  kind : StepKind;
  success_data : option StepSuccessData;
  failure_data : option StepFailureData;
}.

Definition get_success_data (r : StepResult) : result StepSuccessData :=
  match success_data r with
  | Some d => Return d
  | None => Raise AttributeError
  end.

Definition get_failure_data (r : StepResult) : result StepFailureData :=
  match failure_data r with
  | Some d => Return d
  | None => Raise AttributeError
  end.

(** ** [SolidExecutionResult] *)
Record SolidExecutionResult : Type := {
  solid : Solid;
  step_results_by_kind : gmap StepKind (list StepResult);
}.

Definition results_of_kind (r : SolidExecutionResult) (k : StepKind) : list StepResult :=
  default [] (step_results_by_kind r !! k).

Definition transforms (r : SolidExecutionResult) : list StepResult :=
  results_of_kind r TRANSFORM.

Definition input_expectations (r : SolidExecutionResult) : list StepResult :=
  results_of_kind r INPUT_EXPECTATION.

Definition output_expectations (r : SolidExecutionResult) : list StepResult :=
  results_of_kind r OUTPUT_EXPECTATION.

(** [itertools.chain(self.input_expectations, self.output_expectations,
    self.transforms)] *)
Definition chained (r : SolidExecutionResult) : list StepResult :=
  input_expectations r ++ output_expectations r ++ transforms r.

(** Python's [all] over a list of booleans. *)
Definition all (l : list bool) : bool := forallb id l.

Definition solid_success (r : SolidExecutionResult) : bool :=
  all (success <$> chained r).

(** The dictionary comprehension of [transformed_values]: entries are written in
    iteration order, so a later transform of the same output name wins. *)
Fixpoint values_by_output (ts : list StepResult) (acc : gmap string Value)
  : result (gmap string Value) :=
  match ts with
  | [] => Return acc
  | t :: ts' =>
      let? d := get_success_data t in
      values_by_output ts' (<[output_name d := value d]> acc)
  end.

Definition transformed_values (r : SolidExecutionResult)
  : result (option (gmap string Value)) :=
  if solid_success r && truthy (transforms r)
  then let? d := values_by_output (transforms r) ∅ in Return (Some d)
  else Return None.

(** The search loop of [transformed_value]. *)
Fixpoint find_output (name : string) (ts : list StepResult) : result Value :=
  match ts with
  | [] => Raise DagsterInvariantViolationError
  | t :: ts' =>
      let? d := get_success_data t in
      if decide (output_name d = name) then Return (value d)
      else find_output name ts'
  end.

Definition transformed_value (r : SolidExecutionResult) (name : string)
  : result (option Value) :=
  if negb (has_output (definition (solid r)) name)
  then Raise DagsterInvariantViolationError
  else if solid_success r
       then let? v := find_output name (transforms r) in Return (Some v)
       else Return None.

(** The loop of [dagster_error]; falling off the end returns [None]. *)
Fixpoint first_error (rs : list StepResult) : result (option Value) :=
  match rs with
  | [] => Return None
  | r :: rs' =>
      if negb (success r)
      then let? d := get_failure_data r in Return (Some (failure_error d))
      else first_error rs'
  end.

Definition dagster_error (r : SolidExecutionResult) : result (option Value) :=
  first_error (chained r).

End Results.

Arguments StepSuccessData : clear implicits.
Arguments StepFailureData : clear implicits.
Arguments StepResult : clear implicits.
Arguments SolidExecutionResult : clear implicits.

(** ** Pipelines, from [definitions] *)

Record SolidInputHandle : Type := {
  ih_solid : Solid;
  ih_input_def : string;
}.

Record SolidOutputHandle : Type := {
  oh_solid : Solid;
  oh_output_def : string;
}.

Record ResourceDefinition : Type := {
  resource_id : nat;
}.

Record ContextDefinition : Type := {
  context_id : nat;
  resources : list (string * ResourceDefinition);
}.

(** Modelled from the spec: a pipeline is "a set of solids, a dependency
    structure relating output handles to input handles, a mapping of named
    context definitions".  The dependency structure maps an input handle,
    identified by the name of its solid and of its input, to the output handle
    that feeds it. *)
Record PipelineDefinition : Type := {
  pipeline_name : string;
  pipeline_solids : list Solid;
  dependency_structure : gmap (string * string) SolidOutputHandle;
  context_definitions : gmap string ContextDefinition;
}.

Definition has_solid (p : PipelineDefinition) (name : string) : bool :=
  bool_decide (name ∈ solid_name <$> pipeline_solids p).

(** Modelled from the spec: [solid_named] looks a solid up by name; a "missing
    solid" is an invariant violation. *)
Definition solid_named (p : PipelineDefinition) (name : string) : result Solid :=
  match list_find (λ s, solid_name s = name) (pipeline_solids p) with
  | Some (_, s) => Return s
  | None => Raise DagsterInvariantViolationError
  end.

Definition input_handles (s : Solid) : list SolidInputHandle :=
  (λ i, {| ih_solid := s; ih_input_def := i |}) <$> input_defs (definition s).

Definition handle_key (h : SolidInputHandle) : string * string :=
  (solid_name (ih_solid h), ih_input_def h).

Definition has_dep (p : PipelineDefinition) (h : SolidInputHandle) : bool :=
  bool_decide (is_Some (dependency_structure p !! handle_key h)).

Definition get_dep (p : PipelineDefinition) (h : SolidInputHandle)
  : option SolidOutputHandle :=
  dependency_structure p !! handle_key h.

(** [solids_in_topological_order] is computed by [definitions] from the
    dependency structure; the execution core only iterates over its result. *)
Class TopologicalOrder : Type :=
  solids_in_topological_order : PipelineDefinition → list Solid.

Section Aggregation.
Context {Value : Type}.

#[local] Abbreviation StepResult := (StepResult Value).
#[local] Abbreviation SolidExecutionResult := (SolidExecutionResult Value).

(** ** [PipelineExecutionResult] *)
Record PipelineExecutionResult : Type := {
  pipeline : PipelineDefinition;
  result_list : list SolidExecutionResult;
  run_id : string;
}.

Definition pipeline_result_success (r : PipelineExecutionResult) : bool :=
  all (solid_success <$> result_list r).

(** The search loop of [result_for_solid]. *)
Fixpoint first_result_named (name : string) (rs : list SolidExecutionResult)
  : result SolidExecutionResult :=
  match rs with
  | [] => Raise DagsterInvariantViolationError
  | r :: rs' =>
      if decide (solid_name (solid r) = name) then Return r
      else first_result_named name rs'
  end.

Definition result_for_solid (r : PipelineExecutionResult) (name : string)
  : result SolidExecutionResult :=
  if negb (has_solid (pipeline r) name)
  then Raise DagsterInvariantViolationError
  else first_result_named name (result_list r).

(** ** [SolidExecutionResult.from_results] *)

(** [d[k].append(x)] on a [defaultdict(list)]. *)
Definition append_at `{Countable K} {A} (k : K) (x : A) (d : gmap K (list A))
  : gmap K (list A) :=
  <[k := default [] (d !! k) ++ [x]]> d.

Definition group_by_kind (results : list StepResult) : gmap StepKind (list StepResult) :=
  foldl (λ d r, append_at (kind r) r d) ∅ results.

(** The first loop of [from_results]: [solid] is bound by the first result and
    every result is compared with it. *)
Definition same_solid_check (results : list StepResult) : result unit :=
  match results with
  | [] => Return tt
  | r0 :: _ =>
      for_each
        (λ r, check_invariant (is_same (step_solid (step r)) (step_solid (step r0))))
        results
  end.

Definition from_results (results : list StepResult) : result SolidExecutionResult :=
  match results with
  | [] => Raise CheckError
  | r0 :: _ =>
      same_solid_check results ;?
      Return {| solid := step_solid (step r0);
                step_results_by_kind := group_by_kind results |}
  end.

(** ** [_process_step_results] *)

Definition group_by_solid_name (step_results : list StepResult)
  : gmap string (list StepResult) :=
  foldl (λ d r, append_at (solid_name (step_solid (step r))) r d) ∅ step_results.

(** The second loop, drained: the results the generator yields, or the
    exception that ends it. *)
Fixpoint emit_in_order (topo : list Solid) (d : gmap string (list StepResult))
  : result (list SolidExecutionResult) :=
  match topo with
  | [] => Return []
  | topo_solid :: topo' =>
      match d !! solid_name topo_solid with
      | Some results =>
          let? r := from_results results in
          let? rest := emit_in_order topo' d in
          Return (r :: rest)
      | None => emit_in_order topo' d
      end
  end.

Definition _process_step_results `{TopologicalOrder}
    (p : PipelineDefinition) (step_results : list StepResult)
  : result (list SolidExecutionResult) :=
  emit_in_order (solids_in_topological_order p) (group_by_solid_name step_results).

End Aggregation.

Arguments PipelineExecutionResult : clear implicits.

(** ** Execution metadata and the context of the user *)

(** Truthiness of a Python dictionary: it is not empty. *)
Definition truthy_dict {V} (d : gmap string V) : bool :=
  negb (bool_decide (dom d = ∅)).

Definition isdisjoint (a b : gset string) : bool := bool_decide (a ## b).

Record ExecutionMetadata : Type := {
  md_run_id : string;
  md_tags : gmap string string;
  md_event_callback : option nat;
  md_loggers : list string;
}.

Section Context.
Context {Value : Type}.

(** The context a user's [context_fn] produces. *)
Record ExecutionContext : Type := {
  ec_loggers : list string;
  ec_resources : option Value;
  ec_tags : gmap string string;
}.

Definition get_event_callback (reentrant_info : option ExecutionMetadata) : option nat :=
  match reentrant_info with
  | Some md => md_event_callback md
  | None => None
  end.

(** [construct_event_logger] of [events] wraps the callback in a logger. *)
Definition construct_event_logger (callback : nat) : string := "event-logger".

Definition _create_loggers (reentrant_info : ExecutionMetadata)
    (execution_context : ExecutionContext) : list string :=
  match md_event_callback reentrant_info with
  | Some callback => ec_loggers execution_context ++ [construct_event_logger callback]
  | None =>
      if truthy (md_loggers reentrant_info)
      then ec_loggers execution_context ++ md_loggers reentrant_info
      else ec_loggers execution_context
  end.

(** ** Persistence *)

Inductive PersistencePolicy : Type := FilePersistencePolicy.

(** [persistence_config] is a dictionary read through [list(d.items())[0]]: the
    association list keeps the order of its entries. *)
Definition _create_persistence_policy (persistence_config : list (string * Value))
  : result PersistencePolicy :=
  match persistence_config with
  | [] => Raise IndexError
  | (persistence_key, _config_value) :: _ =>
      if decide (persistence_key = "file") then Return FilePersistencePolicy
      else Raise CheckError
  end.

(** Modelled from the spec: the validation of the persistence mapping belongs
    to the configuration type system, which is not part of the file: "a variant
    enum with named arms; validation rejects zero- or multi-entry mappings".
    A rejected environment is a configuration-evaluation error. *)
Definition validate_persistence (persistence_config : list (string * Value))
  : result (list (string * Value)) :=
  match persistence_config with
  | [entry] => Return [entry]
  | _ => Raise PipelineConfigEvaluationError
  end.

End Context.

Arguments ExecutionContext : clear implicits.

(** ** Events and the monad of scoped, effectful code

    The trace records what a run does in order: the events sent through
    [context.events], the debug messages, the calls to the persistence policy
    and to the step engine, and the points at which the scope of
    [yield_context] is entered and left. *)
Inductive event : Type :=
| pipeline_start
| pipeline_success
| pipeline_failure
| debug_no_nodes
| debug_order (keys : list string)
| context_opened
| context_closed
| read_value_called (path : string)
| write_value_called (path : string)
| step_engine_invoked
| step_event (tag : string).

#[global] Instance event_eq_dec : EqDecision event.
Proof. solve_decision. Defined.

Definition M (A : Type) : Type := list event → list event * result A.

Definition mret {A} (a : A) : M A := λ t, (t, Return a).

Definition mbind {A B} (m : M A) (k : A → M B) : M B :=
  λ t, match m t with
       | (t', Return a) => k a t'
       | (t', Raise e) => (t', Raise e)
       end.

Definition lift {A} (r : result A) : M A := λ t, (t, r).

Definition emit (e : event) : M unit := λ t, (t ++ [e], Return tt).

Definition run {A} (m : M A) : list event * result A := m [].

Notation "'let*' x := m 'in' k" := (mbind m (fun x => k))
  (at level 10, x name, m at level 100, k at level 200).
Notation "m ;; k" := (mbind m (fun _ => k))
  (at level 100, k at level 200, right associativity).

Fixpoint mfor_each {A} (body : A → M unit) (l : list A) : M unit :=
  match l with
  | [] => mret tt
  | x :: l' => body x ;; mfor_each body l'
  end.

(** ** Generators

    A factory returns either a value or a generator.  A generator is what its
    consumer sees of it: the items it yields and the way it ends when it is
    resumed behind the last of them, by stopping or by raising an exception. *)
Inductive ThingOrGen (A : Type) : Type :=
| Thing (a : A)
| Generator (items : list A)
| RaisingGenerator (items : list A) (e : exn).
Arguments Thing {A} a.
Arguments Generator {A} items.
Arguments RaisingGenerator {A} items e.

Record generator (A : Type) : Type := {
  gen_items : list A;
  gen_raises : option exn;
}.
Arguments gen_items {A} _.
Arguments gen_raises {A} _.

Definition _ensure_gen {A} (thing_or_gen : ThingOrGen A) : generator A :=
  match thing_or_gen with
  | Thing a => {| gen_items := [a]; gen_raises := None |}
  | Generator items => {| gen_items := items; gen_raises := None |}
  | RaisingGenerator items e => {| gen_items := items; gen_raises := Some e |}
  end.

(** [next(gen)]: the item and the rest of the generator, [None] for
    [StopIteration], or the exception that the generator raises. *)
Definition next {A} (gen : generator A) : result (option (A * generator A)) :=
  match gen_items gen with
  | x :: items => Return (Some (x, {| gen_items := items; gen_raises := gen_raises gen |}))
  | [] =>
      match gen_raises gen with
      | None => Return None
      | Some e => Raise e
      end
  end.

(** [with with_maybe_gen(thing_or_gen) as thing: body].  Only [StopIteration]
    is caught around the two calls of [next]: another exception of the
    generator leaves the context manager.  When [body] raises, the exception
    is thrown into the context manager at its [yield] and leaves it: the code
    after the [yield] does not run. *)
Definition with_maybe_gen {A B} (thing_or_gen : ThingOrGen A) (body : A → M B) : M B :=
  let gen := _ensure_gen thing_or_gen in
  let* first := lift (next gen) in
  match first with
  | None => lift (Raise CheckError)
  | Some (thing, gen') =>
      let* r := body thing in
      let* second := lift (next gen') in
      let stopped := match second with None => true | Some _ => false end in
      lift (check_invariant stopped) ;;
      mret r
  end.

(** ** Execution plans, from [execution_plan.objects] *)

(** Modelled from the spec: an execution plan is a "topologically ordered list
    of [ExecutionStep]s" with unique keys; [has_step] and [get_step_by_key]
    read the dictionary of steps by key. *)
Record ExecutionPlan : Type := {
  topological_steps : list ExecutionStep;
}.

Definition has_step (plan : ExecutionPlan) (step_key : string) : bool :=
  bool_decide (step_key ∈ key <$> topological_steps plan).

Definition get_step_by_key (plan : ExecutionPlan) (step_key : string)
  : result ExecutionStep :=
  match list_find (λ s, key s = step_key) (topological_steps plan) with
  | Some (_, s) => Return s
  | None => Raise (KeyError step_key)
  end.

Section Environment.
Context {Value : Type}.

(** ** The typed environment, from [system_config.objects] *)
Record ContextConfig : Type := {
  ctx_name : string;
  ctx_config : option Value;
  ctx_resources : gmap string (gmap string Value);
  ctx_persistence : list (string * Value);
}.

Record EnvironmentConfig : Type := {
  env_context : ContextConfig;
  original_config_dict : option Value;
}.

Record RuntimeExecutionContext : Type := {
  rc_run_id : string;
  rc_loggers : list string;
  rc_resources : option Value;
  rc_tags : gmap string string;
  rc_event_callback : option nat;
  rc_environment_config : option Value;
  rc_persistence_policy : PersistencePolicy;
}.

Record ContextCreationExecutionInfo : Type := {
  cci_config : option Value;
  cci_pipeline_def : PipelineDefinition;
  cci_run_id : string;
}.

Record ResourceCreationInfo : Type := {
  rci_config : option Value;
  rci_run_id : string;
}.

Record ExecutionPlanInfo : Type := {
  epi_context : RuntimeExecutionContext;
  epi_pipeline : PipelineDefinition;
  epi_environment : EnvironmentConfig;
}.

Record ExecutionPlanSubsetInfo : Type := {
  included_step_keys : list string;
  subset_inputs : gmap string (gmap string Value);
}.

Record EvaluateValueResult : Type := {
  ev_success : bool;
  ev_value : Value;
}.

End Environment.

Arguments ContextConfig : clear implicits.
Arguments EnvironmentConfig : clear implicits.
Arguments RuntimeExecutionContext : clear implicits.
Arguments ContextCreationExecutionInfo : clear implicits.
Arguments ResourceCreationInfo : clear implicits.
Arguments ExecutionPlanInfo : clear implicits.
Arguments ExecutionPlanSubsetInfo : clear implicits.
Arguments EvaluateValueResult : clear implicits.

(** ** The collaborators of the execution core

    The configuration evaluator, the user's factories, the plan builder, the
    step engine, the persistence policy and [merge_dicts] of [dagster.utils]
    are called by the file and defined elsewhere: the code is verified for
    every behaviour they may have.  Of [merge_dicts] only its use is known
    here: it is given two dictionaries and returns one; which entry it keeps
    on a key that both have is not fixed. *)
Class Collaborators (Value : Type) : Type := {
  merge_dicts : gmap string string → gmap string string → gmap string string;
  evaluate_config_value :
    PipelineDefinition → option Value → EvaluateValueResult Value;
  construct_environment_config : Value → EnvironmentConfig Value;
  context_fn :
    ContextDefinition → ContextCreationExecutionInfo Value →
    result (ThingOrGen (ExecutionContext Value));
  resource_fn :
    ResourceDefinition → ResourceCreationInfo Value → result (ThingOrGen Value);
  resources_type : ContextDefinition → list (string * Value) → Value;
  create_execution_plan_core :
    ExecutionPlanInfo Value → ExecutionMetadata →
    option (ExecutionPlanSubsetInfo Value) → result ExecutionPlan;
  execute_plan_core :
    RuntimeExecutionContext Value → ExecutionPlan → bool → M (list (StepResult Value));
  read_value : PersistencePolicy → string → string → result Value;
  write_value : PersistencePolicy → string → string → Value → result unit;
}.

Section Execution.
Context {Value : Type} `{!Collaborators Value} `{!TopologicalOrder}.

#[local] Abbreviation StepResult := (StepResult Value).
#[local] Abbreviation SolidExecutionResult := (SolidExecutionResult Value).
#[local] Abbreviation ExecutionContext := (ExecutionContext Value).
#[local] Abbreviation EnvironmentConfig := (EnvironmentConfig Value).
#[local] Abbreviation RuntimeExecutionContext := (RuntimeExecutionContext Value).

Definition create_typed_environment (pipeline : PipelineDefinition)
    (environment : option Value) : result EnvironmentConfig :=
  let result := evaluate_config_value pipeline environment in
  if negb (ev_success result) then Raise PipelineConfigEvaluationError
  else Return (construct_environment_config (ev_value result)).

(** ** Tags *)

Definition get_tags (user_context_params : ExecutionContext)
    (execution_metadata : option ExecutionMetadata) (pipeline : PipelineDefinition)
  : result (gmap string string) :=
  let base_tags :=
    merge_dicts {[ "pipeline" := pipeline_name pipeline ]} (ec_tags user_context_params) in
  match execution_metadata with
  | Some md =>
      if truthy_dict (md_tags md) then
        let user_keys := dom (ec_tags user_context_params) in
        let provided_keys := dom (md_tags md) in
        if negb (isdisjoint user_keys provided_keys)
        then Raise DagsterInvariantViolationError
        else Return (merge_dicts base_tags (md_tags md))
      else Return base_tags
  | None => Return base_tags
  end.

(** ** Resources *)

Definition get_resource_or_gen (context_definition : ContextDefinition)
    (resource_name : string) (environment : EnvironmentConfig) (run_id : string)
  : result (ThingOrGen Value) :=
  match assoc resource_name (resources context_definition) with
  | None => Raise (KeyError resource_name)
  | Some resource_def =>
      let resource_config :=
        default ∅ (ctx_resources (env_context environment) !! resource_name) !! "config" in
      resource_fn resource_def {| rci_config := resource_config; rci_run_id := run_id |}
  end.

(** The loop of [_create_resources] over an [ExitStack]: every resource is
    entered inside the scope of the ones before it, so the scopes are left in
    the reverse order. *)
Fixpoint enter_resources {B} (context_def : ContextDefinition)
    (environment : EnvironmentConfig) (run_id : string)
    (names : list string) (acquired : list (string * Value))
    (body : list (string * Value) → M B) : M B :=
  match names with
  | [] => body acquired
  | resource_name :: names' =>
      let* resource_obj_or_gen :=
        lift (get_resource_or_gen context_def resource_name environment run_id) in
      with_maybe_gen resource_obj_or_gen (λ resource_obj,
        enter_resources context_def environment run_id names'
          (acquired ++ [(resource_name, resource_obj)]) body)
  end.

Definition _create_resources {B} (pipeline_def : PipelineDefinition)
    (context_def : ContextDefinition) (environment : EnvironmentConfig)
    (execution_context : ExecutionContext) (run_id : string)
    (body : option Value → M B) : M B :=
  if negb (truthy (resources context_def)) then body (ec_resources execution_context)
  else
    lift (check_invariant (negb (bool_decide (is_Some (ec_resources execution_context))))) ;;
    enter_resources context_def environment run_id (resources context_def).*1 []
      (λ acquired,
        let context_name := ctx_name (env_context environment) in
        match context_definitions pipeline_def !! context_name with
        | None => lift (Raise (KeyError context_name))
        | Some cd => body (Some (resources_type cd acquired))
        end).

(** ** [yield_context]

    [with yield_context(...) as context: body].  The scope is open from the
    [yield] of the runtime context until [body] returns. *)
Definition yield_context {B} (pipeline : PipelineDefinition)
    (environment : EnvironmentConfig) (execution_metadata : ExecutionMetadata)
    (body : RuntimeExecutionContext → M B) : M B :=
  let context_name := ctx_name (env_context environment) in
  match context_definitions pipeline !! context_name with
  | None => lift (Raise (KeyError context_name))
  | Some context_definition =>
      let* ec_or_gen :=
        lift (context_fn context_definition
                {| cci_config := ctx_config (env_context environment);
                   cci_pipeline_def := pipeline;
                   cci_run_id := md_run_id execution_metadata |}) in
      with_maybe_gen ec_or_gen (λ execution_context,
        _create_resources pipeline context_definition environment execution_context
          (md_run_id execution_metadata) (λ resources,
            let loggers := _create_loggers execution_metadata execution_context in
            let* tags := lift (get_tags execution_context (Some execution_metadata) pipeline) in
            let* persistence_policy :=
              lift (_create_persistence_policy (ctx_persistence (env_context environment))) in
            emit context_opened ;;
            let* r :=
              body {| rc_run_id := md_run_id execution_metadata;
                      rc_loggers := loggers;
                      rc_resources := resources;
                      rc_tags := tags;
                      rc_event_callback := get_event_callback (Some execution_metadata);
                      rc_environment_config := original_config_dict environment;
                      rc_persistence_policy := persistence_policy |} in
            emit context_closed ;;
            mret r))
  end.

(** [check.inst_param(execution_metadata, ..., ExecutionMetadata)] on an
    argument that may be [None]. *)
Definition check_inst_param {A} (obj : option A) : result A :=
  match obj with
  | Some a => Return a
  | None => Raise ParameterCheckError
  end.

(** ** [_do_iterate_pipeline], drained by its consumer *)
Definition _do_iterate_pipeline (pipeline : PipelineDefinition)
    (context : RuntimeExecutionContext) (typed_environment : EnvironmentConfig)
    (execution_metadata : ExecutionMetadata) (throw_on_user_error : bool)
  : M (list SolidExecutionResult) :=
  emit pipeline_start ;;
  let* execution_plan :=
    lift (create_execution_plan_core
            {| epi_context := context; epi_pipeline := pipeline;
               epi_environment := typed_environment |}
            execution_metadata None) in
  let steps := topological_steps execution_plan in
  match steps with
  | [] =>
      emit debug_no_nodes ;;
      emit pipeline_success ;;
      mret []
  | step0 :: _ =>
      emit (debug_order (key <$> steps)) ;;
      lift (check_invariant (bool_decide (length (step_inputs step0) = 0))) ;;
      emit step_engine_invoked ;;
      let* step_results := execute_plan_core context execution_plan throw_on_user_error in
      let* solid_results := lift (_process_step_results pipeline step_results) in
      let pipeline_success_flag := all (solid_success <$> solid_results) in
      (if pipeline_success_flag then emit pipeline_success else emit pipeline_failure) ;;
      mret solid_results
  end.

Definition execute_pipeline_with_metadata (pipeline : PipelineDefinition)
    (typed_environment : EnvironmentConfig) (execution_metadata : ExecutionMetadata)
    (throw_on_user_error : bool) : M (PipelineExecutionResult Value) :=
  yield_context pipeline typed_environment execution_metadata (λ context,
    let* results :=
      _do_iterate_pipeline pipeline context typed_environment execution_metadata
        throw_on_user_error in
    mret {| pipeline := pipeline; result_list := results;
            run_id := rc_run_id context |}).

End Execution.

(** ** Externalized plans *)

(** [d[k]] on a dictionary kept as an association list. *)
Definition getitem {A} (k : string) (d : list (string * A)) : result A :=
  match assoc k d with
  | Some v => Return v
  | None => Raise (KeyError k)
  end.

(** [set(output.keys()) == set(['output', 'path'])] *)
Definition keys_are_output_and_path (output : list (string * string)) : bool :=
  bool_decide (list_to_set output.*1 =@{gset string} {[ "output"; "path" ]}).

Definition _check_outputs_to_marshal (execution_plan : ExecutionPlan)
    (outputs_to_marshal : list (string * list (list (string * string))))
  : result unit :=
  if truthy outputs_to_marshal then
    for_each (λ item : string * list (list (string * string)),
      let step_key := item.1 in
      let outputs_for_step := item.2 in
      if negb (has_step execution_plan step_key)
      then Raise (DagsterExecutionStepNotFoundError step_key)
      else
        let? step := get_step_by_key execution_plan step_key in
        for_each (λ output : list (string * string),
          check_param_invariant (keys_are_output_and_path output) ;?
          let? output_name := getitem "output" output in
          if negb (has_step_output step output_name)
          then Raise (DagsterMarshalOutputNotFoundError output_name step_key)
          else Return tt) outputs_for_step) outputs_to_marshal
  else Return tt.

Definition _check_inputs_to_marshal (execution_plan : ExecutionPlan)
    (inputs_to_marshal : list (string * list (string * string)))
  : result unit :=
  if truthy inputs_to_marshal then
    for_each (λ item : string * list (string * string),
      let step_key := item.1 in
      let input_dict := item.2 in
      if negb (has_step execution_plan step_key)
      then Raise (DagsterExecutionStepNotFoundError step_key)
      else
        let? step := get_step_by_key execution_plan step_key in
        for_each (λ input_name : string,
          if negb (has_step_input step input_name)
          then Raise (DagsterUnmarshalInputNotFoundError input_name (key step))
          else Return tt) input_dict.*1) inputs_to_marshal
  else Return tt.

Fixpoint mfoldl {A S} (f : S → A → M S) (s : S) (l : list A) : M S :=
  match l with
  | [] => mret s
  | x :: l' => let* s' := f s x in mfoldl f s' l'
  end.

Section Externalized.
Context {Value : Type} `{!Collaborators Value} `{!TopologicalOrder}.

#[local] Abbreviation StepResult := (StepResult Value).
#[local] Abbreviation RuntimeExecutionContext := (RuntimeExecutionContext Value).

(** [try: ... except Exception as e: raise_from(wrapper, e)] *)
Definition wrap_exception {A} (wrapper : exn) (r : result A) : result A :=
  match r with
  | Return a => Return a
  | Raise _ => Raise wrapper
  end.

Definition _unmarshal_inputs (context : RuntimeExecutionContext)
    (inputs_to_marshal : list (string * list (string * string)))
    (execution_plan : ExecutionPlan) : M (gmap string (gmap string Value)) :=
  mfoldl (λ inputs (item : string * list (string * string)),
    let step_key := item.1 in
    let input_dict := item.2 in
    let* step := lift (get_step_by_key execution_plan step_key) in
    mfoldl (λ inputs (entry : string * string),
      let input_name := entry.1 in
      let file_path := entry.2 in
      lift (check_invariant (has_step_input step input_name)) ;;
      let* input_type := lift (getitem input_name (step_input_dict step)) in
      lift (check_invariant (bool_decide (is_Some (serialization_strategy input_type)))) ;;
      emit (read_value_called file_path) ;;
      let* input_value :=
        lift (wrap_exception (DagsterUnmarshalInputError input_name (key step))
                (read_value (rc_persistence_policy context)
                   (default "" (serialization_strategy input_type)) file_path)) in
      mret (<[step_key := <[input_name := input_value]> (default ∅ (inputs !! step_key))]>
              inputs))
      inputs input_dict)
    ∅ inputs_to_marshal.

Definition _marshal_outputs (context : RuntimeExecutionContext)
    (results : list StepResult)
    (outputs_to_marshal : list (string * list (list (string * string)))) : M unit :=
  mfor_each (λ result : StepResult,
    let step := step result in
    match success result, assoc (key step) outputs_to_marshal with
    | true, Some outputs =>
        mfor_each (λ output : list (string * string),
          let* name := lift (getitem "output" output) in
          let* data := lift (get_success_data result) in
          if negb (bool_decide (name = output_name data)) then mret tt
          else
            let* output_type := lift (getitem name (step_output_dict step)) in
            let* path :=
              lift (wrap_exception (DagsterMarshalOutputError name (key step))
                      (getitem "path" output)) in
            emit (write_value_called path) ;;
            lift (wrap_exception (DagsterMarshalOutputError name (key step))
                    (write_value (rc_persistence_policy context)
                       (default "" (serialization_strategy output_type)) path
                       (value data)))) outputs
    | _, _ => mret tt
    end) results.

(** [inputs_to_marshal] and [outputs_to_marshal] are the dictionaries after
    the defaulting of [None] to an empty dictionary; [execution_metadata] may
    be [None], and [yield_context] then rejects it. *)
Definition execute_externalized_plan (pipeline : PipelineDefinition)
    (execution_plan : ExecutionPlan) (step_keys : list string)
    (inputs_to_marshal : list (string * list (string * string)))
    (outputs_to_marshal : list (string * list (list (string * string))))
    (environment : option Value) (execution_metadata : option ExecutionMetadata)
    (throw_on_user_error : bool) : M (list StepResult) :=
  let* typed_environment := lift (create_typed_environment pipeline environment) in
  let* metadata := lift (check_inst_param execution_metadata) in
  yield_context pipeline typed_environment metadata (λ context,
    lift (_check_inputs_to_marshal execution_plan inputs_to_marshal) ;;
    lift (_check_outputs_to_marshal execution_plan outputs_to_marshal) ;;
    let* inputs := _unmarshal_inputs context inputs_to_marshal execution_plan in
    let* execution_plan :=
      lift (create_execution_plan_core
              {| epi_context := context; epi_pipeline := pipeline;
                 epi_environment := typed_environment |}
              metadata
              (Some {| included_step_keys := step_keys; subset_inputs := inputs |})) in
    emit step_engine_invoked ;;
    let* results := execute_plan_core context execution_plan throw_on_user_error in
    _marshal_outputs context results outputs_to_marshal ;;
    mret results).

Definition execute_plan (pipeline : PipelineDefinition) (execution_plan : ExecutionPlan)
    (environment : option Value) (execution_metadata : ExecutionMetadata)
    (throw_on_user_error : bool) : M (list StepResult) :=
  let* typed_environment := lift (create_typed_environment pipeline environment) in
  yield_context pipeline typed_environment execution_metadata (λ context,
    emit step_engine_invoked ;;
    execute_plan_core context execution_plan throw_on_user_error).

End Externalized.

(** ** Subset pipelines *)

Record DependencyDefinition : Type := {
  dep_solid : string;
  dep_output : string;
}.

#[global] Instance DependencyDefinition_eq_dec : EqDecision DependencyDefinition.
Proof. solve_decision. Defined.

(** [SolidInstance(name, alias)] *)
Definition _dep_key_of (solid : Solid) : string * string :=
  (definition_name (definition solid), solid_name solid).

(** The arguments with which [build_sub_pipeline] calls the constructor of
    [PipelineDefinition]; the constructor belongs to [definitions]. *)
Record PipelineConstruction : Type := {
  new_name : string;
  new_solids : list SolidDefinition;
  new_context_definitions : gmap string ContextDefinition;
  new_dependencies : gmap (string * string) (gmap string DependencyDefinition);
}.

Fixpoint map_result {A B} (f : A → result B) (l : list A) : result (list B) :=
  match l with
  | [] => Return []
  | x :: l' => let? y := f x in let? ys := map_result f l' in Return (y :: ys)
  end.

Definition _out_handle_of_inp (pipeline_def : PipelineDefinition)
    (solid_name_set : gset string) (input_handle : SolidInputHandle)
  : option SolidOutputHandle :=
  if has_dep pipeline_def input_handle then
    match get_dep pipeline_def input_handle with
    | Some output_handle =>
        if bool_decide (solid_name (oh_solid output_handle) ∈ solid_name_set)
        then Some output_handle
        else None
    | None => None
    end
  else None.

(** [deps[k][i] = v] where [deps[k]] is an existing dictionary. *)
Definition set_dep (k : string * string) (i : string) (v : DependencyDefinition)
    (deps : gmap (string * string) (gmap string DependencyDefinition))
  : gmap (string * string) (gmap string DependencyDefinition) :=
  alter (λ d, <[i := v]> d) k deps.

Definition add_solid_deps (pipeline_def : PipelineDefinition)
    (solid_name_set : gset string)
    (deps : gmap (string * string) (gmap string DependencyDefinition)) (solid : Solid)
  : gmap (string * string) (gmap string DependencyDefinition) :=
  foldl (λ deps input_handle,
    match _out_handle_of_inp pipeline_def solid_name_set input_handle with
    | Some output_handle =>
        set_dep (_dep_key_of solid) (ih_input_def input_handle)
          {| dep_solid := solid_name (oh_solid output_handle);
             dep_output := oh_output_def output_handle |} deps
    | None => deps
    end) deps (input_handles solid).

Definition build_sub_pipeline (pipeline_def : PipelineDefinition)
    (solid_names : list string) : result PipelineConstruction :=
  let solid_name_set : gset string := list_to_set solid_names in
  let? solids := map_result (solid_named pipeline_def) solid_names in
  let deps0 : gmap (string * string) (gmap string DependencyDefinition) :=
    foldl (λ deps solid, <[_dep_key_of solid := ∅]> deps) ∅ solids in
  let deps := foldl (add_solid_deps pipeline_def solid_name_set) deps0 solids in
  Return {| new_name := pipeline_name pipeline_def;
            new_solids := remove_dups (definition <$> solids);
            new_context_definitions := context_definitions pipeline_def;
            new_dependencies := deps |}.

(** ** Plan construction *)

(** [ExecutionMetadata()], the metadata of a caller that gives none; its run id
    is generated. *)
Class DefaultMetadata : Type :=
  default_execution_metadata : ExecutionMetadata.

Section PlanConstruction.
Context {Value : Type} `{!Collaborators Value} `{!DefaultMetadata}.

Definition create_execution_plan_with_typed_environment (pipeline : PipelineDefinition)
    (typed_environment : EnvironmentConfig Value) (execution_metadata : ExecutionMetadata)
    (subset_info : option (ExecutionPlanSubsetInfo Value)) : M ExecutionPlan :=
  yield_context pipeline typed_environment execution_metadata (λ context,
    lift (create_execution_plan_core
            {| epi_context := context; epi_pipeline := pipeline;
               epi_environment := typed_environment |}
            execution_metadata subset_info)).

Definition create_execution_plan (pipeline : PipelineDefinition)
    (env_config : option Value) (execution_metadata : option ExecutionMetadata)
    (subset_info : option (ExecutionPlanSubsetInfo Value)) : M ExecutionPlan :=
  let execution_metadata := default default_execution_metadata execution_metadata in
  let* typed_environment := lift (create_typed_environment pipeline env_config) in
  create_execution_plan_with_typed_environment pipeline typed_environment
    execution_metadata subset_info.

End PlanConstruction.

(** ** The entry points of a run *)

(** The constructor of [PipelineDefinition], which belongs to [definitions]: it
    builds a pipeline from the arguments it is given, or rejects them. *)
Class PipelineConstructor : Type :=
  new_pipeline : PipelineConstruction → result PipelineDefinition.

Section EntryPoints.
Context {Value : Type} `{!Collaborators Value} `{!TopologicalOrder}
  `{!DefaultMetadata} `{!PipelineConstructor}.

Definition get_subset_pipeline (pipeline : PipelineDefinition)
    (solid_subset : option (list string)) : result PipelineDefinition :=
  match solid_subset with
  | None => Return pipeline
  | Some solid_names =>
      let? construction := build_sub_pipeline pipeline solid_names in
      new_pipeline construction
  end.

(** [execute_pipeline_iterator], drained: the solid results it yields, in
    order, or the exception that ends it. *)
Definition execute_pipeline_iterator (pipeline : PipelineDefinition)
    (environment : option Value) (throw_on_user_error : bool)
    (execution_metadata : option ExecutionMetadata) (solid_subset : option (list string))
  : M (list (SolidExecutionResult Value)) :=
  let execution_metadata := default default_execution_metadata execution_metadata in
  let* pipeline_to_execute := lift (get_subset_pipeline pipeline solid_subset) in
  let* typed_environment := lift (create_typed_environment pipeline_to_execute environment) in
  yield_context pipeline_to_execute typed_environment execution_metadata (λ context,
    _do_iterate_pipeline pipeline_to_execute context typed_environment execution_metadata
      throw_on_user_error).

Definition execute_pipeline (pipeline : PipelineDefinition)
    (environment : option Value) (throw_on_user_error : bool)
    (execution_metadata : option ExecutionMetadata) (solid_subset : option (list string))
  : M (PipelineExecutionResult Value) :=
  let execution_metadata := default default_execution_metadata execution_metadata in
  let* pipeline_to_execute := lift (get_subset_pipeline pipeline solid_subset) in
  let* typed_environment := lift (create_typed_environment pipeline_to_execute environment) in
  execute_pipeline_with_metadata pipeline_to_execute typed_environment execution_metadata
    throw_on_user_error.

End EntryPoints.

(** ** Example data

    A pipeline with two solids, [a] feeding [b], used to evaluate the
    definitions on concrete inputs. *)
Module Examples.

Definition def_a : SolidDefinition :=
  {| definition_name := "def_a"; input_defs := []; output_defs := ["result"; "other"] |}.

Definition def_b : SolidDefinition :=
  {| definition_name := "def_b"; input_defs := ["in"]; output_defs := ["result"] |}.

Definition solid_a : Solid := {| solid_id := 1; solid_name := "a"; definition := def_a |}.
Definition solid_b : Solid := {| solid_id := 2; solid_name := "b"; definition := def_b |}.

Definition default_context : ContextDefinition := {| context_id := 0; resources := [] |}.

Definition pipeline_ab : PipelineDefinition :=
  {| pipeline_name := "ab";
     pipeline_solids := [solid_a; solid_b];
     dependency_structure :=
       {[ ("b", "in") := {| oh_solid := solid_a; oh_output_def := "result" |} ]};
     context_definitions := {[ "default" := default_context ]} |}.

Definition any_type : RuntimeType := {| serialization_strategy := Some "pickle" |}.

Definition step_a : ExecutionStep :=
  {| key := "a.transform"; step_kind := TRANSFORM; step_solid := solid_a;
     step_input_dict := []; step_output_dict := [("result", any_type)] |}.

Definition step_b : ExecutionStep :=
  {| key := "b.transform"; step_kind := TRANSFORM; step_solid := solid_b;
     step_input_dict := [("in", any_type)]; step_output_dict := [("result", any_type)] |}.

Definition step_b_expect : ExecutionStep :=
  {| key := "b.in.expectation"; step_kind := INPUT_EXPECTATION; step_solid := solid_b;
     step_input_dict := [("in", any_type)]; step_output_dict := [] |}.

Definition plan_ab : ExecutionPlan :=
  {| topological_steps := [step_a; step_b_expect; step_b] |}.

Definition ok (s : ExecutionStep) (k : StepKind) (name : string) (v : nat) : StepResult nat :=
  {| success := true; step := s; kind := k;
     success_data := Some {| output_name := name; value := v |};
     failure_data := None |}.

Definition failed (s : ExecutionStep) (k : StepKind) (err : nat) : StepResult nat :=
  {| success := false; step := s; kind := k;
     success_data := None;
     failure_data := Some {| failure_error := err |} |}.

Definition result_a : SolidExecutionResult nat :=
  {| solid := solid_a;
     step_results_by_kind := {[ TRANSFORM := [ok step_a TRANSFORM "result" 42] ]} |}.

Definition result_b_failed : SolidExecutionResult nat :=
  {| solid := solid_b;
     step_results_by_kind :=
       {[ INPUT_EXPECTATION := [ok step_b_expect INPUT_EXPECTATION "in" 42];
          TRANSFORM := [failed step_b TRANSFORM 7] ]} |}.

Definition run_ab : PipelineExecutionResult nat :=
  {| pipeline := pipeline_ab; result_list := [result_a; result_b_failed]; run_id := "run" |}.

Definition environment_ab : EnvironmentConfig nat :=
  {| env_context :=
       {| ctx_name := "default"; ctx_config := None; ctx_resources := ∅;
          ctx_persistence := [("file", 0)] |};
     original_config_dict := None |}.

Definition metadata : ExecutionMetadata :=
  {| md_run_id := "run"; md_tags := ∅; md_event_callback := None; md_loggers := [] |}.

Definition user_context : ExecutionContext nat :=
  {| ec_loggers := []; ec_resources := None; ec_tags := ∅ |}.

(** Collaborators that accept every environment, build the given plan and run
    a step engine that returns the given step results; their [merge_dicts]
    keeps the entries of both dictionaries. *)
Definition collaborators (plan : ExecutionPlan) (step_results : list (StepResult nat))
  : Collaborators nat :=
  {| merge_dicts := λ left right, right ∪ left;
     evaluate_config_value := λ _ _, {| ev_success := true; ev_value := 0 |};
     construct_environment_config := λ _, environment_ab;
     context_fn := λ _ _, Return (Thing user_context);
     resource_fn := λ _ _, Return (Thing 0);
     resources_type := λ _ _, 0;
     create_execution_plan_core := λ _ _ _, Return plan;
     execute_plan_core := λ _ _ _, mret step_results;
     read_value := λ _ _ _, Return 0;
     write_value := λ _ _ _ _, Return tt |}.

Definition topological_order : TopologicalOrder := λ p, pipeline_solids p.

Definition runtime_context : RuntimeExecutionContext nat :=
  {| rc_run_id := "run"; rc_loggers := []; rc_resources := None; rc_tags := ∅;
     rc_event_callback := None; rc_environment_config := None;
     rc_persistence_policy := FilePersistencePolicy |}.

(** A request that names the step ["missing"]. *)
Definition request_missing_step : list (string * list (string * string)) :=
  [("missing", [("in", "/tmp/a.bin")])].

(** The step results of [b] and [a] arrive interleaved and out of order; the
    results come out for [a], then for [b]. *)
Definition stream_ba : list (StepResult nat) :=
  [ok step_b_expect INPUT_EXPECTATION "in" 42;
   ok step_a TRANSFORM "result" 42;
   failed step_b TRANSFORM 7].

End Examples.

(** ** More example data *)
Module MoreExamples.
Import Examples.

Definition run_a : PipelineExecutionResult nat :=
  {| pipeline := pipeline_ab; result_list := [result_a]; run_id := "run" |}.

(** What [build_sub_pipeline] builds for the subset [b] of the example. *)
Definition sub_b : PipelineConstruction :=
  {| new_name := "ab";
     new_solids := [def_b];
     new_context_definitions := {[ "default" := default_context ]};
     new_dependencies := {[ ("def_b", "b") := ∅ ]} |}.

(** The runtime context that [yield_context] builds for the example. *)
Definition opened_context : RuntimeExecutionContext nat :=
  {| rc_run_id := "run"; rc_loggers := _create_loggers metadata user_context;
     rc_resources := None; rc_tags := {[ "pipeline" := "ab" ]};
     rc_event_callback := None; rc_environment_config := None;
     rc_persistence_policy := FilePersistencePolicy |}.

(** An environment that asks for a persistence the code does not know. *)
Definition environment_s3 : EnvironmentConfig nat :=
  {| env_context :=
       {| ctx_name := "default"; ctx_config := None; ctx_resources := ∅;
          ctx_persistence := [("s3", 0)] |};
     original_config_dict := None |}.

(** Metadata whose tag ["team"] meets the tag of [tagged_context]. *)
Definition tagged_metadata : ExecutionMetadata :=
  {| md_run_id := "run"; md_tags := {[ "team" := "ops" ]};
     md_event_callback := None; md_loggers := [] |}.

Definition tagged_context : ExecutionContext nat :=
  {| ec_loggers := []; ec_resources := None; ec_tags := {[ "team" := "data" ]} |}.

(** Collaborators whose context factory gives [tagged_context]. *)
Definition tagging_collaborators : Collaborators nat :=
  {| merge_dicts := λ left right, right ∪ left;
     evaluate_config_value := λ _ _, {| ev_success := true; ev_value := 0 |};
     construct_environment_config := λ _, environment_ab;
     context_fn := λ _ _, Return (Thing tagged_context);
     resource_fn := λ _ _, Return (Thing 0);
     resources_type := λ _ _, 0;
     create_execution_plan_core := λ _ _ _, Return plan_ab;
     execute_plan_core := λ _ _ _, mret [];
     read_value := λ _ _ _, Return 0;
     write_value := λ _ _ _ _, Return tt |}.

(** Collaborators that reject every environment. *)
Definition rejecting_collaborators : Collaborators nat :=
  {| merge_dicts := λ left right, right ∪ left;
     evaluate_config_value := λ _ _, {| ev_success := false; ev_value := 0 |};
     construct_environment_config := λ _, environment_ab;
     context_fn := λ _ _, Return (Thing user_context);
     resource_fn := λ _ _, Return (Thing 0);
     resources_type := λ _ _, 0;
     create_execution_plan_core := λ _ _ _, Return plan_ab;
     execute_plan_core := λ _ _ _, mret [];
     read_value := λ _ _ _, Return 0;
     write_value := λ _ _ _ _, Return tt |}.

(** Collaborators whose persistence policy cannot read ["/tmp/missing.bin"]. *)
Definition unreadable_collaborators : Collaborators nat :=
  {| merge_dicts := λ left right, right ∪ left;
     evaluate_config_value := λ _ _, {| ev_success := true; ev_value := 0 |};
     construct_environment_config := λ _, environment_ab;
     context_fn := λ _ _, Return (Thing user_context);
     resource_fn := λ _ _, Return (Thing 0);
     resources_type := λ _ _, 0;
     create_execution_plan_core := λ _ _ _, Return plan_ab;
     execute_plan_core := λ _ _ _, mret [];
     read_value := λ _ _ path,
       if bool_decide (path = "/tmp/missing.bin") then Raise (UserException "no such file")
       else Return 0;
     write_value := λ _ _ _ _, Return tt |}.

Definition default_metadata : DefaultMetadata := metadata.

(** A request to read the input of the transform of [b]. *)
Definition request_b : list (string * list (string * string)) :=
  [("b.transform", [("in", "/tmp/in.bin")])].

(** A request to write the output of the transform of [b]. *)
Definition outputs_b : list (string * list (list (string * string))) :=
  [("b.transform", [[("output", "result"); ("path", "/tmp/out.bin")]])].

(** A plan whose first step has an input. *)
Definition plan_b : ExecutionPlan := {| topological_steps := [step_b] |}.

(** A context definition that declares two resources, and a pipeline that has
    it as its default context. *)
Definition resource_context : ContextDefinition :=
  {| context_id := 1;
     resources := [("db", {| resource_id := 0 |}); ("cache", {| resource_id := 1 |})] |}.

Definition pipeline_db : PipelineDefinition :=
  {| pipeline_name := "db";
     pipeline_solids := [solid_a];
     dependency_structure := ∅;
     context_definitions := {[ "default" := resource_context ]} |}.

(** Collaborators whose context factory gives a generator that yields the
    user's context and raises when it is resumed. *)
Definition failing_teardown_collaborators : Collaborators nat :=
  {| merge_dicts := λ left right, right ∪ left;
     evaluate_config_value := λ _ _, {| ev_success := true; ev_value := 0 |};
     construct_environment_config := λ _, environment_ab;
     context_fn := λ _ _,
       Return (RaisingGenerator [user_context] (UserException "teardown"));
     resource_fn := λ _ _, Return (Thing 0);
     resources_type := λ _ _, 0;
     create_execution_plan_core := λ _ _ _, Return plan_ab;
     execute_plan_core := λ _ _ _, mret [];
     read_value := λ _ _ _, Return 0;
     write_value := λ _ _ _ _, Return tt |}.

End MoreExamples.

(** * Vocabulary of the specification

    The predicates in which the theorems below are stated. *)

Section ResultVocabulary.
Context {Value : Type}.
Implicit Types (r : StepResult Value) (x : StepResult Value)
  (stream : list (StepResult Value)).

(** [x] does not carry the output called [name]. *)
Definition other_output (name : string) x : Prop :=
  ∀ d, success_data x = Some d → output_name d ≠ name.

(** The mapping from output names to values read off a list of transforms:
    [name] is bound to the value of the last transform that carries it. *)
Definition maps_outputs (ts : list (StepResult Value)) (m : gmap string Value) : Prop :=
  ∀ name v,
    m !! name = Some v ↔
    ∃ pre x post d,
      ts = pre ++ x :: post ∧ success_data x = Some d ∧
      output_name d = name ∧ value d = v ∧ Forall (other_output name) post.

(** The solid that a step result belongs to. *)
Definition solid_of r : Solid := step_solid (step r).

(** What the aggregation yields for [stream] along [topo]. *)
Definition aggregates (topo : list Solid) stream
    (out : list (SolidExecutionResult Value)) : Prop :=
  solid <$> out = filter (λ s, s ∈ solid_of <$> stream) topo ∧
  Forall (λ ser, ∀ k,
    results_of_kind ser k = filter (λ r, solid_of r = solid ser ∧ kind r = k) stream) out.

End ResultVocabulary.

(** The tags of optional metadata. *)
Definition provided_tags (execution_metadata : option ExecutionMetadata)
  : gmap string string :=
  match execution_metadata with
  | Some md => md_tags md
  | None => ∅
  end.

(** [m] fails, either before the scope of the context is open or, with [e],
    as soon as it is open. *)
Definition fails_at_open {B} (e : exn) (m : M B) : Prop :=
  ∀ t, (∃ e', m t = (t, Raise e')) ∨ m t = (t ++ [context_opened], Raise e).

(** The errors that report a reference to something the plan does not have. *)
Definition not_found_error (e : exn) : Prop :=
  match e with
  | DagsterExecutionStepNotFoundError _
  | DagsterUnmarshalInputNotFoundError _ _
  | DagsterMarshalOutputNotFoundError _ _ => True
  | _ => False
  end.

(** [inputs_to_marshal] names a step the plan does not have, or an input its
    step does not have. *)
Definition input_reference_missing (plan : ExecutionPlan)
    (inputs_to_marshal : list (string * list (string * string))) : Prop :=
  ∃ step_key input_dict,
    (step_key, input_dict) ∈ inputs_to_marshal ∧
    (has_step plan step_key = false ∨
     ∃ step input_name,
       get_step_by_key plan step_key = Return step ∧
       input_name ∈ input_dict.*1 ∧ has_step_input step input_name = false).

(** [outputs_to_marshal] names a step the plan does not have, or an output its
    step does not have. *)
Definition output_reference_missing (plan : ExecutionPlan)
    (outputs_to_marshal : list (string * list (list (string * string)))) : Prop :=
  ∃ step_key outputs_for_step,
    (step_key, outputs_for_step) ∈ outputs_to_marshal ∧
    (has_step plan step_key = false ∨
     ∃ step output name,
       get_step_by_key plan step_key = Return step ∧
       output ∈ outputs_for_step ∧ assoc "output" output = Some name ∧
       has_step_output step name = false).

(** Every entry of [outputs_to_marshal] has exactly the keys [output] and
    [path]. *)
Definition outputs_well_formed
    (outputs_to_marshal : list (string * list (list (string * string)))) : Prop :=
  ∀ step_key outputs_for_step output,
    (step_key, outputs_for_step) ∈ outputs_to_marshal →
    output ∈ outputs_for_step →
    keys_are_output_and_path output = true.

(** The errors of the check of [inputs_to_marshal]. *)
Definition input_not_found (e : exn) : Prop :=
  match e with
  | DagsterExecutionStepNotFoundError _
  | DagsterUnmarshalInputNotFoundError _ _ => True
  | _ => False
  end.

(** The errors of the check of [outputs_to_marshal]. *)
Definition output_not_found (e : exn) : Prop :=
  match e with
  | DagsterExecutionStepNotFoundError _
  | DagsterMarshalOutputNotFoundError _ _ => True
  | _ => False
  end.

(** An entry of [inputs_to_marshal] whose step and inputs the plan has. *)
Definition input_entry_found (plan : ExecutionPlan)
    (item : string * list (string * string)) : Prop :=
  ∃ step, get_step_by_key plan item.1 = Return step ∧
          Forall (λ input_name, has_step_input step input_name = true) item.2.*1.

(** [e] is the error of the first missing reference of [inputs_to_marshal], in
    the order of the dictionaries: the entries before it are found, and either
    the plan has no step of its key and [e] is
    [DagsterExecutionStepNotFoundError] with that key, or the step is there,
    the input names before it are inputs of the step, the step has no input of
    its name, and [e] is [DagsterUnmarshalInputNotFoundError] with the name of
    the input and the key of the step. *)
Definition first_input_error (plan : ExecutionPlan)
    (inputs_to_marshal : list (string * list (string * string))) (e : exn) : Prop :=
  ∃ pre step_key input_dict post,
    inputs_to_marshal = pre ++ (step_key, input_dict) :: post ∧
    Forall (input_entry_found plan) pre ∧
    ((has_step plan step_key = false ∧ e = DagsterExecutionStepNotFoundError step_key) ∨
     ∃ step before input_name behind,
       get_step_by_key plan step_key = Return step ∧
       input_dict.*1 = before ++ input_name :: behind ∧
       Forall (λ name, has_step_input step name = true) before ∧
       has_step_input step input_name = false ∧
       e = DagsterUnmarshalInputNotFoundError input_name step_key).

(** A request for an output that the step has. *)
Definition output_found (step : ExecutionStep) (output : list (string * string)) : Prop :=
  ∃ name, assoc "output" output = Some name ∧ has_step_output step name = true.

(** An entry of [outputs_to_marshal] whose step and outputs the plan has. *)
Definition output_entry_found (plan : ExecutionPlan)
    (item : string * list (list (string * string))) : Prop :=
  ∃ step, get_step_by_key plan item.1 = Return step ∧ Forall (output_found step) item.2.

(** [e] is the error of the first missing reference of [outputs_to_marshal]:
    [DagsterExecutionStepNotFoundError] with the key of a step that the plan
    does not have, or [DagsterMarshalOutputNotFoundError] with the name of an
    output that the step does not have and the key of the step. *)
Definition first_output_error (plan : ExecutionPlan)
    (outputs_to_marshal : list (string * list (list (string * string)))) (e : exn) : Prop :=
  ∃ pre step_key outputs_for_step post,
    outputs_to_marshal = pre ++ (step_key, outputs_for_step) :: post ∧
    Forall (output_entry_found plan) pre ∧
    ((has_step plan step_key = false ∧ e = DagsterExecutionStepNotFoundError step_key) ∨
     ∃ step before output name behind,
       get_step_by_key plan step_key = Return step ∧
       outputs_for_step = before ++ output :: behind ∧
       Forall (output_found step) before ∧
       assoc "output" output = Some name ∧
       has_step_output step name = false ∧
       e = DagsterMarshalOutputNotFoundError name step_key).

(** The dependency that a dictionary of dependencies declares for the input [i]
    of the solid instance [k]. *)
Definition lookup_dep (deps : gmap (string * string) (gmap string DependencyDefinition))
    (k : string * string) (i : string) : option DependencyDefinition :=
  match deps !! k with
  | Some d => d !! i
  | None => None
  end.

Section SubPipelineVocabulary.
Variables (pipeline_def : PipelineDefinition) (solid_name_set : gset string).

#[local] Abbreviation deps_dict := (gmap (string * string) (gmap string DependencyDefinition)).

(** The dependency of the original pipeline on the input [i] of the solid
    called [n], kept when its producing solid is in the subset. *)
Definition edge (n i : string) : option DependencyDefinition :=
  match dependency_structure pipeline_def !! (n, i) with
  | Some output_handle =>
      if bool_decide (solid_name (oh_solid output_handle) ∈ solid_name_set)
      then Some {| dep_solid := solid_name (oh_solid output_handle);
                   dep_output := oh_output_def output_handle |}
      else None
  | None => None
  end.

(** [deps] declares for the input [i] of [k] what the original pipeline
    declares, restricted to the subset. *)
Definition agrees (deps : deps_dict) (k : string * string) (i : string) : Prop :=
  lookup_dep deps k i = edge k.2 i.

(** [deps] declares nothing but dependencies of the original pipeline on
    solids of the subset. *)
Definition sound (deps : deps_dict) : Prop :=
  ∀ k i, lookup_dep deps k i = None ∨ agrees deps k i.

(** One iteration of the inner loop of [build_sub_pipeline]. *)
Definition add_input_dep (solid : Solid) (deps : deps_dict) (i : string) : deps_dict :=
  match _out_handle_of_inp pipeline_def solid_name_set
          {| ih_solid := solid; ih_input_def := i |} with
  | Some output_handle =>
      set_dep (_dep_key_of solid) i
        {| dep_solid := solid_name (oh_solid output_handle);
           dep_output := oh_output_def output_handle |} deps
  | None => deps
  end.

End SubPipelineVocabulary.

Section MoreResultVocabulary.
Context {Value : Type}.

(** The output names carried by a list of step results, in order. *)
Definition output_names (ts : list (StepResult Value)) : list string :=
  omap (λ x, output_name <$> success_data x) ts.

End MoreResultVocabulary.

(** A factory that gives exactly one item, as a value or as a generator that
    yields the item and stops when it is resumed. *)
Definition yields_one {A} (g : ThingOrGen A) (a : A) : Prop :=
  _ensure_gen g = {| gen_items := [a]; gen_raises := None |}.

(** [m] fails without leaving an event. *)
Definition aborts {B} (m : M B) : Prop := ∀ t, ∃ e, m t = (t, Raise e).

(** The events that [m] adds to a trace satisfy [allowed]. *)
Definition bounded {B} (allowed : list event → Prop) (m : M B) : Prop :=
  ∀ t, ∃ t' r, m t = (t ++ t', r) ∧ allowed t'.

(** The events of a scope around events that satisfy [allowed]: none when the
    scope does not open, else [context_opened], the events of the body and,
    when the body returns, [context_closed]. *)
Definition framed (allowed : list event → Prop) (t' : list event) : Prop :=
  t' = [] ∨
  ∃ tb, allowed tb ∧ (t' = context_opened :: tb ∨ t' = context_opened :: tb ++ [context_closed]).

Section ScopeVocabulary.
Context {Value : Type} `{!Collaborators Value}.

(** The declared resources are created in the order of their declaration and
    every factory gives one item. *)
Definition acquires (cd : ContextDefinition) (env : EnvironmentConfig Value)
    (run_id : string) (acquired : list (string * Value)) : Prop :=
  Forall2 (λ name nv,
    nv.1 = name ∧
    ∃ g, get_resource_or_gen cd name env run_id = Return g ∧ yields_one g nv.2)
    (resources cd).*1 acquired.

(** The resources of the runtime context: those of the user's context when the
    definition declares none, else the aggregate of the declared ones. *)
Definition provides_resources (cd : ContextDefinition) (env : EnvironmentConfig Value)
    (ec : ExecutionContext Value) (run_id : string) (r : option Value) : Prop :=
  (resources cd = [] ∧ r = ec_resources ec) ∨
  (resources cd ≠ [] ∧ ec_resources ec = None ∧
   ∃ acquired, acquires cd env run_id acquired ∧ r = Some (resources_type cd acquired)).

(** [yield_context] opens the scope with the runtime context [ctx]: the
    context definition is there, the user's factory and the factories of the
    resources give one item each and stop when they are resumed, the tags do
    not meet and the persistence is known. *)
Definition opens (p : PipelineDefinition) (env : EnvironmentConfig Value)
    (md : ExecutionMetadata) (ctx : RuntimeExecutionContext Value) : Prop :=
  ∃ cd g ec tags policy r,
    context_definitions p !! ctx_name (env_context env) = Some cd ∧
    context_fn cd {| cci_config := ctx_config (env_context env);
                     cci_pipeline_def := p;
                     cci_run_id := md_run_id md |} = Return g ∧
    yields_one g ec ∧
    provides_resources cd env ec (md_run_id md) r ∧
    get_tags ec (Some md) p = Return tags ∧
    _create_persistence_policy (ctx_persistence (env_context env)) = Return policy ∧
    ctx = {| rc_run_id := md_run_id md;
             rc_loggers := _create_loggers md ec;
             rc_resources := r;
             rc_tags := tags;
             rc_event_callback := md_event_callback md;
             rc_environment_config := original_config_dict env;
             rc_persistence_policy := policy |}.

(** As [opens], with a context factory that gives a generator which yields the
    user's context and raises [e] when it is resumed. *)
Definition opens_raising (e : exn) (p : PipelineDefinition) (env : EnvironmentConfig Value)
    (md : ExecutionMetadata) (ctx : RuntimeExecutionContext Value) : Prop :=
  ∃ cd g ec tags policy r,
    context_definitions p !! ctx_name (env_context env) = Some cd ∧
    context_fn cd {| cci_config := ctx_config (env_context env);
                     cci_pipeline_def := p;
                     cci_run_id := md_run_id md |} = Return g ∧
    _ensure_gen g = {| gen_items := [ec]; gen_raises := Some e |} ∧
    provides_resources cd env ec (md_run_id md) r ∧
    get_tags ec (Some md) p = Return tags ∧
    _create_persistence_policy (ctx_persistence (env_context env)) = Return policy ∧
    ctx = {| rc_run_id := md_run_id md;
             rc_loggers := _create_loggers md ec;
             rc_resources := r;
             rc_tags := tags;
             rc_event_callback := md_event_callback md;
             rc_environment_config := original_config_dict env;
             rc_persistence_policy := policy |}.

End ScopeVocabulary.

Section RunVocabulary.
Context {Value : Type}.


End RunVocabulary.

(** [d[k][i]] on a dictionary of dictionaries. *)
Definition lookup2 {V} (d : gmap string (gmap string V)) (k i : string) : option V :=
  match d !! k with
  | Some d' => d' !! i
  | None => None
  end.

(** The paths of [inputs_to_marshal], in the order of the dictionary. *)
Definition input_paths (inputs_to_marshal : list (string * list (string * string)))
  : list string :=
  mjoin ((λ item, item.2.*2) <$> inputs_to_marshal).

Section MarshalVocabulary.
Context {Value : Type} `{!Collaborators Value}.

(** The input [input_name] of the step [step_key] can be read from [path] and
    the persistence policy gives [v] for it. *)
Definition readable (context : RuntimeExecutionContext Value) (plan : ExecutionPlan)
    (step_key input_name path : string) (v : Value) : Prop :=
  ∃ step input_type strategy,
    get_step_by_key plan step_key = Return step ∧
    assoc input_name (step_input_dict step) = Some input_type ∧
    serialization_strategy input_type = Some strategy ∧
    read_value (rc_persistence_policy context) strategy path = Return v.

(** Every input of [inputs_to_marshal] can be read, and the keys of its
    dictionaries are distinct. *)
Definition all_readable (context : RuntimeExecutionContext Value) (plan : ExecutionPlan)
    (inputs_to_marshal : list (string * list (string * string))) : Prop :=
  NoDup inputs_to_marshal.*1 ∧
  Forall (λ item,
    (∃ step, get_step_by_key plan item.1 = Return step) ∧
    NoDup item.2.*1 ∧
    Forall (λ entry, ∃ v, readable context plan item.1 entry.1 entry.2 v) item.2)
    inputs_to_marshal.

End MarshalVocabulary.

Section UnmarshalVocabulary.
Context {Value : Type} `{!Collaborators Value}.

(** The inner loop of [_unmarshal_inputs], for the step [step]. *)
Definition unmarshal_step (context : RuntimeExecutionContext Value) (step_key : string)
    (step : ExecutionStep) (inputs : gmap string (gmap string Value))
    (input_dict : list (string * string)) : M (gmap string (gmap string Value)) :=
  mfoldl (λ inputs (entry : string * string),
      let input_name := entry.1 in
      let file_path := entry.2 in
      lift (check_invariant (has_step_input step input_name)) ;;
      let* input_type := lift (getitem input_name (step_input_dict step)) in
      lift (check_invariant (bool_decide (is_Some (serialization_strategy input_type)))) ;;
      emit (read_value_called file_path) ;;
      let* input_value :=
        lift (wrap_exception (DagsterUnmarshalInputError input_name (key step))
                (read_value (rc_persistence_policy context)
                   (default "" (serialization_strategy input_type)) file_path)) in
      mret (<[step_key := <[input_name := input_value]> (default ∅ (inputs !! step_key))]>
              inputs))
    inputs input_dict.

End UnmarshalVocabulary.

(** What a scope makes of the outcome of its body: an exception of the body
    leaves the scope; when the body returns, the generators of the scope are
    resumed, and the value is returned if every one of them stops, while the
    exception [e] is raised if [after] is [Some e]: the exception that a
    generator raises, or the check error for a generator that yields again. *)
Definition scope_outcome {B} (after : option exn) (r : list event * result B)
  : list event * result B :=
  match r with
  | (t', Return b) => (t', match after with None => Return b | Some e => Raise e end)
  | (t', Raise e) => (t', Raise e)
  end.

(** A scope either fails before its body, whatever the body, or runs its body
    once on a value that does not depend on the body. *)
Definition scoped {A} (sc : ∀ B, (A → M B) → M B) : Prop :=
  (∃ e, ∀ B (body : A → M B) t, sc B body t = (t, Raise e)) ∨
  (∃ a after, ∀ B (body : A → M B) t, sc B body t = scope_outcome after (body a t)).

(** The drained iterator and the synchronous run agree. *)
Definition same_run {Value} (sync : list event * result (PipelineExecutionResult Value))
    (iter : list event * result (list (SolidExecutionResult Value))) : Prop :=
  sync.1 = iter.1 ∧
  match sync.2, iter.2 with
  | Return r, Return results => result_list r = results
  | Raise e1, Raise e2 => e1 = e2
  | _, _ => False
  end.

Section OpenedBody.
Context {Value : Type} `{!Collaborators Value}.

(** What [yield_context] does once the user's context [a.1] and the resources
    [a.2] are there: it builds the runtime context and runs the body on it. *)
Definition opened_body {B} (p : PipelineDefinition) (env : EnvironmentConfig Value)
    (md : ExecutionMetadata) (body : RuntimeExecutionContext Value → M B)
    (a : ExecutionContext Value * option Value) : M B :=
  let loggers := _create_loggers md a.1 in
  let* tags := lift (get_tags a.1 (Some md) p) in
  let* persistence_policy :=
    lift (_create_persistence_policy (ctx_persistence (env_context env))) in
  emit context_opened ;;
  let* r := body {| rc_run_id := md_run_id md; rc_loggers := loggers;
                    rc_resources := a.2; rc_tags := tags;
                    rc_event_callback := get_event_callback (Some md);
                    rc_environment_config := original_config_dict env;
                    rc_persistence_policy := persistence_policy |} in
  emit context_closed ;; mret r.

End OpenedBody.

Section MarshalOutVocabulary.
Context {Value : Type} `{!Collaborators Value}.

(** The inner loop of [_marshal_outputs], for the step result [result]. *)
Definition marshal_result (context : RuntimeExecutionContext Value)
    (result : StepResult Value) (outputs : list (list (string * string))) : M unit :=
  mfor_each (λ output : list (string * string),
    let* name := lift (getitem "output" output) in
    let* data := lift (get_success_data result) in
    if negb (bool_decide (name = output_name data)) then mret tt
    else
      let* output_type := lift (getitem name (step_output_dict (step result))) in
      let* path :=
        lift (wrap_exception (DagsterMarshalOutputError name (key (step result)))
                (getitem "path" output)) in
      emit (write_value_called path) ;;
      lift (wrap_exception (DagsterMarshalOutputError name (key (step result)))
              (write_value (rc_persistence_policy context)
                 (default "" (serialization_strategy output_type)) path
                 (value data)))) outputs.

(** The path of a requested output, when the request is for the output [name]. *)
Definition path_for (name : string) (output : list (string * string)) : option string :=
  if bool_decide (assoc "output" output = Some name) then assoc "path" output else None.

(** The paths that are written for the step result [r]: when it succeeded and
    outputs of its step are requested, those of the requests for the output it
    carries, in the order of the request. *)
Definition written_paths (outputs_to_marshal : list (string * list (list (string * string))))
    (r : StepResult Value) : list string :=
  match success r, assoc (key (step r)) outputs_to_marshal, success_data r with
  | true, Some outputs, Some data => omap (path_for (output_name data)) outputs
  | _, _, _ => []
  end.

(** The request [output] can be served from the success data [data] of a
    result of [step]: it names an output and, when that is the output of the
    data, it has a path, the step declares the output and the persistence
    policy writes the value. *)
Definition servable (context : RuntimeExecutionContext Value) (step : ExecutionStep)
    (data : StepSuccessData Value) (output : list (string * string)) : Prop :=
  ∃ name, assoc "output" output = Some name ∧
    (name = output_name data →
     ∃ path output_type,
       assoc "path" output = Some path ∧
       assoc name (step_output_dict step) = Some output_type ∧
       write_value (rc_persistence_policy context)
         (default "" (serialization_strategy output_type)) path (value data) = Return tt).

(** The step result [r] can be marshalled: when it succeeded and outputs of
    its step are requested, it has success data and every request can be
    served. *)
Definition writable (context : RuntimeExecutionContext Value)
    (outputs_to_marshal : list (string * list (list (string * string))))
    (r : StepResult Value) : Prop :=
  success r = true →
  ∀ outputs, assoc (key (step r)) outputs_to_marshal = Some outputs →
    ∃ data, success_data r = Some data ∧ Forall (servable context (step r) data) outputs.

End MarshalOutVocabulary.

(** * Specification *)

(** ** Helper lemmas *)

Lemma all_true_iff (l : list bool) : all l = true ↔ Forall (λ b, b = true) l.
Proof.
  unfold all. induction l as [|b l IH]; simpl.
  - split; [constructor | done].
  - rewrite andb_true_iff, IH, Forall_cons. by destruct b.
Qed.

Section SolidResults.
Context {Value : Type}.
Implicit Types (r : SolidExecutionResult Value) (x : StepResult Value).

Lemma solid_success_iff r :
  solid_success r = true ↔ Forall (λ x, success x = true) (chained r).
Proof. unfold solid_success. by rewrite all_true_iff, Forall_fmap. Qed.

Lemma first_result_named_found name (pre post : list (SolidExecutionResult Value)) r :
  Forall (λ s, solid_name (solid s) ≠ name) pre →
  solid_name (solid r) = name →
  first_result_named name (pre ++ r :: post) = Return r.
Proof.
  intros Hpre Hr. induction Hpre as [|s pre Hs _ IH]; simpl.
  - by rewrite decide_True.
  - by rewrite decide_False.
Qed.

Lemma first_result_named_missing name (rs : list (SolidExecutionResult Value)) :
  Forall (λ s, solid_name (solid s) ≠ name) rs →
  first_result_named name rs = Raise DagsterInvariantViolationError.
Proof. induction 1; simpl; [done | by rewrite decide_False]. Qed.

(** C9: [result_for_solid name] raises [DagsterInvariantViolationError] when the
    pipeline has no solid called [name], raises it as well when the solid exists
    but [result_list] holds no result for it, and otherwise returns the first
    result of [result_list] whose solid is called [name]. *)
Theorem result_for_solid_spec (p : PipelineExecutionResult Value) (name : string) :
  (has_solid (pipeline p) name = false →
   result_for_solid p name = Raise DagsterInvariantViolationError) ∧
  (has_solid (pipeline p) name = true →
   Forall (λ s, solid_name (solid s) ≠ name) (result_list p) →
   result_for_solid p name = Raise DagsterInvariantViolationError) ∧
  (has_solid (pipeline p) name = true →
   ∀ pre r post,
     result_list p = pre ++ r :: post →
     Forall (λ s, solid_name (solid s) ≠ name) pre →
     solid_name (solid r) = name →
     result_for_solid p name = Return r).
Proof.
  unfold result_for_solid. split; [|split].
  - by intros ->.
  - intros -> Hnone. simpl. by apply first_result_named_missing.
  - intros -> pre r post -> Hpre Hr. simpl. by apply first_result_named_found.
Qed.

Lemma first_error_found (pre post : list (StepResult Value)) x d :
  Forall (λ y, success y = true) pre →
  success x = false →
  failure_data x = Some d →
  first_error (pre ++ x :: post) = Return (Some (failure_error d)).
Proof.
  intros Hpre Hx Hd. induction Hpre as [|y pre Hy _ IH]; simpl.
  - rewrite Hx. simpl. unfold get_failure_data. by rewrite Hd.
  - by rewrite Hy.
Qed.

Lemma first_error_none (rs : list (StepResult Value)) :
  Forall (λ y, success y = true) rs → first_error rs = Return None.
Proof. induction 1 as [|y rs Hy _ IH]; simpl; [done | by rewrite Hy]. Qed.

(** C10: [dagster_error] returns the error of the first unsuccessful step result
    met when the input expectations, then the output expectations, then the
    transforms are scanned, and returns nothing when every step result
    succeeded. *)
Theorem dagster_error_spec r :
  (∀ pre x post d,
     input_expectations r ++ output_expectations r ++ transforms r = pre ++ x :: post →
     Forall (λ y, success y = true) pre →
     success x = false →
     failure_data x = Some d →
     dagster_error r = Return (Some (failure_error d))) ∧
  (Forall (λ y, success y = true)
     (input_expectations r ++ output_expectations r ++ transforms r) →
   dagster_error r = Return None).
Proof.
  unfold dagster_error, chained. split.
  - intros pre x post d -> Hpre Hx Hd. by apply first_error_found.
  - apply first_error_none.
Qed.

End SolidResults.

(** A run of [result_for_solid] on the two-solid example: the result of [b] is
    found behind the result of [a]. *)
Lemma result_for_solid_spec_witness :
  result_for_solid Examples.run_ab "b" = Return Examples.result_b_failed.
Proof.
  refine (proj2 (proj2 (result_for_solid_spec Examples.run_ab "b")) _
            [Examples.result_a] Examples.result_b_failed [] _ _ _).
  - reflexivity.
  - reflexivity.
  - repeat constructor. simpl. discriminate.
  - reflexivity.
Defined.

(** The failed transform of [b] is reported behind its successful input
    expectation. *)
Lemma dagster_error_spec_witness :
  dagster_error Examples.result_b_failed = Return (Some 7).
Proof.
  refine (proj1 (dagster_error_spec Examples.result_b_failed)
            [Examples.ok Examples.step_b_expect INPUT_EXPECTATION "in" 42]
            (Examples.failed Examples.step_b TRANSFORM 7) []
            {| failure_error := 7 |} _ _ _ _).
  - reflexivity.
  - repeat constructor.
  - reflexivity.
  - reflexivity.
Defined.

(** ** Values produced by a solid *)

Section TransformedValues.
Context {Value : Type}.
Implicit Types (r : SolidExecutionResult Value) (x : StepResult Value).

Lemma values_by_output_snoc (ts : list (StepResult Value)) x acc :
  values_by_output (ts ++ [x]) acc =
  let? m := values_by_output ts acc in
  let? d := get_success_data x in
  Return (<[output_name d := value d]> m).
Proof.
  revert acc. induction ts as [|y ts IH]; intros acc; simpl.
  - by destruct (get_success_data x).
  - destruct (get_success_data y); simpl; [apply IH | done].
Qed.

Lemma snoc_split {A} (ts pre post : list A) (x y : A) :
  ts ++ [x] = pre ++ y :: post →
  (post = [] ∧ pre = ts ∧ y = x) ∨ (∃ post', post = post' ++ [x] ∧ ts = pre ++ y :: post').
Proof.
  destruct post as [|z post _] using rev_ind; intros Heq.
  - left. apply app_inj_tail in Heq as [-> ->]. done.
  - right. rewrite app_comm_cons, app_assoc in Heq.
    apply app_inj_tail in Heq as [-> ->]. by exists post.
Qed.

Lemma values_by_output_maps (ts : list (StepResult Value)) :
  Forall (λ x, is_Some (success_data x)) ts →
  ∃ m, values_by_output ts ∅ = Return m ∧ maps_outputs ts m.
Proof.
  induction ts as [|x ts IH] using rev_ind; intros Hall.
  - exists ∅. split; [done|]. intros name v. rewrite lookup_empty. split; [done|].
    intros (pre & x & post & d & Heq & _). by destruct pre.
  - apply Forall_app in Hall as [Hts Hx]. apply Forall_inv in Hx as [d Hd].
    destruct (IH Hts) as (m & Hm & Hspec).
    exists (<[output_name d := value d]> m). split.
    { rewrite values_by_output_snoc, Hm. simpl. unfold get_success_data. by rewrite Hd. }
    intros name v. destruct (decide (output_name d = name)) as [Heq|Hne].
    + rewrite Heq, lookup_insert_eq. split.
      * intros [= <-]. exists ts, x, [], d. by repeat split.
      * intros (pre & y & post & d' & Hl & Hd' & Hn & Hv & Hpost).
        apply snoc_split in Hl as [(-> & -> & ->) | (post' & -> & ->)].
        -- congruence.
        -- apply Forall_app in Hpost as [_ Hz]. apply Forall_inv in Hz.
           by destruct (Hz d Hd).
    + rewrite lookup_insert_ne by done. rewrite (Hspec name v). split.
      * intros (pre & y & post & d' & -> & Hd' & Hn & Hv & Hpost).
        exists pre, y, (post ++ [x]), d'. repeat split; try done.
        -- by rewrite <- app_assoc.
        -- apply Forall_app. split; [done|]. apply Forall_singleton.
           intros d0 Hd0. congruence.
      * intros (pre & y & post & d' & Hl & Hd' & Hn & Hv & Hpost).
        apply snoc_split in Hl as [(-> & -> & ->) | (post' & -> & ->)].
        -- congruence.
        -- apply Forall_app in Hpost as [Hpost _].
           exists pre, y, post', d'. by repeat split.
Qed.

Lemma find_output_found name (pre post : list (StepResult Value)) x d :
  Forall (λ y, is_Some (success_data y) ∧ other_output name y) pre →
  success_data x = Some d →
  output_name d = name →
  find_output name (pre ++ x :: post) = Return (value d).
Proof.
  intros Hpre Hd Hn. induction Hpre as [|y pre [[dy Hdy] Hy] _ IH]; simpl.
  - unfold get_success_data. rewrite Hd. simpl. by rewrite decide_True.
  - unfold get_success_data. rewrite Hdy. simpl. rewrite decide_False; [done|].
    by apply Hy.
Qed.

Lemma find_output_missing name (ts : list (StepResult Value)) :
  Forall (λ y, is_Some (success_data y) ∧ other_output name y) ts →
  find_output name ts = Raise DagsterInvariantViolationError.
Proof.
  induction 1 as [|y ts [[dy Hdy] Hy] _ IH]; simpl; [done|].
  unfold get_success_data. rewrite Hdy. simpl. rewrite decide_False; [done|].
  by apply Hy.
Qed.

Lemma successful_transforms_have_data r :
  Forall (λ x, success x = true → is_Some (success_data x)) (transforms r) →
  solid_success r = true →
  Forall (λ x, is_Some (success_data x)) (transforms r).
Proof.
  intros Hwf Hs. apply solid_success_iff in Hs. unfold chained in Hs.
  apply Forall_app in Hs as [_ Hs]. apply Forall_app in Hs as [_ Hs].
  rewrite Forall_forall in Hwf, Hs. apply Forall_forall.
  intros x Hx. by apply Hwf, Hs.
Qed.

(** C6, as amended: [success] holds iff every contained step result succeeded;
    [transformed_values] is the mapping from output names to values of the
    transforms when the solid succeeded and a transform ran, and nothing
    otherwise; [transformed_value name] raises an invariant violation when
    [name] is not a declared output, returns nothing when the solid did not
    succeed, returns the value of the first transform that carries [name] when
    there is one, and raises an invariant violation when the solid succeeded
    but no transform carries [name]. *)
Theorem solid_execution_result_spec r :
  Forall (λ x, success x = true → is_Some (success_data x)) (transforms r) →
  (solid_success r = true ↔
   Forall (λ x, success x = true)
     (input_expectations r ++ output_expectations r ++ transforms r)) ∧
  (solid_success r = true → transforms r ≠ [] →
   ∃ m, transformed_values r = Return (Some m) ∧ maps_outputs (transforms r) m) ∧
  (solid_success r = false ∨ transforms r = [] →
   transformed_values r = Return None) ∧
  ∀ name,
    (has_output (definition (solid r)) name = false →
     transformed_value r name = Raise DagsterInvariantViolationError) ∧
    (has_output (definition (solid r)) name = true → solid_success r = false →
     transformed_value r name = Return None) ∧
    (has_output (definition (solid r)) name = true → solid_success r = true →
     ∀ pre x post d,
       transforms r = pre ++ x :: post →
       Forall (other_output name) pre →
       success_data x = Some d → output_name d = name →
       transformed_value r name = Return (Some (value d))) ∧
    (has_output (definition (solid r)) name = true → solid_success r = true →
     Forall (other_output name) (transforms r) →
     transformed_value r name = Raise DagsterInvariantViolationError).
Proof.
  intros Hwf. split; [apply solid_success_iff|]. split; [|split].
  - intros Hs Hne. unfold transformed_values. rewrite Hs.
    destruct (values_by_output_maps (transforms r)) as (m & Hm & Hspec).
    { by apply successful_transforms_have_data. }
    exists m. rewrite Hm. by destruct (transforms r).
  - unfold transformed_values. intros [-> | ->]; [done|]. by rewrite andb_false_r.
  - intros name. unfold transformed_value. repeat split.
    + by intros ->.
    + by intros -> ->.
    + intros -> Hs pre x post d Hts Hpre Hd Hn. rewrite Hs. simpl.
      pose proof (successful_transforms_have_data r Hwf Hs) as Hdata.
      rewrite Hts in Hdata |- *. apply Forall_app in Hdata as [Hdata _].
      rewrite (find_output_found name pre post x d); try done.
      apply Forall_and. by split.
    + intros -> Hs Hall. rewrite Hs. simpl.
      pose proof (successful_transforms_have_data r Hwf Hs) as Hdata.
      rewrite find_output_missing; [done|]. apply Forall_and. by split.
Qed.

End TransformedValues.

(** The solid [a] declares the outputs [result] and [other] and its only
    transform produced [result]: the value of [result] is returned. *)
Lemma solid_execution_result_spec_witness :
  transformed_value Examples.result_a "result" = Return (Some 42).
Proof.
  assert (Hwf : Forall (λ x : StepResult nat, success x = true → is_Some (success_data x))
                  (transforms Examples.result_a)).
  { repeat constructor. intros _. by eexists. }
  destruct (solid_execution_result_spec Examples.result_a Hwf) as (_ & _ & _ & H).
  destruct (H "result") as (_ & _ & Hfound & _).
  refine (Hfound _ _ [] (Examples.ok Examples.step_a TRANSFORM "result" 42) []
            {| output_name := "result"; value := 42 |} _ _ _ _);
    try reflexivity.
  constructor.
Defined.

(** C6 as stated fails: [other] is a declared output of [a] and [a] succeeded,
    yet no value is returned for it. *)
Lemma transformed_value_counterexample :
  ¬ (∀ (r : SolidExecutionResult nat) (name : string),
       has_output (definition (solid r)) name = true →
       solid_success r = true →
       ∃ v, transformed_value r name = Return (Some v)).
Proof.
  intros H. destruct (H Examples.result_a "other") as [v Hv]; [done | done |].
  vm_compute in Hv. discriminate.
Qed.

(** ** The persistence policy *)

(** C3: the key of the selected entry decides the policy: ["file"] gives the
    file policy and any other key fails with an invariant violation; a mapping
    with no entry or with more than one entry is rejected by the validation of
    the configuration. *)
Theorem persistence_policy_spec {Value : Type} (persistence_config : list (string * Value)) :
  (∀ key config rest,
     persistence_config = (key, config) :: rest → key = "file" →
     _create_persistence_policy persistence_config = Return FilePersistencePolicy) ∧
  (∀ key config rest,
     persistence_config = (key, config) :: rest → key ≠ "file" →
     ∃ e, _create_persistence_policy persistence_config = Raise e ∧
          invariant_violation e = true) ∧
  (length persistence_config ≠ 1 →
   ∃ e, validate_persistence persistence_config = Raise e) ∧
  (length persistence_config = 1 →
   validate_persistence persistence_config = Return persistence_config).
Proof.
  repeat split.
  - intros key config rest -> ->. done.
  - intros key config rest -> Hne. exists CheckError. simpl.
    by rewrite decide_False.
  - intros Hlen. exists PipelineConfigEvaluationError.
    by destruct persistence_config as [|? [|? ?]].
  - intros Hlen. by destruct persistence_config as [|? [|? ?]].
Qed.

(** The single entry ["file"] selects the file policy. *)
Lemma persistence_policy_spec_witness :
  _create_persistence_policy [("file", 0)] = Return FilePersistencePolicy.
Proof.
  refine (proj1 (persistence_policy_spec [("file", 0)]) "file" 0 [] _ _); reflexivity.
Defined.

(** ** Generator-shaped factories *)

(** C7, as amended: a generator that yields nothing fails with an invariant
    violation before the body of the scope runs; a factory that yields exactly
    one item, or returns a value, gives that value to the body; a generator
    that yields two or more items gives its first item to the body, and the
    invariant violation is raised when the body has returned, while an
    exception of the body leaves the scope as it is. *)
Theorem with_maybe_gen_spec {A B : Type} (body : A → M B) (t : list event) :
  (∃ e, with_maybe_gen (Generator []) body t = (t, Raise e) ∧
        invariant_violation e = true) ∧
  (∀ x, with_maybe_gen (Generator [x]) body t = body x t ∧
        with_maybe_gen (Thing x) body t = body x t) ∧
  (∀ x y rest,
     (∀ t' b, body x t = (t', Return b) →
        ∃ e, with_maybe_gen (Generator (x :: y :: rest)) body t = (t', Raise e) ∧
             invariant_violation e = true) ∧
     (∀ t' e, body x t = (t', Raise e) →
        with_maybe_gen (Generator (x :: y :: rest)) body t = (t', Raise e))).
Proof.
  split; [|split].
  - by exists CheckError.
  - intros x. unfold with_maybe_gen, mbind. simpl.
    by destruct (body x t) as [t' [b|e]].
  - intros x y rest. unfold with_maybe_gen, mbind. simpl. split.
    + intros t' b ->. by exists CheckError.
    + by intros t' e ->.
Qed.

(** A generator that yields two items: the step of the body has run when the
    invariant violation is raised. *)
Lemma with_maybe_gen_spec_witness :
  ∃ e, with_maybe_gen (Generator [1; 2]) (λ _, emit (step_event "transform")) [] =
         ([step_event "transform"], Raise e) ∧
       invariant_violation e = true.
Proof.
  refine (proj1 (proj2 (proj2 (with_maybe_gen_spec
            (λ _ : nat, emit (step_event "transform")) [])) 1 2 [])
            [step_event "transform"] tt _).
  reflexivity.
Defined.

(** C7 as stated fails: with two items the failure does not come before the
    steps of the body. *)
Lemma with_maybe_gen_counterexample :
  ¬ (∀ (body : nat → M unit) (x y : nat) (rest : list nat) (t : list event),
       ∃ e, with_maybe_gen (Generator (x :: y :: rest)) body t = (t, Raise e)).
Proof.
  intros H.
  destruct (H (λ _, emit (step_event "transform")) 1 2 [] []) as [e He].
  vm_compute in He. discriminate.
Qed.

(** ** Tags *)

Section Tags.
Context {Value : Type}.

Lemma truthy_dict_false {V} (d : gmap string V) : truthy_dict d = false → d = ∅.
Proof.
  unfold truthy_dict. intros H. apply negb_false_iff, bool_decide_eq_true in H.
  by apply dom_empty_inv_L.
Qed.

End Tags.

(** ** Runs of a pipeline *)

Section Runs.
Context {Value : Type} `{!Collaborators Value} `{!TopologicalOrder}.

(** C8: when the plan of the pipeline has no step, the run emits
    [pipeline_start], then [pipeline_success], with nothing but the debug
    message between them, and yields no solid result. *)
Theorem empty_plan_run (pipeline : PipelineDefinition)
    (context : RuntimeExecutionContext Value) (env : EnvironmentConfig Value)
    (md : ExecutionMetadata) (throw_on_user_error : bool)
    (plan : ExecutionPlan) (t : list event) :
  create_execution_plan_core
    {| epi_context := context; epi_pipeline := pipeline; epi_environment := env |}
    md None = Return plan →
  topological_steps plan = [] →
  _do_iterate_pipeline pipeline context env md throw_on_user_error t =
  (t ++ [pipeline_start; debug_no_nodes; pipeline_success], Return []).
Proof.
  intros Hplan Hsteps. unfold _do_iterate_pipeline, mbind, emit, lift, mret.
  rewrite Hplan, Hsteps. by rewrite <- !app_assoc.
Qed.

(** *** Scopes whose body fails *)

Lemma fails_raise {B} e e' : fails_at_open (B := B) e (lift (Raise e')).
Proof. intros t. left. by exists e'. Qed.

Lemma fails_bind {A B} e (m : M A) (k : A → M B) :
  fails_at_open e m → fails_at_open e (mbind m k).
Proof.
  intros Hm t. unfold mbind. destruct (Hm t) as [[e' ->] | ->]; [left; by exists e' | by right].
Qed.

Lemma fails_bind_lift {A B} e (r : result A) (k : A → M B) :
  (∀ a, fails_at_open e (k a)) → fails_at_open e (mbind (lift r) k).
Proof.
  intros Hk t. unfold mbind, lift. destruct r as [a|e']; [apply Hk | left; by exists e'].
Qed.

Lemma fails_with_maybe_gen {A B} e (g : ThingOrGen A) (body : A → M B) :
  (∀ a, fails_at_open e (body a)) → fails_at_open e (with_maybe_gen g body).
Proof.
  intros Hbody. unfold with_maybe_gen.
  apply fails_bind_lift. intros [[thing gen']|]; [|apply fails_raise].
  apply fails_bind, Hbody.
Qed.

Lemma fails_enter_resources {B} e context_def env run_id names acquired
    (body : list (string * Value) → M B) :
  (∀ a, fails_at_open e (body a)) →
  fails_at_open e (enter_resources context_def env run_id names acquired body).
Proof.
  intros Hbody. revert acquired. induction names as [|name names IH]; intros acquired; simpl.
  - apply Hbody.
  - apply fails_bind_lift. intros g. apply fails_with_maybe_gen. intros obj. apply IH.
Qed.

Lemma fails_create_resources {B} e pipeline_def context_def env execution_context run_id
    (body : option Value → M B) :
  (∀ a, fails_at_open e (body a)) →
  fails_at_open e
    (_create_resources pipeline_def context_def env execution_context run_id body).
Proof.
  intros Hbody. unfold _create_resources.
  destruct (negb (truthy (resources context_def))); [apply Hbody|].
  apply fails_bind_lift. intros _. apply fails_enter_resources. intros acquired.
  destruct (context_definitions pipeline_def !! _); [apply Hbody | apply fails_raise].
Qed.

Lemma fails_yield_context {B} e pipeline env md
    (body : RuntimeExecutionContext Value → M B) :
  (∀ context t, body context t = (t, Raise e)) →
  fails_at_open e (yield_context pipeline env md body).
Proof.
  intros Hbody. unfold yield_context.
  destruct (context_definitions pipeline !! _); [|apply fails_raise].
  apply fails_bind_lift. intros g. apply fails_with_maybe_gen. intros ec.
  apply fails_create_resources. intros res.
  apply fails_bind_lift. intros tags. apply fails_bind_lift. intros policy.
  intros t. right. unfold mbind, emit. by rewrite Hbody.
Qed.

End Runs.

(** ** The checks of an externalized plan *)

Lemma for_each_raises {A} (P : exn → Prop) (body : A → result unit) (l : list A) :
  (∀ x e, x ∈ l → body x = Raise e → P e) →
  (∃ x e, x ∈ l ∧ body x = Raise e) →
  ∃ e, for_each body l = Raise e ∧ P e.
Proof.
  induction l as [|a l IH]; intros Hkind (x & e & Hx & He).
  - by apply elem_of_nil in Hx.
  - simpl. destruct (body a) as [[]|ea] eqn:Ha; simpl.
    + apply IH.
      * intros y ey Hy. apply Hkind. by right.
      * apply elem_of_cons in Hx as [-> | Hx]; [congruence|]. by exists x, e.
    + exists ea. split; [done|]. apply (Hkind a); [by left | done].
Qed.

Lemma for_each_kind {A} (P : exn → Prop) (body : A → result unit) (l : list A) e :
  (∀ x e, x ∈ l → body x = Raise e → P e) →
  for_each body l = Raise e → P e.
Proof.
  induction l as [|a l IH]; intros Hkind; simpl; [done|].
  destruct (body a) as [[]|ea] eqn:Ha; simpl.
  - apply IH. intros y ey Hy. apply Hkind. by right.
  - intros [= <-]. apply (Hkind a); [by left | done].
Qed.

Lemma for_each_raises_any {A} (body : A → result unit) (l : list A) :
  (∃ x e, x ∈ l ∧ body x = Raise e) → ∃ e, for_each body l = Raise e.
Proof.
  intros H. destruct (for_each_raises (λ _, True) body l) as (e & He & _); [done|done|].
  by exists e.
Qed.

Lemma has_step_get_step (plan : ExecutionPlan) (step_key : string) :
  has_step plan step_key = true →
  ∃ step, get_step_by_key plan step_key = Return step ∧ key step = step_key.
Proof.
  unfold has_step, get_step_by_key. intros H. apply bool_decide_eq_true in H.
  apply list_elem_of_fmap in H as (s & -> & Hs).
  destruct (list_find_elem_of (λ s', key s' = key s) (topological_steps plan) s Hs eq_refl)
    as [[i s'] Hfind].
  rewrite Hfind. exists s'. split; [done|]. by apply list_find_Some in Hfind as (_ & ? & _).
Qed.

Lemma check_inputs_kind plan inputs e :
  _check_inputs_to_marshal plan inputs = Raise e → input_not_found e.
Proof.
  unfold _check_inputs_to_marshal. destruct (truthy inputs); [|done].
  apply for_each_kind. intros [step_key input_dict] e' _. simpl.
  destruct (has_step plan step_key) eqn:Hhas; simpl; [|by intros [= <-]].
  destruct (has_step_get_step _ _ Hhas) as (step & -> & _). simpl.
  apply for_each_kind. intros input_name e'' _.
  destruct (has_step_input step input_name); simpl; [done | by intros [= <-]].
Qed.

Lemma check_inputs_raises plan inputs :
  input_reference_missing plan inputs →
  ∃ e, _check_inputs_to_marshal plan inputs = Raise e ∧ input_not_found e.
Proof.
  intros (step_key & input_dict & Hin & Hmiss).
  assert (∃ e, _check_inputs_to_marshal plan inputs = Raise e) as [e He];
    [|exists e; split; [done | by eapply check_inputs_kind]].
  unfold _check_inputs_to_marshal.
  destruct (truthy inputs) eqn:Htruthy;
    [|destruct inputs; [by apply elem_of_nil in Hin | done]].
  apply for_each_raises_any. exists (step_key, input_dict). simpl.
  destruct (has_step plan step_key) eqn:Hhas; simpl; [|by eexists].
  destruct Hmiss as [? | (step & input_name & Hget & Hname & Hno)]; [congruence|].
  rewrite Hget. simpl.
  destruct (for_each_raises_any
    (λ input_name : string,
       if negb (has_step_input step input_name)
       then Raise (DagsterUnmarshalInputNotFoundError input_name (key step))
       else Return tt) input_dict.*1) as [e He].
  { exists input_name. rewrite Hno. simpl. by eexists. }
  exists e. by split.
Qed.

Lemma assoc_elem_of {A} (k : string) (d : list (string * A)) :
  k ∈ d.*1 → is_Some (assoc k d).
Proof.
  induction d as [|[k' v] d IH]; simpl; intros Hk; [by apply elem_of_nil in Hk|].
  destruct (decide (k = k')); [by eexists|].
  apply IH. by apply elem_of_cons in Hk as [?|?].
Qed.

Lemma keys_have_output output :
  keys_are_output_and_path output = true → is_Some (assoc "output" output).
Proof.
  unfold keys_are_output_and_path. intros H. apply bool_decide_eq_true in H.
  apply assoc_elem_of. apply (elem_of_list_to_set (C := gset string)).
  rewrite H. apply elem_of_union. left. by apply elem_of_singleton.
Qed.

Lemma check_outputs_raises plan outputs :
  outputs_well_formed outputs →
  output_reference_missing plan outputs →
  ∃ e, _check_outputs_to_marshal plan outputs = Raise e ∧ output_not_found e.
Proof.
  intros Hwf (step_key & outs & Hin & Hmiss). unfold _check_outputs_to_marshal.
  destruct (truthy outputs) eqn:Htruthy; [|destruct outputs; [by apply elem_of_nil in Hin | done]].
  apply for_each_raises.
  - intros [k os] e Hk. simpl.
    destruct (has_step plan k) eqn:Hhas; simpl; [|by intros [= <-]].
    destruct (has_step_get_step _ _ Hhas) as (step & -> & _). simpl.
    apply for_each_kind. intros output e' Ho.
    rewrite (Hwf k os output Hk Ho). simpl.
    destruct (keys_have_output output (Hwf k os output Hk Ho)) as [name Hname].
    unfold getitem. rewrite Hname. simpl.
    destruct (has_step_output step name); simpl; [done | by intros [= <-]].
  - exists (step_key, outs). simpl.
    destruct (has_step plan step_key) eqn:Hhas; simpl; [|by eexists].
    destruct Hmiss as [? | (step & output & name & Hget & Hout & Hname & Hno)]; [congruence|].
    rewrite Hget. simpl.
    destruct (for_each_raises_any
      (λ output : list (string * string),
         check_param_invariant (keys_are_output_and_path output) ;?
         let? output_name := getitem "output" output in
         if negb (has_step_output step output_name)
         then Raise (DagsterMarshalOutputNotFoundError output_name step_key)
         else Return tt) outs) as [e He].
    { exists output. rewrite (Hwf step_key outs output Hin Hout). simpl.
      unfold getitem. rewrite Hname. simpl. rewrite Hno. simpl. by eexists. }
    exists e. by split.
Qed.

Lemma validation_raises plan inputs outputs :
  input_reference_missing plan inputs ∨
  (outputs_well_formed outputs ∧ output_reference_missing plan outputs) →
  ∃ e, (_check_inputs_to_marshal plan inputs ;? _check_outputs_to_marshal plan outputs)
         = Raise e ∧
       not_found_error e ∧ (input_reference_missing plan inputs → input_not_found e).
Proof.
  intros Hmiss.
  destruct (_check_inputs_to_marshal plan inputs) as [[]|e] eqn:Hin; simpl.
  - destruct Hmiss as [Hi | [Hwf Ho]].
    + destruct (check_inputs_raises _ _ Hi) as (e & He & _). congruence.
    + destruct (check_outputs_raises _ _ Hwf Ho) as (e & He & Hkind).
      exists e. split; [done|]. split; [by destruct e|].
      intros Hi. destruct (check_inputs_raises _ _ Hi) as (e' & He' & _). congruence.
  - apply check_inputs_kind in Hin. exists e. split; [done|]. split; [by destruct e | done].
Qed.

Lemma for_each_first_raise {A} (body : A → result unit) (l : list A) (e : exn) :
  for_each body l = Raise e →
  ∃ pre x post, l = pre ++ x :: post ∧ Forall (λ y, body y = Return tt) pre ∧
                body x = Raise e.
Proof.
  induction l as [|a l IH]; simpl; [done|].
  destruct (body a) as [[]|ea] eqn:Ha; simpl.
  - intros (pre & x & post & -> & Hpre & Hx)%IH.
    exists (a :: pre), x, post. split; [done|]. split; [by constructor | done].
  - intros [= <-]. exists [], a, l. by split.
Qed.

Lemma for_each_returns {A} (body : A → result unit) (l : list A) :
  for_each body l = Return tt → Forall (λ y, body y = Return tt) l.
Proof.
  induction l as [|a l IH]; simpl; [by constructor|].
  destruct (body a) as [[]|ea] eqn:Ha; simpl; [|done].
  intros H. constructor; [done | by apply IH].
Qed.

Lemma get_step_key (plan : ExecutionPlan) (step_key : string) (step : ExecutionStep) :
  get_step_by_key plan step_key = Return step → key step = step_key.
Proof.
  unfold get_step_by_key. destruct (list_find _ _) as [[n s]|] eqn:Hfind; [|done].
  intros [= <-]. by apply list_find_Some in Hfind as (_ & ? & _).
Qed.

Lemma check_inputs_first_error plan inputs e :
  _check_inputs_to_marshal plan inputs = Raise e → first_input_error plan inputs e.
Proof.
  unfold _check_inputs_to_marshal. destruct (truthy inputs); [|done].
  intros (pre & [step_key input_dict] & post & -> & Hpre & Hx)%for_each_first_raise.
  exists pre, step_key, input_dict, post. split; [done|]. split.
  - eapply Forall_impl; [exact Hpre|]. intros [k d]. simpl.
    destruct (has_step plan k) eqn:Hhas; simpl; [|done].
    destruct (has_step_get_step _ _ Hhas) as (step & Hstep & _). rewrite Hstep. simpl.
    intros Hd%for_each_returns. exists step. split; [done|].
    eapply Forall_impl; [exact Hd|]. intros i. simpl.
    by destruct (has_step_input step i).
  - simpl in Hx. destruct (has_step plan step_key) eqn:Hhas; simpl in Hx.
    + right. destruct (has_step_get_step _ _ Hhas) as (step & Hstep & Hkey).
      rewrite Hstep in Hx. simpl in Hx.
      apply for_each_first_raise in Hx as (before & i & behind & Hd & Hbefore & Hi).
      exists step, before, i, behind. split; [done|]. split; [done|]. split.
      * eapply Forall_impl; [exact Hbefore|]. intros j. simpl.
        by destruct (has_step_input step j).
      * destruct (has_step_input step i); simpl in Hi; [done|].
        split; [done|]. injection Hi as <-. by rewrite Hkey.
    + left. split; [done|]. by injection Hx as <-.
Qed.

Lemma check_outputs_first_error plan outputs e :
  outputs_well_formed outputs →
  _check_outputs_to_marshal plan outputs = Raise e → first_output_error plan outputs e.
Proof.
  intros Hwf. unfold _check_outputs_to_marshal. destruct (truthy outputs); [|done].
  intros (pre & [step_key outs] & post & Heq & Hpre & Hx)%for_each_first_raise.
  exists pre, step_key, outs, post. split; [done|]. split.
  - apply Forall_forall. intros [k d] Hk.
    assert (Hin : (k, d) ∈ outputs).
    { rewrite Heq. apply elem_of_app. by left. }
    rewrite Forall_forall in Hpre. specialize (Hpre _ Hk). simpl in Hpre.
    destruct (has_step plan k) eqn:Hhas; simpl in Hpre; [|done].
    destruct (has_step_get_step _ _ Hhas) as (step & Hstep & _).
    rewrite Hstep in Hpre. simpl in Hpre. apply for_each_returns in Hpre.
    exists step. split; [done|]. apply Forall_forall. intros output Ho.
    rewrite Forall_forall in Hpre. specialize (Hpre _ Ho). simpl in Hpre.
    rewrite (Hwf k d output Hin Ho) in Hpre. simpl in Hpre.
    destruct (keys_have_output output (Hwf k d output Hin Ho)) as [name Hname].
    unfold getitem in Hpre. rewrite Hname in Hpre. simpl in Hpre.
    exists name. split; [done|]. by destruct (has_step_output step name).
  - assert (Hin : (step_key, outs) ∈ outputs).
    { rewrite Heq. apply elem_of_app. right. by left. }
    simpl in Hx. destruct (has_step plan step_key) eqn:Hhas; simpl in Hx.
    + right. destruct (has_step_get_step _ _ Hhas) as (step & Hstep & Hkey).
      rewrite Hstep in Hx. simpl in Hx.
      apply for_each_first_raise in Hx as (before & output & behind & Hd & Hbefore & Ho).
      assert (Hwf' : ∀ o, o ∈ outs → keys_are_output_and_path o = true).
      { intros o Hoin. by apply (Hwf step_key outs). }
      assert (Hoin : output ∈ outs).
      { rewrite Hd. apply elem_of_app. right. by left. }
      rewrite (Hwf' _ Hoin) in Ho. simpl in Ho.
      destruct (keys_have_output output (Hwf' _ Hoin)) as [name Hname].
      unfold getitem in Ho. rewrite Hname in Ho. simpl in Ho.
      exists step, before, output, name, behind. split; [done|]. split; [done|]. split.
      * apply Forall_forall. intros o Hob.
        assert (Hoin' : o ∈ outs). { rewrite Hd. apply elem_of_app. by left. }
        rewrite Forall_forall in Hbefore. specialize (Hbefore _ Hob). simpl in Hbefore.
        rewrite (Hwf' _ Hoin') in Hbefore. simpl in Hbefore.
        destruct (keys_have_output o (Hwf' _ Hoin')) as [n Hn].
        unfold getitem in Hbefore. rewrite Hn in Hbefore. simpl in Hbefore.
        exists n. split; [done|]. by destruct (has_step_output step n).
      * split; [done|]. destruct (has_step_output step name); simpl in Ho; [done|].
        split; [done|]. by injection Ho as <-.
    + left. split; [done|]. by injection Hx as <-.
Qed.

Lemma first_input_error_missing plan inputs e :
  first_input_error plan inputs e → input_reference_missing plan inputs.
Proof.
  intros (pre & k & d & post & -> & _ & H). exists k, d. split.
  - apply elem_of_app. right. by left.
  - destruct H as [[Hhas _] | (step & before & i & behind & Hstep & Hd & _ & Hi & _)].
    + by left.
    + right. exists step, i. split; [done|]. split; [|done].
      rewrite Hd. apply elem_of_app. right. by left.
Qed.

Lemma validation_first_error plan inputs outputs e :
  input_reference_missing plan inputs ∨
  (outputs_well_formed outputs ∧ output_reference_missing plan outputs) →
  (_check_inputs_to_marshal plan inputs ;? _check_outputs_to_marshal plan outputs) = Raise e →
  (input_reference_missing plan inputs → first_input_error plan inputs e) ∧
  (¬ input_reference_missing plan inputs → first_output_error plan outputs e).
Proof.
  intros Hmiss. destruct (_check_inputs_to_marshal plan inputs) as [[]|e'] eqn:Hin; simpl.
  - intros Hout.
    assert (Hno : ¬ input_reference_missing plan inputs).
    { intros Hi. destruct (check_inputs_raises _ _ Hi) as (e' & He' & _). congruence. }
    split; [done|]. intros _. destruct Hmiss as [Hi | [Hwf _]]; [done|].
    by apply check_outputs_first_error.
  - intros [= ->]. apply check_inputs_first_error in Hin. split; [done|].
    intros Hno. destruct Hno. by eapply first_input_error_missing.
Qed.

Section ExternalizedRuns.
Context {Value : Type} `{!Collaborators Value} `{!TopologicalOrder}.

(** C2, as amended: when [inputs_to_marshal] names a step or an input that the
    plan does not have, or [outputs_to_marshal], with well-formed entries, names
    a step or an output that it does not have, the run fails and never invokes
    the step engine.  When the typed environment is built and the context
    opens, the checks run inside the open context, before anything else, and
    the error is the one of the first missing reference, with its step key and
    its input or output name: of [inputs_to_marshal] when it has a missing
    reference, of [outputs_to_marshal] otherwise. *)
Theorem externalized_plan_validation (pipeline : PipelineDefinition)
    (plan : ExecutionPlan) (step_keys : list string)
    (inputs_to_marshal : list (string * list (string * string)))
    (outputs_to_marshal : list (string * list (list (string * string))))
    (environment : option Value) (md : option ExecutionMetadata)
    (throw_on_user_error : bool) (t : list event) :
  input_reference_missing plan inputs_to_marshal ∨
  (outputs_well_formed outputs_to_marshal ∧
   output_reference_missing plan outputs_to_marshal) →
  ∃ t' e,
    execute_externalized_plan pipeline plan step_keys inputs_to_marshal
      outputs_to_marshal environment md throw_on_user_error t = (t ++ t', Raise e) ∧
    (step_engine_invoked ∉ t') ∧
    (context_opened ∈ t' →
     t' = [context_opened] ∧ not_found_error e ∧
     (input_reference_missing plan inputs_to_marshal →
      first_input_error plan inputs_to_marshal e) ∧
     (¬ input_reference_missing plan inputs_to_marshal →
      first_output_error plan outputs_to_marshal e)).
Proof.
  intros Hmiss. destruct (validation_raises _ _ _ Hmiss) as (e & He & Hkind & _).
  destruct (validation_first_error _ _ _ e Hmiss He) as [Hinput Houtput].
  assert (Hnil : ∀ e', ∃ t' e0, (t, Raise e') = (t ++ t', @Raise (list (StepResult Value)) e0) ∧
            (step_engine_invoked ∉ t') ∧
            (context_opened ∈ t' →
             t' = [context_opened] ∧ not_found_error e0 ∧
             (input_reference_missing plan inputs_to_marshal →
              first_input_error plan inputs_to_marshal e0) ∧
             (¬ input_reference_missing plan inputs_to_marshal →
              first_output_error plan outputs_to_marshal e0))).
  { intros e'. exists [], e'. rewrite app_nil_r. split; [done|].
    split; [apply not_elem_of_nil|]. intros Hin. by apply elem_of_nil in Hin. }
  unfold execute_externalized_plan. unfold mbind at 1, lift at 1.
  destruct (create_typed_environment pipeline environment) as [env|e0]; [|apply Hnil].
  unfold mbind at 1, lift at 1.
  destruct (check_inst_param md) as [metadata|e0]; [|apply Hnil].
  match goal with
  | |- context [yield_context pipeline env metadata ?body] =>
      destruct (fails_yield_context e pipeline env metadata body) with (t := t)
        as [[e' Hrun] | Hrun]
  end.
  - intros context t0. unfold mbind, lift. simpl in He.
    destruct (_check_inputs_to_marshal plan inputs_to_marshal) as [[]|e1]; simpl in He.
    + by rewrite He.
    + by injection He as ->.
  - rewrite Hrun. apply Hnil.
  - rewrite Hrun. exists [context_opened], e. split; [done|]. split; [|done].
    intros Hin. apply list_elem_of_singleton in Hin. discriminate.
Qed.

End ExternalizedRuns.

(** The plan of the example has no step ["missing"]: the run opens the context
    and fails there with [DagsterExecutionStepNotFoundError]. *)
Lemma externalized_plan_validation_witness :
  ∃ t' e,
    @execute_externalized_plan nat (Examples.collaborators Examples.plan_ab [])
      Examples.pipeline_ab Examples.plan_ab ["b.transform"] Examples.request_missing_step []
      None (Some Examples.metadata) true [] = ([] ++ t', Raise e) ∧
    (step_engine_invoked ∉ t') ∧
    (context_opened ∈ t' →
     t' = [context_opened] ∧ not_found_error e ∧
     (input_reference_missing Examples.plan_ab Examples.request_missing_step →
      first_input_error Examples.plan_ab Examples.request_missing_step e) ∧
     (¬ input_reference_missing Examples.plan_ab Examples.request_missing_step →
      first_output_error Examples.plan_ab [] e)).
Proof.
  apply (@externalized_plan_validation nat (Examples.collaborators Examples.plan_ab [])).
  left. exists "missing", [("in", "/tmp/a.bin")]. split.
  - apply list_elem_of_singleton. reflexivity.
  - left. reflexivity.
Defined.

(** C2 as stated fails: the error that reports the missing step is raised when
    the context is already open. *)
Lemma externalized_plan_counterexample :
  ¬ (∀ (c : Collaborators nat) pipeline plan step_keys inputs outputs environment md
       throw_on_user_error,
       input_reference_missing plan inputs →
       ∃ t' e,
         @execute_externalized_plan nat c pipeline plan step_keys inputs outputs
           environment md throw_on_user_error [] = (t', Raise e) ∧
         context_opened ∉ t').
Proof.
  intros H.
  destruct (H (Examples.collaborators Examples.plan_ab [])
              Examples.pipeline_ab Examples.plan_ab ["b.transform"] Examples.request_missing_step []
              None (Some Examples.metadata) true) as (t' & e & Hrun & Hclosed).
  { exists "missing", [("in", "/tmp/a.bin")]. split.
    - apply list_elem_of_singleton. reflexivity.
    - left. reflexivity. }
  vm_compute in Hrun. injection Hrun as <- <-.
  apply Hclosed. apply list_elem_of_singleton. reflexivity.
Qed.

(** The run of a pipeline whose plan is empty. *)
Lemma empty_plan_run_witness :
  @_do_iterate_pipeline nat (Examples.collaborators {| topological_steps := [] |} [])
    Examples.topological_order Examples.pipeline_ab Examples.runtime_context
    Examples.environment_ab Examples.metadata true [] =
  ([pipeline_start; debug_no_nodes; pipeline_success], Return []).
Proof.
  apply (@empty_plan_run nat (Examples.collaborators {| topological_steps := [] |} [])
           Examples.topological_order Examples.pipeline_ab Examples.runtime_context
           Examples.environment_ab Examples.metadata true {| topological_steps := [] |} []);
    reflexivity.
Defined.

(** ** Aggregation of step results *)

Lemma group_lookup `{Countable K} {A} (f : A → K) (l : list A)
    (d : gmap K (list A)) (k : K) :
  foldl (λ d r, append_at (f r) r d) d l !! k =
  match filter (λ r, f r = k) l with
  | [] => d !! k
  | rs => Some (default [] (d !! k) ++ rs)
  end.
Proof.
  revert d. induction l as [|a l IH]; intros d; simpl; [done|].
  rewrite IH. unfold append_at. destruct (decide (f a = k)) as [Heq|Hne].
  - rewrite filter_cons_True by done. rewrite Heq, lookup_insert_eq. simpl.
    destruct (filter (λ r, f r = k) l); [done|]. by rewrite <- app_assoc.
  - rewrite filter_cons_False by done. by rewrite lookup_insert_ne.
Qed.

Lemma group_lookup_empty `{Countable K} {A} (f : A → K) (l : list A) (k : K) :
  default [] (foldl (λ d r, append_at (f r) r d) ∅ l !! k) = filter (λ r, f r = k) l.
Proof.
  rewrite group_lookup, lookup_empty. by destruct (filter (λ r, f r = k) l).
Qed.

Lemma filter_ext_elem {A} (P Q : A → Prop) `{∀ x, Decision (P x)} `{∀ x, Decision (Q x)}
    (l : list A) :
  (∀ x, x ∈ l → P x ↔ Q x) → filter P l = filter Q l.
Proof.
  induction l as [|a l IH]; intros Hext; [done|].
  assert (filter P l = filter Q l) as Hl.
  { apply IH. intros x Hx. apply Hext. by right. }
  destruct (decide (P a)) as [HP|HP].
  - rewrite !filter_cons_True; [by rewrite Hl | | done]. apply Hext; [by left | done].
  - rewrite !filter_cons_False; [done | | done]. intros HQ. apply HP, Hext; [by left | done].
Qed.

Lemma unique_by_name (topo : list Solid) (s s' : Solid) :
  NoDup (solid_name <$> topo) → s ∈ topo → s' ∈ topo →
  solid_name s = solid_name s' → s = s'.
Proof.
  induction topo as [|a topo IH]; simpl; intros Hnd Hs Hs' Hname.
  - by apply elem_of_nil in Hs.
  - apply NoDup_cons in Hnd as [Ha Hnd].
    apply elem_of_cons in Hs as [-> | Hs]; apply elem_of_cons in Hs' as [-> | Hs'].
    + done.
    + destruct Ha. rewrite Hname. apply list_elem_of_fmap. by exists s'.
    + destruct Ha. rewrite <- Hname. apply list_elem_of_fmap. by exists s.
    + by apply IH.
Qed.

Section AggregationSpec.
Context {Value : Type}.
Implicit Types (r : StepResult Value) (stream : list (StepResult Value)).

Lemma same_solid_loop_ok (rs : list (StepResult Value)) (s : Solid) :
  Forall (λ r, solid_of r = s) rs →
  for_each (λ r, check_invariant (is_same (step_solid (step r)) s)) rs = Return tt.
Proof.
  induction 1 as [|r rs Hr _ IH]; simpl; [done|].
  unfold is_same. unfold solid_of in Hr. rewrite Hr.
  rewrite bool_decide_eq_true_2 by done. simpl. apply IH.
Qed.

Lemma same_solid_check_ok (rs : list (StepResult Value)) (s : Solid) :
  Forall (λ r, solid_of r = s) rs → same_solid_check rs = Return tt.
Proof.
  intros Hall. unfold same_solid_check. destruct rs as [|r0 rs0] eqn:Hrs; [done|].
  rewrite <- Hrs. assert (solid_of r0 = s) as H0 by (by apply Forall_inv in Hall).
  unfold solid_of in H0. rewrite H0. apply same_solid_loop_ok. by rewrite Hrs.
Qed.

Lemma from_results_ok (rs : list (StepResult Value)) (s : Solid) :
  rs ≠ [] → Forall (λ r, solid_of r = s) rs →
  from_results rs = Return {| solid := s; step_results_by_kind := group_by_kind rs |}.
Proof.
  intros Hne Hall. unfold from_results. destruct rs as [|r0 rs0] eqn:Hrs; [done|].
  rewrite <- Hrs in *. rewrite (same_solid_check_ok rs s Hall). simpl.
  rewrite Hrs in Hall. apply Forall_inv in Hall. unfold solid_of in Hall. by rewrite Hall.
Qed.

Lemma emit_in_order_spec (topo : list Solid) stream :
  (∀ s r, s ∈ topo → r ∈ stream →
     solid_name (solid_of r) = solid_name s → solid_of r = s) →
  ∃ out, emit_in_order topo (group_by_solid_name stream) = Return out ∧
         aggregates topo stream out.
Proof.
  induction topo as [|s topo IH]; intros Hname.
  - exists []. split; [done|]. by split.
  - destruct IH as (out & Hout & Hsolids & Hkinds).
    { intros s' r Hs'. apply Hname. by right. }
    assert (Hfilter : filter (λ r, solid_name (step_solid (step r)) = solid_name s) stream =
                      filter (λ r, solid_of r = s) stream).
    { apply filter_ext_elem. intros r Hr. split; [|by intros <-].
      apply Hname; [by left | done]. }
    simpl. unfold group_by_solid_name at 1.
    rewrite (group_lookup (λ r, solid_name (step_solid (step r)))), lookup_empty.
    fold (group_by_solid_name stream). simpl. rewrite Hfilter.
    destruct (filter (λ r, solid_of r = s) stream) as [|r0 rs] eqn:Hrs.
    + exists out. split; [done|]. split; [|done].
      rewrite filter_cons_False; [done|]. intros Hin.
      apply list_elem_of_fmap in Hin as (r & Hr & Hin).
      eapply (filter_nil_not_elem_of _ _ r Hrs); [by symmetry | done].
    + rewrite (from_results_ok (r0 :: rs) s); [|done|].
      2:{ rewrite <- Hrs. apply Forall_forall. intros r Hr.
          by apply list_elem_of_filter in Hr as [? _]. }
      simpl. rewrite Hout. simpl. eexists. split; [done|]. split.
      * rewrite fmap_cons, Hsolids. cbn [solid]. rewrite filter_cons_True; [done|].
        apply list_elem_of_fmap. exists r0. 
        assert (r0 ∈ filter (λ r, solid_of r = s) stream) as Hr0 by (rewrite Hrs; by left).
        apply list_elem_of_filter in Hr0 as [Hs0 Hin0]. by split.
      * constructor; [|done]. intros k. unfold results_of_kind, group_by_kind.
        cbn [step_results_by_kind solid].
        rewrite (group_lookup_empty kind). rewrite <- Hrs.
        rewrite list_filter_filter. apply filter_ext_elem. intros r _. tauto.
Qed.

(** C4: for a pipeline whose solids have distinct names and a stream of step
    results whose solids are solids of that pipeline, the aggregation returns, and every step result is attributed to exactly one
    of the results it yields: the results are those of the solids that have step
    results, each solid once and in the topological order of the pipeline
    whatever the order of the stream, and the result of a solid holds, under
    each kind, exactly the step results of that solid and kind, none lost and
    none repeated. *)
Theorem process_step_results_spec `{!TopologicalOrder} (p : PipelineDefinition) stream :
  NoDup (solid_name <$> solids_in_topological_order p) →
  Forall (λ r, solid_of r ∈ solids_in_topological_order p) stream →
  ∃ out,
    _process_step_results p stream = Return out ∧
    solid <$> out =
      filter (λ s, s ∈ solid_of <$> stream) (solids_in_topological_order p) ∧
    NoDup (solid <$> out) ∧
    (∀ ser k, ser ∈ out →
       results_of_kind ser k =
       filter (λ r, solid_of r = solid ser ∧ kind r = k) stream) ∧
    (∀ r, r ∈ stream →
       ∃ ser, ser ∈ out ∧ solid ser = solid_of r ∧ r ∈ results_of_kind ser (kind r)).
Proof.
  intros Hnd Hin. rewrite Forall_forall in Hin.
  destruct (emit_in_order_spec (solids_in_topological_order p) stream)
    as (out & Hout & Hsolids & Hkinds).
  { intros s r Hs Hr Hname. apply (unique_by_name (solids_in_topological_order p)); auto. }
  rewrite Forall_forall in Hkinds.
  exists out. split; [done|]. split; [done|]. split; [|split].
  - rewrite Hsolids. apply NoDup_filter. by apply NoDup_fmap_1 in Hnd.
  - intros ser k Hser. by apply Hkinds.
  - intros r Hr.
    assert (solid_of r ∈ solid <$> out) as Hs.
    { rewrite Hsolids. apply list_elem_of_filter. split; [|by apply Hin].
      apply list_elem_of_fmap. by exists r. }
    apply list_elem_of_fmap in Hs as (ser & Hsolid & Hser).
    exists ser. split; [done|]. split; [done|].
    rewrite (Hkinds ser Hser). apply list_elem_of_filter. split; [by split | done].
Qed.

End AggregationSpec.

Lemma process_step_results_spec_witness :
  ∃ out,
    @_process_step_results nat Examples.topological_order Examples.pipeline_ab Examples.stream_ba
      = Return out ∧
    solid <$> out = [Examples.solid_a; Examples.solid_b].
Proof.
  destruct (@process_step_results_spec nat Examples.topological_order
              Examples.pipeline_ab Examples.stream_ba) as (out & Hout & Hsolids & _).
  - apply (bool_decide_unpack _). vm_compute. exact I.
  - apply (bool_decide_unpack _). vm_compute. exact I.
  - exists out. split; [exact Hout|]. rewrite Hsolids. vm_compute. reflexivity.
Defined.

(** ** Subset pipelines *)

Lemma lookup_dep_set_dep_same deps k i v :
  is_Some (deps !! k) → lookup_dep (set_dep k i v deps) k i = Some v.
Proof.
  intros [d Hd]. unfold lookup_dep, set_dep. rewrite lookup_alter_eq, Hd. simpl.
  apply lookup_insert_eq.
Qed.

Lemma lookup_dep_set_dep_other deps k i v k' i' :
  (k', i') ≠ (k, i) → lookup_dep (set_dep k i v deps) k' i' = lookup_dep deps k' i'.
Proof.
  intros Hne. unfold lookup_dep, set_dep. destruct (decide (k = k')) as [<-|Hk].
  - rewrite lookup_alter_eq. destruct (deps !! k); simpl; [|done].
    apply lookup_insert_ne. congruence.
  - by rewrite lookup_alter_ne.
Qed.

Lemma set_dep_keys deps k i v k' :
  is_Some (set_dep k i v deps !! k') ↔ is_Some (deps !! k').
Proof.
  unfold set_dep. destruct (decide (k = k')) as [<-|Hk].
  - rewrite lookup_alter_eq. by rewrite fmap_is_Some.
  - by rewrite lookup_alter_ne.
Qed.

Section SubPipeline.
Variables (pipeline_def : PipelineDefinition) (solid_name_set : gset string).

#[local] Abbreviation deps_dict := (gmap (string * string) (gmap string DependencyDefinition)).

Lemma add_input_dep_edge solid deps i :
  add_input_dep pipeline_def solid_name_set solid deps i =
  match edge pipeline_def solid_name_set (solid_name solid) i with
  | Some d => set_dep (_dep_key_of solid) i d deps
  | None => deps
  end.
Proof.
  unfold add_input_dep, _out_handle_of_inp, has_dep, get_dep, edge, handle_key. simpl.
  destruct (dependency_structure pipeline_def !! (solid_name solid, i)) as [oh|]; simpl.
  - by destruct (bool_decide (solid_name (oh_solid oh) ∈ solid_name_set)).
  - done.
Qed.

Lemma add_input_dep_keys solid deps i k :
  is_Some (add_input_dep pipeline_def solid_name_set solid deps i !! k) ↔ is_Some (deps !! k).
Proof.
  rewrite add_input_dep_edge. destruct (edge pipeline_def solid_name_set (solid_name solid) i); [|done].
  apply set_dep_keys.
Qed.

Lemma add_input_dep_agrees solid deps i k j :
  agrees pipeline_def solid_name_set deps k j → agrees pipeline_def solid_name_set (add_input_dep pipeline_def solid_name_set solid deps i) k j.
Proof.
  unfold agrees. intros Hag. rewrite add_input_dep_edge.
  destruct (edge pipeline_def solid_name_set (solid_name solid) i) as [d|] eqn:Hedge; [|done].
  destruct (decide ((k, j) = (_dep_key_of solid, i))) as [[= -> ->]|Hne].
  - destruct (deps !! _dep_key_of solid) as [m|] eqn:Hm.
    + rewrite lookup_dep_set_dep_same by (by eexists). by rewrite <- Hedge.
    + unfold lookup_dep, set_dep in *. rewrite lookup_alter_eq, Hm. simpl.
      by rewrite Hm in Hag.
  - by rewrite lookup_dep_set_dep_other.
Qed.

Lemma add_input_dep_sound solid deps i :
  sound pipeline_def solid_name_set deps → sound pipeline_def solid_name_set (add_input_dep pipeline_def solid_name_set solid deps i).
Proof.
  intros Hsound k j. destruct (Hsound k j) as [Hnone|Hag].
  - rewrite add_input_dep_edge.
    destruct (edge pipeline_def solid_name_set (solid_name solid) i) as [d|] eqn:Hedge; [|by left].
    destruct (decide ((k, j) = (_dep_key_of solid, i))) as [[= -> ->]|Hne].
    + destruct (deps !! _dep_key_of solid) as [m|] eqn:Hm.
      * right. unfold agrees. rewrite lookup_dep_set_dep_same by (by eexists).
        by rewrite <- Hedge.
      * left. unfold lookup_dep, set_dep. by rewrite lookup_alter_eq, Hm.
    + left. by rewrite lookup_dep_set_dep_other.
  - right. by apply add_input_dep_agrees.
Qed.

Lemma add_input_dep_new solid deps i :
  is_Some (deps !! _dep_key_of solid) → sound pipeline_def solid_name_set deps →
  agrees pipeline_def solid_name_set (add_input_dep pipeline_def solid_name_set solid deps i) (_dep_key_of solid) i.
Proof.
  intros Hkey Hsound. destruct (Hsound (_dep_key_of solid) i) as [Hnone|Hag];
    [|by apply add_input_dep_agrees].
  unfold agrees. rewrite add_input_dep_edge. simpl.
  destruct (edge pipeline_def solid_name_set (solid_name solid) i) as [d|] eqn:Hedge.
  - by rewrite lookup_dep_set_dep_same.
  - done.
Qed.

Lemma add_solid_deps_fold deps solid :
  add_solid_deps pipeline_def solid_name_set deps solid =
  foldl (add_input_dep pipeline_def solid_name_set solid) deps (input_defs (definition solid)).
Proof. unfold add_solid_deps, input_handles. by rewrite foldl_fmap. Qed.

Lemma fold_inputs_spec solid (ins : list string) deps :
  sound pipeline_def solid_name_set deps →
  let deps' := foldl (add_input_dep pipeline_def solid_name_set solid) deps ins in
  sound pipeline_def solid_name_set deps' ∧
  (∀ k, is_Some (deps' !! k) ↔ is_Some (deps !! k)) ∧
  (∀ k j, agrees pipeline_def solid_name_set deps k j → agrees pipeline_def solid_name_set deps' k j) ∧
  (is_Some (deps !! _dep_key_of solid) →
   ∀ i, i ∈ ins → agrees pipeline_def solid_name_set deps' (_dep_key_of solid) i).
Proof.
  revert deps. induction ins as [|a ins IH]; intros deps Hsound; simpl.
  - repeat split; try done. intros _ i Hi. by apply elem_of_nil in Hi.
  - destruct (IH (add_input_dep pipeline_def solid_name_set solid deps a)) as (Hs & Hk & Ha & Hn).
    { by apply add_input_dep_sound. }
    split; [done|]. split; [|split].
    + intros k. by rewrite Hk, add_input_dep_keys.
    + intros k j Hag. by apply Ha, add_input_dep_agrees.
    + intros Hkey i Hi. apply elem_of_cons in Hi as [-> | Hi].
      * by apply Ha, add_input_dep_new.
      * apply Hn; [|done]. by apply add_input_dep_keys.
Qed.

Lemma fold_solids_spec (solids : list Solid) deps :
  sound pipeline_def solid_name_set deps →
  let deps' := foldl (add_solid_deps pipeline_def solid_name_set) deps solids in
  sound pipeline_def solid_name_set deps' ∧
  (∀ k, is_Some (deps' !! k) ↔ is_Some (deps !! k)) ∧
  (∀ k j, agrees pipeline_def solid_name_set deps k j → agrees pipeline_def solid_name_set deps' k j) ∧
  (∀ solid i, solid ∈ solids → is_Some (deps !! _dep_key_of solid) →
     i ∈ input_defs (definition solid) → agrees pipeline_def solid_name_set deps' (_dep_key_of solid) i).
Proof.
  revert deps. induction solids as [|s solids IH]; intros deps Hsound; simpl.
  - repeat split; try done. intros solid i Hin. by apply elem_of_nil in Hin.
  - rewrite add_solid_deps_fold.
    destruct (fold_inputs_spec s (input_defs (definition s)) deps Hsound)
      as (Hs1 & Hk1 & Ha1 & Hn1).
    destruct (IH _ Hs1) as (Hs & Hk & Ha & Hn).
    split; [done|]. split; [|split].
    + intros k. by rewrite Hk, Hk1.
    + intros k j Hag. by apply Ha, Ha1.
    + intros solid i Hin Hkey Hi. apply elem_of_cons in Hin as [-> | Hin].
      * by apply Ha, Hn1.
      * apply Hn; [done | by apply Hk1 | done].
Qed.

Lemma initial_deps_spec (solids : list Solid) :
  let deps0 : deps_dict := foldl (λ deps solid, <[_dep_key_of solid := ∅]> deps) ∅ solids in
  (∀ k i, lookup_dep deps0 k i = None) ∧
  (∀ solid, solid ∈ solids → is_Some (deps0 !! _dep_key_of solid)).
Proof.
  induction solids as [|s solids IH] using rev_ind; simpl.
  - split; [done|]. intros solid Hin. by apply elem_of_nil in Hin.
  - rewrite foldl_snoc. destruct IH as [Hnone Hkeys]. split.
    + intros k i. unfold lookup_dep. destruct (decide (_dep_key_of s = k)) as [<-|Hne].
      * by rewrite lookup_insert_eq.
      * rewrite lookup_insert_ne by done. apply Hnone.
    + intros solid Hin. destruct (decide (_dep_key_of s = _dep_key_of solid)) as [->|Hne].
      * rewrite lookup_insert_eq. by eexists.
      * rewrite lookup_insert_ne by done. apply Hkeys.
        apply elem_of_app in Hin as [Hin|Hin]; [done|].
        apply list_elem_of_singleton in Hin. congruence.
Qed.

End SubPipeline.

Lemma solid_named_name (p : PipelineDefinition) (name : string) (s : Solid) :
  solid_named p name = Return s → solid_name s = name.
Proof.
  unfold solid_named.
  destruct (list_find _ _) as [[i s']|] eqn:Hfind; [|done].
  intros [= <-]. by apply list_find_Some in Hfind as (_ & ? & _).
Qed.

Lemma has_solid_named (p : PipelineDefinition) (name : string) :
  has_solid p name = true → ∃ s, solid_named p name = Return s.
Proof.
  unfold has_solid, solid_named. intros H. apply bool_decide_eq_true in H.
  apply list_elem_of_fmap in H as (s & -> & Hs).
  destruct (list_find_elem_of (λ s', solid_name s' = solid_name s) (pipeline_solids p) s Hs eq_refl)
    as [[i s'] Hfind].
  rewrite Hfind. by exists s'.
Qed.

Lemma map_result_solid_named (p : PipelineDefinition) (names : list string) :
  Forall (λ n, has_solid p n = true) names →
  ∃ solids, map_result (solid_named p) names = Return solids ∧
            ∀ n s, n ∈ names → solid_named p n = Return s → s ∈ solids.
Proof.
  induction 1 as [|n names Hn _ (solids & Hmap & Hin)]; simpl.
  - exists []. split; [done|]. intros n s Hn. by apply elem_of_nil in Hn.
  - destruct (has_solid_named p n Hn) as [s Hs]. rewrite Hs, Hmap. simpl.
    exists (s :: solids). split; [done|]. intros n' s' Hn' Hs'.
    apply elem_of_cons in Hn' as [-> | Hn'].
    + rewrite Hs in Hs'. injection Hs' as <-. by left.
    + right. by eapply Hin.
Qed.

(** C5: when every name of [S] is a solid of [P], [build_sub_pipeline P S]
    returns a pipeline with the name and the context definitions of [P]; for a
    solid named in [S], a dependency of [P] on one of its inputs is retained
    when the producing solid is named in [S] and dropped when it is not; and
    every dependency of the result points to a solid named in [S]. *)
Theorem build_sub_pipeline_spec (P : PipelineDefinition) (S : list string) :
  Forall (λ n, has_solid P n = true) S →
  ∃ P',
    build_sub_pipeline P S = Return P' ∧
    new_name P' = pipeline_name P ∧
    new_context_definitions P' = context_definitions P ∧
    (∀ n s i output_handle,
       n ∈ S → solid_named P n = Return s → i ∈ input_defs (definition s) →
       get_dep P {| ih_solid := s; ih_input_def := i |} = Some output_handle →
       (solid_name (oh_solid output_handle) ∈ S →
        lookup_dep (new_dependencies P') (_dep_key_of s) i =
        Some {| dep_solid := solid_name (oh_solid output_handle);
                dep_output := oh_output_def output_handle |}) ∧
       (solid_name (oh_solid output_handle) ∉ S →
        lookup_dep (new_dependencies P') (_dep_key_of s) i = None)) ∧
    (∀ k i d, lookup_dep (new_dependencies P') k i = Some d → dep_solid d ∈ S).
Proof.
  intros Hnames. destruct (map_result_solid_named P S Hnames) as (solids & Hmap & Hin).
  unfold build_sub_pipeline. rewrite Hmap. simpl. eexists. split; [done|]. simpl.
  split; [done|]. split; [done|].
  destruct (initial_deps_spec solids) as [Hnone Hkeys].
  edestruct (fold_solids_spec P (list_to_set S) solids) as (Hsound & _ & _ & Hnew).
  { intros k i. left. apply Hnone. }
  split.
  - intros n s i oh Hn Hs Hi Hdep.
    specialize (Hnew s i (Hin n s Hn Hs) (Hkeys s (Hin n s Hn Hs)) Hi).
    unfold agrees in Hnew. rewrite Hnew. unfold edge, get_dep, handle_key in *.
    simpl in *. rewrite Hdep. split; intros HS.
    + rewrite bool_decide_eq_true_2; [done|]. by apply elem_of_list_to_set.
    + rewrite bool_decide_eq_false_2; [done|]. by rewrite elem_of_list_to_set.
  - intros k i d Hd. destruct (Hsound k i) as [Hnone'|Hag]; [congruence|].
    unfold agrees in Hag. rewrite Hd in Hag. unfold edge in Hag.
    destruct (dependency_structure P !! (k.2, i)) as [oh|]; [|done].
    destruct (bool_decide (solid_name (oh_solid oh) ∈ list_to_set S)) eqn:Hmem; [|done].
    injection Hag as ->. simpl. apply bool_decide_eq_true in Hmem.
    by apply elem_of_list_to_set in Hmem.
Qed.

(** The subset [b] of the example: the dependency of [b] on [a] is dropped. *)
Lemma build_sub_pipeline_spec_witness :
  ∃ P', build_sub_pipeline Examples.pipeline_ab ["b"] = Return P' ∧
        new_name P' = "ab" ∧
        lookup_dep (new_dependencies P') (_dep_key_of Examples.solid_b) "in" = None.
Proof.
  destruct (build_sub_pipeline_spec Examples.pipeline_ab ["b"])
    as (P' & HP' & Hname & _ & Hedges & _).
  - repeat constructor.
  - exists P'. split; [exact HP'|]. split; [exact Hname|].
    refine (proj2 (Hedges "b" Examples.solid_b "in"
              {| oh_solid := Examples.solid_a; oh_output_def := "result" |} _ _ _ _) _).
    + apply list_elem_of_singleton. reflexivity.
    + reflexivity.
    + apply list_elem_of_singleton. reflexivity.
    + reflexivity.
    + intros Hin. apply list_elem_of_singleton in Hin. discriminate.
Defined.

(** * Further properties of the execution core *)

(** ** Results of solids and pipelines *)

Section MoreSolidResults.
Context {Value : Type}.
Implicit Types (r : SolidExecutionResult Value) (x : StepResult Value).

Lemma first_error_none_inv (rs : list (StepResult Value)) :
  first_error rs = Return None → Forall (λ y, success y = true) rs.
Proof.
  induction rs as [|y rs IH]; simpl; [by constructor|].
  destruct (success y) eqn:Hy; simpl.
  - intros H. constructor; [done | by apply IH].
  - unfold get_failure_data. by destruct (failure_data y).
Qed.

Lemma success_iff_no_dagster_error_lemma r :
  solid_success r = true ↔ dagster_error r = Return None.
Proof.
  rewrite solid_success_iff. unfold dagster_error. split.
  - apply first_error_none.
  - apply first_error_none_inv.
Qed.

(** X1: a solid result is a success exactly when [dagster_error] finds no
    error in it. *)
Theorem success_iff_no_dagster_error r :
  solid_success r = true ↔ dagster_error r = Return None.
Proof. apply success_iff_no_dagster_error_lemma. Qed.

Lemma first_result_named_elem name (rs : list (SolidExecutionResult Value)) r :
  first_result_named name rs = Return r → r ∈ rs ∧ solid_name (solid r) = name.
Proof.
  induction rs as [|s rs IH]; simpl; [done|].
  destruct (decide (solid_name (solid s) = name)) as [Heq|Hne].
  - intros [= <-]. split; [by left | done].
  - intros H. destruct (IH H). split; [by right | done].
Qed.

(** X2: in a successful pipeline result every solid result that
    [result_for_solid] returns is a success, carries the requested name and
    has no error; when the pipeline result is not a success, one of the
    results of its list is not. *)
Theorem pipeline_success_result_for_solid (p : PipelineExecutionResult Value) :
  (pipeline_result_success p = true →
   ∀ name r, result_for_solid p name = Return r →
     solid_name (solid r) = name ∧ solid_success r = true ∧
     dagster_error r = Return None) ∧
  (pipeline_result_success p = false →
   ∃ r, r ∈ result_list p ∧ solid_success r = false).
Proof.
  unfold pipeline_result_success. split.
  - intros Hall name r Hr. apply all_true_iff in Hall. rewrite Forall_fmap in Hall.
    unfold result_for_solid in Hr. destruct (negb (has_solid (pipeline p) name)); [done|].
    apply first_result_named_elem in Hr as [Hin Hname].
    rewrite Forall_forall in Hall. specialize (Hall r Hin). simpl in Hall.
    split; [done|]. split; [done|]. by apply success_iff_no_dagster_error_lemma.
  - intros Hfail. induction (result_list p) as [|r rs IH]; [done|].
    simpl in Hfail. unfold all in Hfail. simpl in Hfail.
    destruct (solid_success r) eqn:Hr.
    + destruct IH as (r' & Hin & Hr'); [done|]. exists r'. split; [by right | done].
    + exists r. split; [by left | done].
Qed.

Lemma values_by_output_data (ts : list (StepResult Value)) acc m :
  values_by_output ts acc = Return m → Forall (λ x, is_Some (success_data x)) ts.
Proof.
  revert acc. induction ts as [|x ts IH]; intros acc; simpl; [by constructor|].
  unfold get_success_data. destruct (success_data x) as [d|] eqn:Hd; simpl; [|done].
  intros H. constructor; [by eexists | by eapply IH].
Qed.

Lemma output_names_other name (ts : list (StepResult Value)) :
  name ∉ output_names ts → Forall (other_output name) ts.
Proof.
  intros Hnot. apply Forall_forall. intros x Hx d Hd Hname. apply Hnot.
  apply list_elem_of_omap. exists x. split; [done|]. by rewrite Hd, <- Hname.
Qed.

(** X3: when no two transforms carry the same output name, the two accessors
    agree: the value that [transformed_values] binds to a declared output is
    the value that [transformed_value] returns for it. *)
Theorem transformed_values_agree r (m : gmap string Value) (name : string) (v : Value) :
  NoDup (output_names (transforms r)) →
  has_output (definition (solid r)) name = true →
  transformed_values r = Return (Some m) →
  m !! name = Some v →
  transformed_value r name = Return (Some v).
Proof.
  intros Hnd Hout Hvalues Hm. unfold transformed_values in Hvalues.
  destruct (solid_success r) eqn:Hs; [|done].
  destruct (truthy (transforms r)); [|done]. simpl in Hvalues.
  destruct (values_by_output (transforms r) ∅) as [m'|] eqn:Hm'; [|done].
  injection Hvalues as ->.
  pose proof (values_by_output_data _ _ _ Hm') as Hdata.
  destruct (values_by_output_maps _ Hdata) as (m'' & Hm'' & Hspec).
  rewrite Hm' in Hm''. injection Hm'' as <-.
  apply Hspec in Hm as (pre & x & post & d & Hts & Hd & Hname & Hv & _).
  unfold transformed_value. rewrite Hout, Hs. simpl. rewrite Hts in Hnd, Hdata |- *.
  rewrite (find_output_found name pre post x d); [by rewrite Hv | | done | done].
  apply Forall_app in Hdata as [Hdata _]. apply Forall_and. split; [done|].
  apply output_names_other. unfold output_names in Hnd. rewrite omap_app in Hnd.
  apply NoDup_app in Hnd as (_ & Hnd & _). intros Hin. apply (Hnd name Hin).
  simpl. rewrite Hd. simpl. rewrite Hname. by left.
Qed.

End MoreSolidResults.

(** The successful run of [a] alone. *)
Lemma pipeline_success_result_for_solid_witness :
  solid_name (solid Examples.result_a) = "a" ∧
  solid_success Examples.result_a = true ∧
  dagster_error Examples.result_a = Return None.
Proof.
  refine (proj1 (pipeline_success_result_for_solid MoreExamples.run_a) _ "a" Examples.result_a _);
    reflexivity.
Defined.

(** The value of the output [result] of [a]. *)
Lemma transformed_values_agree_witness :
  transformed_value Examples.result_a "result" = Return (Some 42).
Proof.
  apply (transformed_values_agree Examples.result_a {[ "result" := 42 ]} "result" 42).
  - apply (bool_decide_unpack _). vm_compute. exact I.
  - reflexivity.
  - reflexivity.
  - reflexivity.
Defined.

(** ** [from_results] and [_process_step_results] *)

Section MoreAggregation.
Context {Value : Type}.
Implicit Types (r : StepResult Value) (rs stream : list (StepResult Value)).

Lemma same_solid_loop_inv (rs : list (StepResult Value)) (s : Solid) :
  for_each (λ r, check_invariant (is_same (step_solid (step r)) s)) rs = Return tt →
  Forall (λ r, solid_id (solid_of r) = solid_id s) rs.
Proof.
  induction rs as [|r rs IH]; simpl; [by constructor|].
  unfold is_same. destruct (bool_decide (solid_id (step_solid (step r)) = solid_id s)) eqn:Hid;
    simpl; [|done].
  intros H. constructor; [by apply bool_decide_eq_true in Hid | by apply IH].
Qed.

Lemma same_solid_loop_id (rs : list (StepResult Value)) (s : Solid) :
  Forall (λ r, solid_id (solid_of r) = solid_id s) rs →
  for_each (λ r, check_invariant (is_same (step_solid (step r)) s)) rs = Return tt.
Proof.
  induction 1 as [|r rs Hr _ IH]; simpl; [done|].
  unfold is_same. unfold solid_of in Hr. by rewrite bool_decide_eq_true_2.
Qed.

Lemma for_each_check_error {A} (cond : A → bool) (l : list A) e :
  for_each (λ x, check_invariant (cond x)) l = Raise e → e = CheckError.
Proof.
  induction l as [|a l IH]; simpl; [done|].
  destruct (cond a); simpl; [done | by intros [= <-]].
Qed.

(** X4: [from_results] returns exactly when the list is not empty and every
    step result belongs to the same solid object as the first one; its only
    failure is the check error. *)
Theorem from_results_returns_iff rs :
  ((∃ ser, from_results rs = Return ser) ↔
   ∃ r0 rest, rs = r0 :: rest ∧
     Forall (λ r, solid_id (solid_of r) = solid_id (solid_of r0)) rs) ∧
  (∀ e, from_results rs = Raise e → e = CheckError).
Proof.
  destruct rs as [|r0 rest].
  - split; [|by intros e [= <-]]. split; [by intros [? ?] | by intros (? & ? & ? & _)].
  - assert (Hfr : from_results (r0 :: rest) =
      (for_each (λ r, check_invariant (is_same (step_solid (step r)) (step_solid (step r0))))
         (r0 :: rest) ;?
       Return {| solid := step_solid (step r0);
                 step_results_by_kind := group_by_kind (r0 :: rest) |})) by reflexivity.
    rewrite Hfr. clear Hfr.
    destruct (for_each _ (r0 :: rest)) as [[]|e0] eqn:Hloop; cbn [rbind].
    + split; [|done]. split; [|by eexists].
      intros _. exists r0, rest. split; [done|]. by apply same_solid_loop_inv.
    + split.
      * split; [by intros [? ?]|]. intros (r1 & rest1 & [= <- <-] & Hall).
        apply same_solid_loop_id in Hall. unfold solid_of in Hall. congruence.
      * intros e [= <-].
        exact (for_each_check_error
                 (λ r, is_same (step_solid (step r)) (step_solid (step r0))) _ _ Hloop).
Qed.

Lemma three_kinds_permutation rs :
  filter (λ r, kind r = INPUT_EXPECTATION) rs ++
  filter (λ r, kind r = OUTPUT_EXPECTATION) rs ++
  filter (λ r, kind r = TRANSFORM) rs ≡ₚ rs.
Proof.
  induction rs as [|r rs IH]; [done|].
  destruct (kind r) eqn:Hk.
  - rewrite (filter_cons_False (λ r, kind r = INPUT_EXPECTATION)) by congruence.
    rewrite (filter_cons_False (λ r, kind r = OUTPUT_EXPECTATION)) by congruence.
    rewrite (filter_cons_True (λ r, kind r = TRANSFORM)) by done.
    symmetry. rewrite app_assoc. apply Permutation_cons_app. rewrite <- app_assoc.
    by symmetry.
  - rewrite (filter_cons_True (λ r, kind r = INPUT_EXPECTATION)) by done.
    rewrite (filter_cons_False (λ r, kind r = OUTPUT_EXPECTATION)) by congruence.
    rewrite (filter_cons_False (λ r, kind r = TRANSFORM)) by congruence.
    rewrite <- app_comm_cons. by apply Permutation_skip.
  - rewrite (filter_cons_False (λ r, kind r = INPUT_EXPECTATION)) by congruence.
    rewrite (filter_cons_True (λ r, kind r = OUTPUT_EXPECTATION)) by done.
    rewrite (filter_cons_False (λ r, kind r = TRANSFORM)) by congruence.
    symmetry. apply Permutation_cons_app. by symmetry.
Qed.

Lemma from_results_inv rs ser :
  from_results rs = Return ser →
  ∃ r0 rest, rs = r0 :: rest ∧ solid ser = solid_of r0 ∧
             step_results_by_kind ser = group_by_kind rs.
Proof.
  unfold from_results. destruct rs as [|r0 rest]; [done|].
  destruct (same_solid_check (r0 :: rest)) as [[]|e]; simpl; [|done].
  intros [= <-]. by exists r0, rest.
Qed.

Lemma from_results_partition_lemma rs ser :
  from_results rs = Return ser →
  head (solid_of <$> rs) = Some (solid ser) ∧
  (∀ k, results_of_kind ser k = filter (λ r, kind r = k) rs) ∧
  input_expectations ser ++ output_expectations ser ++ transforms ser ≡ₚ rs ∧
  (solid_success ser = true ↔ Forall (λ r, success r = true) rs).
Proof.
  intros Hfrom. destruct (from_results_inv _ _ Hfrom) as (r0 & rest & Hrs & Hsolid & Hkinds).
  assert (Hk : ∀ k, results_of_kind ser k = filter (λ r, kind r = k) rs).
  { intros k. unfold results_of_kind. rewrite Hkinds. unfold group_by_kind.
    apply (group_lookup_empty kind). }
  assert (Hperm : input_expectations ser ++ output_expectations ser ++ transforms ser ≡ₚ rs).
  { unfold input_expectations, output_expectations, transforms. rewrite !Hk.
    apply three_kinds_permutation. }
  split; [by rewrite Hrs, Hsolid|]. split; [done|]. split; [done|].
  rewrite solid_success_iff. unfold chained. by rewrite Hperm.
Qed.

(** X5: the result that [from_results] builds is the result of the solid of
    the first step result; it holds under each kind the step results of that
    kind, in their order; together its three lists are a rearrangement of the
    given list, and it is a success exactly when every given step result is. *)
Theorem from_results_partition rs ser :
  from_results rs = Return ser →
  head (solid_of <$> rs) = Some (solid ser) ∧
  (∀ k, results_of_kind ser k = filter (λ r, kind r = k) rs) ∧
  input_expectations ser ++ output_expectations ser ++ transforms ser ≡ₚ rs ∧
  (solid_success ser = true ↔ Forall (λ r, success r = true) rs).
Proof. apply from_results_partition_lemma. Qed.

Lemma group_by_solid_name_lookup stream (n : string) :
  group_by_solid_name stream !! n =
  match filter (λ r, solid_name (solid_of r) = n) stream with
  | [] => None
  | rs => Some rs
  end.
Proof.
  unfold group_by_solid_name.
  rewrite (group_lookup (λ r, solid_name (step_solid (step r)))), lookup_empty.
  by destruct (filter _ stream).
Qed.

(** X6: the aggregation depends only on the step results of each solid taken
    apart: two streams that hold, for every solid name, the same step results
    in the same order give the same outcome, however they interleave the
    solids. *)
Theorem process_step_results_interleaving `{!TopologicalOrder}
    (p : PipelineDefinition) (stream1 stream2 : list (StepResult Value)) :
  (∀ n, filter (λ r, solid_name (solid_of r) = n) stream1 =
        filter (λ r, solid_name (solid_of r) = n) stream2) →
  _process_step_results p stream1 = _process_step_results p stream2.
Proof.
  intros Hsame. unfold _process_step_results. f_equal.
  apply map_eq. intros n. by rewrite !group_by_solid_name_lookup, Hsame.
Qed.

Lemma emit_in_order_origin (topo : list Solid) stream out :
  emit_in_order topo (group_by_solid_name stream) = Return out →
  length out ≤ length topo ∧
  sublist ((λ ser, solid_name (solid ser)) <$> out) (solid_name <$> topo) ∧
  Forall (λ ser,
    solid_name (solid ser) ∈ solid_name <$> topo ∧
    ∀ k r, r ∈ results_of_kind ser k →
      r ∈ stream ∧ solid_name (solid_of r) = solid_name (solid ser)) out.
Proof.
  revert out. induction topo as [|s topo IH]; intros out; simpl.
  - intros [= <-]. split; [done|]. split; by constructor.
  - rewrite group_by_solid_name_lookup.
    destruct (filter (λ r, solid_name (solid_of r) = solid_name s) stream)
      as [|r0 rs] eqn:Hrs.
    + intros Hout. destruct (IH _ Hout) as (Hlen & Hsub & Hall). split; [lia|].
      split; [by apply sublist_cons|].
      eapply Forall_impl; [exact Hall|]. intros ser [Hn Hr]. split; [by right | done].
    + destruct (from_results (r0 :: rs)) as [ser|] eqn:Hfrom; simpl; [|done].
      destruct (emit_in_order topo (group_by_solid_name stream)) as [rest|] eqn:Hrest;
        simpl; [|done].
      intros [= <-]. destruct (IH _ eq_refl) as (Hlen & Hsub & Hall). split; [simpl; lia|].
      destruct (from_results_partition_lemma _ _ Hfrom) as (Hhead & Hk & _).
      simpl in Hhead. injection Hhead as Hsolid.
      assert (Hbucket : ∀ r, r ∈ r0 :: rs →
                r ∈ stream ∧ solid_name (solid_of r) = solid_name s).
      { intros r Hr. rewrite <- Hrs in Hr. by apply list_elem_of_filter in Hr as [? ?]. }
      assert (Hname : solid_name (solid ser) = solid_name s).
      { rewrite <- Hsolid. apply Hbucket. by left. }
      split; [rewrite fmap_cons, Hname; by apply sublist_skip|].
      constructor.
      * split; [rewrite Hname; by left|]. intros k r Hr. rewrite Hk in Hr.
        apply list_elem_of_filter in Hr as [_ Hr]. rewrite Hname. by apply Hbucket.
      * eapply Forall_impl; [exact Hall|]. intros ser' [Hn Hr]. split; [by right | done].
Qed.

Lemma emit_in_order_empty (topo : list Solid) :
  emit_in_order topo (group_by_solid_name (Value := Value) []) = Return [].
Proof.
  unfold group_by_solid_name. cbn [foldl].
  induction topo as [|s topo IH]; simpl; [done|]. by rewrite lookup_empty.
Qed.

(** X7: results are yielded only for solids of the pipeline, at most one for
    each solid of the topological order and in that order, and hold only step
    results of the stream that carry the name of their solid: the solid names
    of the results are a subsequence of the solid names in topological order,
    so that no two results are for the same solid when the order lists every
    solid once; a step result whose solid name is not the name of a solid of
    the pipeline is in none of them, and an empty stream yields no result. *)
Theorem process_step_results_origin `{!TopologicalOrder}
    (p : PipelineDefinition) stream out :
  _process_step_results p stream = Return out →
  length out ≤ length (solids_in_topological_order p) ∧
  sublist ((λ ser, solid_name (solid ser)) <$> out)
    (solid_name <$> solids_in_topological_order p) ∧
  (NoDup (solid_name <$> solids_in_topological_order p) →
   NoDup ((λ ser, solid_name (solid ser)) <$> out)) ∧
  (∀ ser k r, ser ∈ out → r ∈ results_of_kind ser k →
     r ∈ stream ∧ solid_name (solid_of r) = solid_name (solid ser) ∧
     solid_name (solid_of r) ∈ solid_name <$> solids_in_topological_order p) ∧
  (stream = [] → out = []).
Proof.
  intros Hout. unfold _process_step_results in Hout.
  destruct (emit_in_order_origin _ _ _ Hout) as (Hlen & Hsub & Hall).
  rewrite Forall_forall in Hall. split; [done|]. split; [done|].
  split; [intros Hnd; by eapply sublist_NoDup|]. split.
  - intros ser k r Hser Hr. destruct (Hall ser Hser) as [Hn Hrs].
    destruct (Hrs k r Hr) as [Hin Hname]. split; [done|]. split; [done|]. by rewrite Hname.
  - intros ->. rewrite emit_in_order_empty in Hout. by injection Hout as <-.
Qed.

End MoreAggregation.

(** The interleaved stream gives the results of [a] and of [b]. *)
Lemma from_results_partition_witness :
  input_expectations Examples.result_b_failed ++
  output_expectations Examples.result_b_failed ++
  transforms Examples.result_b_failed ≡ₚ
  [Examples.ok Examples.step_b_expect INPUT_EXPECTATION "in" 42;
   Examples.failed Examples.step_b TRANSFORM 7].
Proof.
  refine (proj1 (proj2 (proj2 (from_results_partition
            [Examples.ok Examples.step_b_expect INPUT_EXPECTATION "in" 42;
             Examples.failed Examples.step_b TRANSFORM 7]
            Examples.result_b_failed _)))).
  vm_compute. reflexivity.
Defined.

(** The step results of [a] and [b], solid after solid. *)
Lemma process_step_results_interleaving_witness :
  @_process_step_results nat Examples.topological_order Examples.pipeline_ab
    Examples.stream_ba =
  @_process_step_results nat Examples.topological_order Examples.pipeline_ab
    [Examples.ok Examples.step_a TRANSFORM "result" 42;
     Examples.ok Examples.step_b_expect INPUT_EXPECTATION "in" 42;
     Examples.failed Examples.step_b TRANSFORM 7].
Proof.
  apply (@process_step_results_interleaving nat Examples.topological_order).
  intros n. unfold Examples.stream_ba.
  rewrite !filter_cons, !filter_nil. simpl.
  repeat case_decide; congruence.
Defined.

Lemma process_step_results_origin_witness :
  NoDup ((λ ser : SolidExecutionResult nat, solid_name (solid ser)) <$>
           [Examples.result_a; Examples.result_b_failed]).
Proof.
  refine (proj1 (proj2 (proj2 (@process_step_results_origin nat Examples.topological_order
            Examples.pipeline_ab Examples.stream_ba
            [Examples.result_a; Examples.result_b_failed] _))) _).
  - vm_compute. reflexivity.
  - apply (bool_decide_unpack _). vm_compute. exact I.
Defined.

(** ** More on subset pipelines *)

Lemma map_result_solid_named_inv (p : PipelineDefinition) (names : list string) solids :
  map_result (solid_named p) names = Return solids →
  Forall (λ n, has_solid p n = true) names ∧
  ∀ s, s ∈ solids ↔ ∃ n, n ∈ names ∧ solid_named p n = Return s.
Proof.
  revert solids. induction names as [|n names IH]; intros solids; simpl.
  - intros [= <-]. split; [by constructor|]. intros s. split.
    + intros Hs. by apply elem_of_nil in Hs.
    + intros (n & Hn & _). by apply elem_of_nil in Hn.
  - destruct (solid_named p n) as [s0|] eqn:Hs0; simpl; [|done].
    destruct (map_result (solid_named p) names) as [rest|] eqn:Hrest; simpl; [|done].
    intros [= <-]. destruct (IH _ eq_refl) as [Hall Hin]. split.
    + constructor; [|done]. unfold has_solid. apply bool_decide_eq_true.
      unfold solid_named in Hs0.
      destruct (list_find _ _) as [[i s']|] eqn:Hfind; [|done].
      apply list_find_Some in Hfind as (Hl & Hname & _).
      apply list_elem_of_fmap. exists s'. split; [done|]. by eapply list_elem_of_lookup_2.
    + intros s. rewrite elem_of_cons, Hin. split.
      * intros [-> | (n' & Hn' & Hs)].
        -- exists n. split; [by left | done].
        -- exists n'. split; [by right | done].
      * intros (n' & Hn' & Hs). apply elem_of_cons in Hn' as [-> | Hn'].
        -- left. congruence.
        -- right. by exists n'.
Qed.

Lemma solid_named_missing (p : PipelineDefinition) (name : string) :
  has_solid p name = false → ∃ e, solid_named p name = Raise e.
Proof.
  unfold has_solid, solid_named. intros H. apply bool_decide_eq_false in H.
  destruct (list_find _ _) as [[i s]|] eqn:Hfind; [|by eexists].
  destruct H. apply list_find_Some in Hfind as (Hl & Hname & _).
  apply list_elem_of_fmap. exists s. split; [done|]. by eapply list_elem_of_lookup_2.
Qed.

(** X8: [build_sub_pipeline P S] returns exactly when every name of [S] is the
    name of a solid of [P]; a name that is not makes it fail. *)
Theorem build_sub_pipeline_returns_iff (P : PipelineDefinition) (S : list string) :
  (∃ P', build_sub_pipeline P S = Return P') ↔ Forall (λ n, has_solid P n = true) S.
Proof.
  unfold build_sub_pipeline. split.
  - intros [P' HP']. destruct (map_result (solid_named P) S) as [solids|] eqn:Hmap; [|done].
    by apply map_result_solid_named_inv in Hmap as [? _].
  - intros Hall. destruct (map_result_solid_named P S Hall) as (solids & -> & _).
    by eexists.
Qed.

Lemma initial_deps_keys (solids : list Solid) (k : string * string) :
  let deps0 : gmap (string * string) (gmap string DependencyDefinition) :=
    foldl (λ deps solid, <[_dep_key_of solid := ∅]> deps) ∅ solids in
  is_Some (deps0 !! k) ↔ ∃ s, s ∈ solids ∧ k = _dep_key_of s.
Proof.
  induction solids as [|s solids IH] using rev_ind; simpl.
  - rewrite lookup_empty. split; [by intros [? ?]|].
    intros (s & Hs & _). by apply elem_of_nil in Hs.
  - rewrite foldl_snoc. destruct (decide (_dep_key_of s = k)) as [<-|Hne].
    + rewrite lookup_insert_eq. split; [|by eexists].
      intros _. exists s. split; [|done]. apply elem_of_app. right. by left.
    + rewrite lookup_insert_ne by done. rewrite IH. split.
      * intros (s' & Hs' & ->). exists s'. split; [|done]. apply elem_of_app. by left.
      * intros (s' & Hs' & ->). exists s'. split; [|done].
        apply elem_of_app in Hs' as [Hs'|Hs']; [done|].
        apply list_elem_of_singleton in Hs'. congruence.
Qed.

(** X9: the dependencies of the result have one entry for every solid named in
    [S], also for a solid without dependencies, and no other entry; and every
    dependency they declare is a dependency of [P] on the same input of the
    same solid, with the same producing solid and output. *)
Theorem build_sub_pipeline_dependencies (P : PipelineDefinition) (S : list string)
    (P' : PipelineConstruction) :
  build_sub_pipeline P S = Return P' →
  (∀ k, is_Some (new_dependencies P' !! k) ↔
        ∃ n s, n ∈ S ∧ solid_named P n = Return s ∧ k = _dep_key_of s) ∧
  (∀ k i d, lookup_dep (new_dependencies P') k i = Some d →
     ∃ output_handle,
       dependency_structure P !! (k.2, i) = Some output_handle ∧
       d = {| dep_solid := solid_name (oh_solid output_handle);
              dep_output := oh_output_def output_handle |}).
Proof.
  unfold build_sub_pipeline.
  destruct (map_result (solid_named P) S) as [solids|] eqn:Hmap; simpl; [|done].
  intros [= <-]. simpl. apply map_result_solid_named_inv in Hmap as [_ Hin].
  destruct (initial_deps_spec solids) as [Hnone _].
  edestruct (fold_solids_spec P (list_to_set S) solids) as (Hsound & Hkeys & _).
  { intros k i. left. apply Hnone. }
  split.
  - intros k. rewrite Hkeys, initial_deps_keys. split.
    + intros (s & Hs & ->). apply Hin in Hs as (n & Hn & Hs). by exists n, s.
    + intros (n & s & Hn & Hs & ->). exists s. split; [|done]. apply Hin. by exists n.
  - intros k i d Hd. destruct (Hsound k i) as [Hnone'|Hag]; [congruence|].
    unfold agrees in Hag. rewrite Hd in Hag. unfold edge in Hag.
    destruct (dependency_structure P !! (k.2, i)) as [oh|]; [|done].
    destruct (bool_decide _); [|done]. injection Hag as ->. by exists oh.
Qed.

(** X10: the solid definitions of the result are the definitions of the solids
    named in [S], each of them once. *)
Theorem build_sub_pipeline_definitions (P : PipelineDefinition) (S : list string)
    (P' : PipelineConstruction) :
  build_sub_pipeline P S = Return P' →
  NoDup (new_solids P') ∧
  ∀ d, d ∈ new_solids P' ↔
       ∃ n s, n ∈ S ∧ solid_named P n = Return s ∧ definition s = d.
Proof.
  unfold build_sub_pipeline.
  destruct (map_result (solid_named P) S) as [solids|] eqn:Hmap; simpl; [|done].
  intros [= <-]. simpl. apply map_result_solid_named_inv in Hmap as [_ Hin].
  split; [apply NoDup_remove_dups|].
  intros d. rewrite elem_of_remove_dups, list_elem_of_fmap. split.
  - intros (s & -> & Hs). apply Hin in Hs as (n & Hn & Hs). by exists n, s.
  - intros (n & s & Hn & Hs & <-). exists s. split; [done|]. apply Hin. by exists n.
Qed.

(** The subset [b] of the example declares an entry for [b]. *)
Lemma build_sub_pipeline_returns_iff_witness :
  ∃ P', build_sub_pipeline Examples.pipeline_ab ["b"] = Return P'.
Proof.
  apply (proj2 (build_sub_pipeline_returns_iff Examples.pipeline_ab ["b"])).
  repeat constructor.
Defined.

Lemma build_sub_pipeline_dependencies_witness :
  is_Some (new_dependencies MoreExamples.sub_b !! ("def_b", "b")).
Proof.
  refine (proj2 (proj1 (build_sub_pipeline_dependencies Examples.pipeline_ab ["b"]
            MoreExamples.sub_b _) ("def_b", "b")) _).
  - vm_compute. reflexivity.
  - exists "b", Examples.solid_b. split; [|split]; try reflexivity.
    apply list_elem_of_singleton. reflexivity.
Defined.

Lemma build_sub_pipeline_definitions_witness :
  NoDup (new_solids MoreExamples.sub_b).
Proof.
  refine (proj1 (build_sub_pipeline_definitions Examples.pipeline_ab ["b"]
            MoreExamples.sub_b _)).
  vm_compute. reflexivity.
Defined.

(** ** The checks of an externalized plan, when they pass *)

Lemma for_each_ok_iff {A} (body : A → result unit) (l : list A) :
  for_each body l = Return tt ↔ Forall (λ x, body x = Return tt) l.
Proof.
  induction l as [|a l IH]; simpl.
  - split; [by constructor | done].
  - rewrite Forall_cons, <- IH. destruct (body a) as [[]|e]; simpl.
    + split; [by intros ? | by intros [_ ?]].
    + split; [done | by intros [? _]].
Qed.

(** X11: the check of [inputs_to_marshal] passes exactly when every step key it
    names is a step of the plan and every input it names is an input of that
    step; when it fails, the error reports a missing step or a missing input. *)
Theorem check_inputs_passes_iff (plan : ExecutionPlan)
    (inputs_to_marshal : list (string * list (string * string))) :
  (_check_inputs_to_marshal plan inputs_to_marshal = Return tt ↔
   ¬ input_reference_missing plan inputs_to_marshal) ∧
  (∀ e, _check_inputs_to_marshal plan inputs_to_marshal = Raise e → input_not_found e).
Proof.
  split; [|apply check_inputs_kind]. split.
  - intros Hok Hmiss. destruct (check_inputs_raises _ _ Hmiss) as (e & He & _). congruence.
  - intros Hnot. unfold _check_inputs_to_marshal.
    destruct (truthy inputs_to_marshal); [|done].
    apply for_each_ok_iff, Forall_forall. intros [step_key input_dict] Hin. simpl.
    destruct (has_step plan step_key) eqn:Hhas; simpl.
    + destruct (has_step_get_step _ _ Hhas) as (step & Hget & _). rewrite Hget. simpl.
      apply for_each_ok_iff, Forall_forall. intros input_name Hname.
      destruct (has_step_input step input_name) eqn:Hinput; [done|].
      destruct Hnot. exists step_key, input_dict. split; [done|]. right.
      by exists step, input_name.
    + destruct Hnot. exists step_key, input_dict. split; [done|]. by left.
Qed.

Lemma check_outputs_wf plan outputs :
  _check_outputs_to_marshal plan outputs = Return tt → outputs_well_formed outputs.
Proof.
  unfold _check_outputs_to_marshal. intros Hok step_key outs output Hin Hout.
  destruct outputs as [|o outputs]; [by apply elem_of_nil in Hin|]. cbn [truthy] in Hok.
  apply for_each_ok_iff in Hok. rewrite Forall_forall in Hok.
  specialize (Hok _ Hin). simpl in Hok.
  destruct (has_step plan step_key); simpl in Hok; [|done].
  destruct (get_step_by_key plan step_key) as [step|]; simpl in Hok; [|done].
  apply for_each_ok_iff in Hok. rewrite Forall_forall in Hok.
  specialize (Hok _ Hout). simpl in Hok.
  by destruct (keys_are_output_and_path output).
Qed.

(** X12: the check of [outputs_to_marshal] passes exactly when every entry has
    the keys [output] and [path] and names a step of the plan and an output of
    that step. *)
Theorem check_outputs_passes_iff (plan : ExecutionPlan)
    (outputs_to_marshal : list (string * list (list (string * string)))) :
  _check_outputs_to_marshal plan outputs_to_marshal = Return tt ↔
  outputs_well_formed outputs_to_marshal ∧
  ¬ output_reference_missing plan outputs_to_marshal.
Proof.
  split.
  - intros Hok. pose proof (check_outputs_wf _ _ Hok) as Hwf. split; [done|].
    intros Hmiss. destruct (check_outputs_raises _ _ Hwf Hmiss) as (e & He & _). congruence.
  - intros [Hwf Hnot]. unfold _check_outputs_to_marshal.
    destruct (truthy outputs_to_marshal); [|done].
    apply for_each_ok_iff, Forall_forall. intros [step_key outs] Hin. simpl.
    destruct (has_step plan step_key) eqn:Hhas; simpl.
    + destruct (has_step_get_step _ _ Hhas) as (step & Hget & _). rewrite Hget. simpl.
      apply for_each_ok_iff, Forall_forall. intros output Hout.
      rewrite (Hwf step_key outs output Hin Hout). simpl.
      destruct (keys_have_output output (Hwf step_key outs output Hin Hout)) as [name Hname].
      unfold getitem. rewrite Hname. simpl.
      destruct (has_step_output step name) eqn:Hhas_out; [done|].
      destruct Hnot. exists step_key, outs. split; [done|]. right.
      by exists step, output, name.
    + destruct Hnot. exists step_key, outs. split; [done|]. by left.
Qed.

(** ** Tags *)

Section MoreTags.
Context {Value : Type} `{!Collaborators Value}.

(** X29: [get_tags] raises exactly when the execution metadata carries tags
    and one of their keys is a key of the tags of the user's context, and the
    error is then [DagsterInvariantViolationError]; without metadata, or with
    metadata that has no tag, it returns what [merge_dicts] makes of the name
    of the pipeline and the user's tags, and with tags of other keys what
    [merge_dicts] makes of that and the tags of the metadata. *)
Theorem get_tags_raises_iff (ucp : ExecutionContext Value)
    (md : option ExecutionMetadata) (p : PipelineDefinition) :
  ((∃ e, get_tags ucp md p = Raise e) ↔
   ¬ dom (ec_tags ucp) ## dom (provided_tags md)) ∧
  (∀ e, get_tags ucp md p = Raise e → e = DagsterInvariantViolationError) ∧
  (provided_tags md = ∅ →
   get_tags ucp md p =
   Return (merge_dicts {[ "pipeline" := pipeline_name p ]} (ec_tags ucp))) ∧
  (provided_tags md ≠ ∅ → dom (ec_tags ucp) ## dom (provided_tags md) →
   get_tags ucp md p =
   Return (merge_dicts (merge_dicts {[ "pipeline" := pipeline_name p ]} (ec_tags ucp))
             (provided_tags md))).
Proof.
  unfold get_tags, provided_tags. destruct md as [md|].
  - destruct (truthy_dict (md_tags md)) eqn:Htruthy.
    + destruct (isdisjoint _ _) eqn:Hdis; unfold isdisjoint in Hdis; cbn [negb].
      * apply bool_decide_eq_true in Hdis. split; [|split; [|split]].
        -- split; [by intros [e ?] | intros Hn; by destruct Hn].
        -- by intros e.
        -- intros Hempty. rewrite Hempty in Htruthy. unfold truthy_dict in Htruthy.
           rewrite dom_empty_L in Htruthy. by rewrite bool_decide_eq_true_2 in Htruthy.
        -- done.
      * apply bool_decide_eq_false in Hdis. split; [|split; [|split]].
        -- split; [done | by eexists].
        -- by intros e [= <-].
        -- intros Hempty. destruct Hdis. rewrite Hempty, dom_empty_L. set_solver.
        -- by intros _ Hd.
    + apply truthy_dict_false in Htruthy. rewrite Htruthy.
      split; [|split; [|split]]; [|done|done|done].
      split; [by intros [e ?]|]. intros Hd. destruct Hd. rewrite dom_empty_L. set_solver.
  - split; [|split; [|split]]; [|done|done|done].
    split; [by intros [e ?]|]. intros Hd. destruct Hd. rewrite dom_empty_L. set_solver.
Qed.

End MoreTags.

(** ** Scopes *)

Lemma with_maybe_gen_one {A B} (g : ThingOrGen A) (a : A) (body : A → M B) t :
  yields_one g a → with_maybe_gen g body t = body a t.
Proof.
  unfold yields_one, with_maybe_gen. intros ->. simpl. unfold mbind, lift, mret. simpl.
  by destruct (body a t) as [t' [b|e]].
Qed.

Lemma with_maybe_gen_raising {A B} (g : ThingOrGen A) (a : A) (e : exn)
    (body : A → M B) (t : list event) :
  _ensure_gen g = {| gen_items := [a]; gen_raises := Some e |} →
  with_maybe_gen g body t =
  match body a t with
  | (t', Return _) => (t', Raise e)
  | (t', Raise e') => (t', Raise e')
  end.
Proof.
  unfold with_maybe_gen. intros ->. unfold next, mbind, lift. cbn [gen_items gen_raises].
  by destruct (body a t) as [t' [b|e']].
Qed.

Lemma aborts_raise {B} e : aborts (B := B) (lift (Raise e)).
Proof. intros t. by exists e. Qed.

Lemma aborts_bind {A B} (m : M A) (k : A → M B) : aborts m → aborts (mbind m k).
Proof. intros Hm t. unfold mbind. destruct (Hm t) as [e ->]. by exists e. Qed.

Lemma aborts_bind_lift {A B} (r : result A) (k : A → M B) :
  (∀ a, aborts (k a)) → aborts (mbind (lift r) k).
Proof.
  intros Hk t. unfold mbind, lift. destruct r as [a|e]; [apply Hk | by exists e].
Qed.

Lemma aborts_with_maybe_gen {A B} (g : ThingOrGen A) (body : A → M B) :
  (∀ a, aborts (body a)) → aborts (with_maybe_gen g body).
Proof.
  intros Hbody. unfold with_maybe_gen.
  apply aborts_bind_lift. intros [[thing gen']|]; [|apply aborts_raise].
  apply aborts_bind, Hbody.
Qed.

Lemma bounded_raise {B} (allowed : list event → Prop) e :
  allowed [] → bounded (B := B) allowed (lift (Raise e)).
Proof. intros H t. exists [], (Raise e). by rewrite app_nil_r. Qed.

Lemma bounded_bind_lift {A B} (allowed : list event → Prop) (r : result A) (k : A → M B) :
  allowed [] → (∀ a, bounded allowed (k a)) → bounded allowed (mbind (lift r) k).
Proof.
  intros H Hk t. unfold mbind, lift. destruct r as [a|e]; [apply Hk|].
  exists [], (Raise e). by rewrite app_nil_r.
Qed.

Lemma bounded_with_maybe_gen {A B} (allowed : list event → Prop)
    (g : ThingOrGen A) (body : A → M B) :
  allowed [] → (∀ a, bounded allowed (body a)) → bounded allowed (with_maybe_gen g body).
Proof.
  intros H Hbody. unfold with_maybe_gen.
  apply bounded_bind_lift; [done|]. intros [[thing gen']|]; [|by apply bounded_raise].
  intros t. destruct (Hbody thing t) as (t' & r & Hr & Ht'). unfold mbind at 1. rewrite Hr.
  destruct r as [b|e]; [|by exists t', (Raise e)].
  unfold mbind, lift, mret. destruct (next gen') as [second|e]; [|by eexists t', _].
  destruct (check_invariant _) as [[]|e]; by eexists t', _.
Qed.

Section Scopes.
Context {Value : Type} `{!Collaborators Value}.

Lemma aborts_enter_resources {B} context_def (env : EnvironmentConfig Value) run_id
    names acquired (body : list (string * Value) → M B) :
  (∀ a, aborts (body a)) →
  aborts (enter_resources context_def env run_id names acquired body).
Proof.
  intros Hbody. revert acquired. induction names as [|name names IH]; intros acquired; simpl.
  - apply Hbody.
  - apply aborts_bind_lift. intros g. apply aborts_with_maybe_gen. intros obj. apply IH.
Qed.

Lemma aborts_create_resources {B} pipeline_def context_def (env : EnvironmentConfig Value)
    execution_context run_id (body : option Value → M B) :
  (∀ a, aborts (body a)) →
  aborts (_create_resources pipeline_def context_def env execution_context run_id body).
Proof.
  intros Hbody. unfold _create_resources.
  destruct (negb (truthy (resources context_def))); [apply Hbody|].
  apply aborts_bind_lift. intros _. apply aborts_enter_resources. intros acquired.
  destruct (context_definitions pipeline_def !! _); [apply Hbody | apply aborts_raise].
Qed.

Lemma bounded_enter_resources {B} allowed context_def (env : EnvironmentConfig Value)
    run_id names acquired (body : list (string * Value) → M B) :
  allowed [] → (∀ a, bounded allowed (body a)) →
  bounded allowed (enter_resources context_def env run_id names acquired body).
Proof.
  intros H Hbody. revert acquired.
  induction names as [|name names IH]; intros acquired; simpl.
  - apply Hbody.
  - apply bounded_bind_lift; [done|]. intros g. apply bounded_with_maybe_gen; [done|].
    intros obj. apply IH.
Qed.

Lemma bounded_create_resources {B} allowed pipeline_def context_def
    (env : EnvironmentConfig Value) execution_context run_id (body : option Value → M B) :
  allowed [] → (∀ a, bounded allowed (body a)) →
  bounded allowed
    (_create_resources pipeline_def context_def env execution_context run_id body).
Proof.
  intros H Hbody. unfold _create_resources.
  destruct (negb (truthy (resources context_def))); [apply Hbody|].
  apply bounded_bind_lift; [done|]. intros _. apply bounded_enter_resources; [done|].
  intros acquired.
  destruct (context_definitions pipeline_def !! _); [apply Hbody | by apply bounded_raise].
Qed.

Lemma enter_resources_acquires {B} context_def (env : EnvironmentConfig Value) run_id
    names done_so_far acquired (body : list (string * Value) → M B) t :
  Forall2 (λ name nv,
    nv.1 = name ∧
    ∃ g, get_resource_or_gen context_def name env run_id = Return g ∧ yields_one g nv.2)
    names acquired →
  enter_resources context_def env run_id names done_so_far body t =
  body (done_so_far ++ acquired) t.
Proof.
  intros Hacq. revert done_so_far.
  induction Hacq as [|name [n v] names acquired (Hn & g & Hg & Hone) _ IH];
    intros done_so_far; simpl.
  - by rewrite app_nil_r.
  - simpl in Hn, Hone. subst n. unfold mbind at 1, lift at 1. rewrite Hg.
    rewrite (with_maybe_gen_one g v); [|done]. rewrite IH. by rewrite <- app_assoc.
Qed.

Lemma create_resources_spec_lemma {B} (pipeline_def : PipelineDefinition)
    (context_def : ContextDefinition) (env : EnvironmentConfig Value)
    (ec : ExecutionContext Value) (run_id : string) (body : option Value → M B)
    (t : list event) :
  (resources context_def = [] →
   _create_resources pipeline_def context_def env ec run_id body t =
   body (ec_resources ec) t) ∧
  (resources context_def ≠ [] → is_Some (ec_resources ec) →
   _create_resources pipeline_def context_def env ec run_id body t =
   (t, Raise CheckError)) ∧
  (resources context_def ≠ [] → ec_resources ec = None →
   context_definitions pipeline_def !! ctx_name (env_context env) = Some context_def →
   ∀ acquired, acquires context_def env run_id acquired →
   _create_resources pipeline_def context_def env ec run_id body t =
   body (Some (resources_type context_def acquired)) t).
Proof.
  unfold _create_resources. split; [|split].
  - by intros ->.
  - intros Hne [v Hv]. destruct (resources context_def); [done|]. simpl.
    unfold mbind, lift. rewrite Hv. by rewrite bool_decide_eq_true_2.
  - intros Hne Hnone Hcd acquired Hacq.
    assert (truthy (resources context_def) = true) as ->
      by (by destruct (resources context_def)).
    cbn [negb]. unfold mbind at 1, lift at 1. rewrite Hnone.
    rewrite bool_decide_eq_false_2 by (by intros [? ?]). cbn [negb check_invariant].
    rewrite (enter_resources_acquires _ _ _ _ [] acquired _ _ Hacq).
    cbn [app]. by rewrite Hcd.
Qed.

(** X13: when the context definition declares no resource, the body gets the
    resources of the user's context; when it declares resources and the user's
    context carries resources as well, the scope fails with a check error and
    the body does not run; when it declares resources whose factories give one
    item each, the body gets the aggregate of these resources, in the order of
    their declaration. *)
Theorem create_resources_spec {B} (pipeline_def : PipelineDefinition)
    (context_def : ContextDefinition) (env : EnvironmentConfig Value)
    (ec : ExecutionContext Value) (run_id : string) (body : option Value → M B)
    (t : list event) :
  (resources context_def = [] →
   _create_resources pipeline_def context_def env ec run_id body t =
   body (ec_resources ec) t) ∧
  (resources context_def ≠ [] → is_Some (ec_resources ec) →
   _create_resources pipeline_def context_def env ec run_id body t =
   (t, Raise CheckError)) ∧
  (resources context_def ≠ [] → ec_resources ec = None →
   context_definitions pipeline_def !! ctx_name (env_context env) = Some context_def →
   ∀ acquired, acquires context_def env run_id acquired →
   _create_resources pipeline_def context_def env ec run_id body t =
   body (Some (resources_type context_def acquired)) t).
Proof. apply create_resources_spec_lemma. Qed.

Lemma yield_context_opens_lemma {B} (p : PipelineDefinition) (env : EnvironmentConfig Value)
    (md : ExecutionMetadata) (ctx : RuntimeExecutionContext Value)
    (body : RuntimeExecutionContext Value → M B) (t : list event) :
  opens p env md ctx →
  yield_context p env md body t =
  match body ctx (t ++ [context_opened]) with
  | (t', Return b) => (t' ++ [context_closed], Return b)
  | (t', Raise e) => (t', Raise e)
  end.
Proof.
  intros (cd & g & ec & tags & policy & r & Hcd & Hg & Hone & Hres & Htags & Hpol & ->).
  unfold yield_context. rewrite Hcd. unfold mbind at 1, lift at 1. rewrite Hg.
  rewrite (with_maybe_gen_one g ec); [|done].
  assert (Hinner : ∀ (k : option Value → M B),
            _create_resources p cd env ec (md_run_id md) k t = k r t).
  { intros k. destruct (create_resources_spec_lemma p cd env ec (md_run_id md) k t)
      as (Hnone & _ & Hsome).
    destruct Hres as [[Hnil ->] | (Hne & Hec & acquired & Hacq & ->)]; [by apply Hnone|].
    by apply Hsome. }
  rewrite Hinner. unfold mbind, lift, emit, mret. rewrite Htags, Hpol. simpl.
  by destruct (body _ (t ++ [context_opened])) as [t' [b|e]].
Qed.

(** X14: when [yield_context] opens the scope with the context [ctx] and its
    factories give one item each and stop when they are resumed, the body runs
    once, on [ctx], behind the event [context_opened]; when the body returns,
    [context_closed] follows and its value is returned; when it raises, its
    exception leaves the scope. *)
Theorem yield_context_opens {B} (p : PipelineDefinition) (env : EnvironmentConfig Value)
    (md : ExecutionMetadata) (ctx : RuntimeExecutionContext Value)
    (body : RuntimeExecutionContext Value → M B) (t : list event) :
  opens p env md ctx →
  yield_context p env md body t =
  match body ctx (t ++ [context_opened]) with
  | (t', Return b) => (t' ++ [context_closed], Return b)
  | (t', Raise e) => (t', Raise e)
  end.
Proof. apply yield_context_opens_lemma. Qed.

(** X30: when the context factory gives a generator that yields the user's
    context and raises [e] when it is resumed, [yield_context] runs its body
    as it does when the scope opens, but a value that the body returns is
    lost: behind [context_closed] the exception [e] of the generator leaves the
    scope; an exception of the body leaves the scope as it is. *)
Theorem yield_context_teardown_raises {B} (e : exn) (p : PipelineDefinition)
    (env : EnvironmentConfig Value) (md : ExecutionMetadata)
    (ctx : RuntimeExecutionContext Value)
    (body : RuntimeExecutionContext Value → M B) (t : list event) :
  opens_raising e p env md ctx →
  yield_context p env md body t =
  match body ctx (t ++ [context_opened]) with
  | (t', Return _) => (t' ++ [context_closed], Raise e)
  | (t', Raise e') => (t', Raise e')
  end.
Proof.
  intros (cd & g & ec & tags & policy & r & Hcd & Hg & Hone & Hres & Htags & Hpol & ->).
  unfold yield_context. rewrite Hcd. unfold mbind at 1, lift at 1. rewrite Hg.
  rewrite (with_maybe_gen_raising g ec e); [|done].
  assert (Hinner : ∀ (k : option Value → M B),
            _create_resources p cd env ec (md_run_id md) k t = k r t).
  { intros k. destruct (create_resources_spec_lemma p cd env ec (md_run_id md) k t)
      as (Hnone & _ & Hsome).
    destruct Hres as [[Hnil ->] | (Hne & Hec & acquired & Hacq & ->)]; [by apply Hnone|].
    by apply Hsome. }
  rewrite Hinner. unfold mbind, lift, emit, mret. rewrite Htags, Hpol. simpl.
  by destruct (body _ (t ++ [context_opened])) as [t' [b|e']].
Qed.

(** X15: when the persistence mapping of the environment selects no policy, the
    scope of [yield_context] fails, leaves no event, and its body never
    runs. *)
Theorem yield_context_bad_persistence {B} (p : PipelineDefinition)
    (env : EnvironmentConfig Value) (md : ExecutionMetadata)
    (body : RuntimeExecutionContext Value → M B) (e0 : exn) :
  _create_persistence_policy (ctx_persistence (env_context env)) = Raise e0 →
  aborts (yield_context p env md body).
Proof.
  intros Hpol. unfold yield_context.
  destruct (context_definitions p !! _); [|apply aborts_raise].
  apply aborts_bind_lift. intros g. apply aborts_with_maybe_gen. intros ec.
  apply aborts_create_resources. intros res.
  apply aborts_bind_lift. intros tags. rewrite Hpol. intros t. by exists e0.
Qed.

(** X16: when every context that the user's factory can give has a tag key in
    common with the tags of the metadata, the scope of [yield_context] fails,
    leaves no event, and its body never runs. *)
Theorem yield_context_overlapping_tags {B} (p : PipelineDefinition)
    (env : EnvironmentConfig Value) (md : ExecutionMetadata)
    (body : RuntimeExecutionContext Value → M B) :
  (∀ cd g ec rest,
     context_definitions p !! ctx_name (env_context env) = Some cd →
     context_fn cd {| cci_config := ctx_config (env_context env);
                      cci_pipeline_def := p;
                      cci_run_id := md_run_id md |} = Return g →
     gen_items (_ensure_gen g) = ec :: rest →
     ¬ dom (ec_tags ec) ## dom (md_tags md)) →
  aborts (yield_context p env md body).
Proof.
  intros Hover. unfold yield_context.
  destruct (context_definitions p !! _) as [cd|] eqn:Hcd; [|apply aborts_raise].
  intros t. unfold mbind at 1, lift at 1.
  destruct (context_fn cd _) as [g|e] eqn:Hg; [|by exists e].
  unfold with_maybe_gen, next.
  destruct (gen_items (_ensure_gen g)) as [|ec rest] eqn:Hgen.
  { unfold mbind, lift. destruct (gen_raises _); by eexists. }
  unfold mbind at 1, lift at 1. apply aborts_bind. apply aborts_create_resources. intros res.
  intros t0. unfold mbind, lift.
  assert (get_tags ec (Some md) p = Raise DagsterInvariantViolationError) as ->; [|by eexists].
  specialize (Hover cd g ec rest eq_refl Hg Hgen). unfold get_tags.
  destruct (truthy_dict (md_tags md)) eqn:Htruthy.
  - unfold isdisjoint. by rewrite bool_decide_eq_false_2.
  - apply truthy_dict_false in Htruthy. rewrite Htruthy in Hover.
    destruct Hover. rewrite dom_empty_L. set_solver.
Qed.

Lemma yield_context_frames_lemma {B} (allowed : list event → Prop) (p : PipelineDefinition)
    (env : EnvironmentConfig Value) (md : ExecutionMetadata)
    (body : RuntimeExecutionContext Value → M B) :
  (∀ ctx, bounded allowed (body ctx)) →
  bounded (framed allowed) (yield_context p env md body).
Proof.
  intros Hbody. assert (Hnil : framed allowed []) by (by left).
  unfold yield_context.
  destruct (context_definitions p !! _); [|by apply bounded_raise].
  apply bounded_bind_lift; [done|]. intros g. apply bounded_with_maybe_gen; [done|].
  intros ec. apply bounded_create_resources; [done|]. intros res.
  apply bounded_bind_lift; [done|]. intros tags.
  apply bounded_bind_lift; [done|]. intros policy.
  intros t. unfold mbind, emit, mret.
  match goal with |- context [body ?c] => destruct (Hbody c (t ++ [context_opened]))
    as (tb & r & Hr & Htb) end.
  rewrite Hr. destruct r as [b|e].
  - exists (context_opened :: tb ++ [context_closed]), (Return b). split.
    + by rewrite <- !app_assoc.
    + right. exists tb. split; [done | by right].
  - exists (context_opened :: tb), (Raise e). split.
    + by rewrite <- app_assoc.
    + right. exists tb. split; [done | by left].
Qed.


End Scopes.

Section PlanConstructionSpec.
Context {Value : Type} `{!Collaborators Value} `{!DefaultMetadata}.

(** X18: the construction of a plan runs no step and makes no call to the
    persistence policy: the events it leaves are at most [context_opened] and
    [context_closed], in that order. *)
Theorem create_execution_plan_events (pipeline : PipelineDefinition)
    (env_config : option Value) (execution_metadata : option ExecutionMetadata)
    (subset_info : option (ExecutionPlanSubsetInfo Value)) (t : list event) :
  ∃ t' r,
    create_execution_plan pipeline env_config execution_metadata subset_info t =
      (t ++ t', r) ∧
    (t' = [] ∨ t' = [context_opened] ∨ t' = [context_opened; context_closed]).
Proof.
  unfold create_execution_plan. unfold mbind at 1, lift at 1.
  destruct (create_typed_environment pipeline env_config) as [env|e].
  2:{ exists [], (Raise e). rewrite app_nil_r. by split; [|left]. }
  unfold create_execution_plan_with_typed_environment.
  match goal with |- context [yield_context _ _ ?md ?body] =>
    destruct (yield_context_frames_lemma (λ tb, tb = []) pipeline env md body) with (t := t)
      as (t' & r & Hrun & Hframed) end.
  { intros ctx t0. eexists [], _. unfold lift. by rewrite app_nil_r. }
  exists t', r. split; [done|].
  destruct Hframed as [-> | (tb & -> & [-> | ->])]; [by left | right; by left | right; by right].
Qed.

End PlanConstructionSpec.

(** ** The driver of a run *)

Section Driver.
Context {Value : Type} `{!Collaborators Value} `{!TopologicalOrder}.


(** X20: a run that raises has emitted no terminal event of its own: the plan
    could not be built and only [pipeline_start] was emitted; or the first
    step has inputs and the step engine was not invoked; or the step engine
    was invoked and nothing was emitted behind it. *)
Theorem iterate_pipeline_raises (pipeline : PipelineDefinition)
    (context : RuntimeExecutionContext Value) (env : EnvironmentConfig Value)
    (md : ExecutionMetadata) (throw_on_user_error : bool) (t t' : list event) (e : exn) :
  _do_iterate_pipeline pipeline context env md throw_on_user_error t = (t', Raise e) →
  t' = t ++ [pipeline_start] ∨
  (∃ keys, t' = t ++ [pipeline_start; debug_order keys] ∧ e = CheckError) ∨
  (∃ plan keys,
     t' = (execute_plan_core context plan throw_on_user_error
             (t ++ [pipeline_start; debug_order keys; step_engine_invoked])).1).
Proof.
  unfold _do_iterate_pipeline, mbind, emit, lift, mret.
  destruct (create_execution_plan_core _ md None) as [plan|e0]; [|by intros [= <- <-]; left].
  destruct (topological_steps plan) as [|step0 rest]; [done|].
  destruct (check_invariant _) as [[]|e0] eqn:Hchk.
  - intros Hrun. right. right. exists plan, (key <$> step0 :: rest).
    rewrite <- !app_assoc in Hrun. cbn [app] in Hrun.
    destruct (execute_plan_core context plan throw_on_user_error _)
      as [t1 [step_results|e1]]; [|by injection Hrun as <- _].
    destruct (_process_step_results pipeline step_results) as [rs|e1];
      [|by injection Hrun as <- _].
    by destruct (all (solid_success <$> rs)).
  - intros [= <- <-]. right. left. exists (key <$> step0 :: rest).
    split; [by rewrite <- !app_assoc | ].
    unfold check_invariant in Hchk.
    destruct (bool_decide (length (step_inputs step0) = 0)); [done|]. by injection Hchk.
Qed.

(** X21: without execution metadata [execute_externalized_plan] always fails,
    with the error of the configuration or with a parameter check error, and
    leaves no event: it does not default the metadata that [yield_context]
    requires. *)
Theorem externalized_plan_requires_metadata (pipeline : PipelineDefinition)
    (plan : ExecutionPlan) (step_keys : list string)
    (inputs_to_marshal : list (string * list (string * string)))
    (outputs_to_marshal : list (string * list (list (string * string))))
    (environment : option Value) (throw_on_user_error : bool) (t : list event) :
  ∃ e,
    execute_externalized_plan pipeline plan step_keys inputs_to_marshal
      outputs_to_marshal environment None throw_on_user_error t = (t, Raise e) ∧
    (e = PipelineConfigEvaluationError ∨ e = ParameterCheckError).
Proof.
  unfold execute_externalized_plan, mbind, lift, create_typed_environment.
  destruct (negb (ev_success (evaluate_config_value pipeline environment))); simpl.
  - exists PipelineConfigEvaluationError. by split; [|left].
  - exists ParameterCheckError. by split; [|right].
Qed.

End Driver.

Section EntryPoints.
Context {Value : Type} `{!Collaborators Value} `{!TopologicalOrder} `{!DefaultMetadata}.

(** X23: when the environment does not evaluate against the pipeline, the entry
    points raise [PipelineConfigEvaluationError] and leave no event: no context
    is opened and no factory of the user is called. *)
Theorem config_error_before_context (pipeline : PipelineDefinition)
    (plan : ExecutionPlan) (environment : option Value) (t : list event) :
  ev_success (evaluate_config_value pipeline environment) = false →
  (∀ md throw_on_user_error,
     execute_plan pipeline plan environment md throw_on_user_error t =
     (t, Raise PipelineConfigEvaluationError)) ∧
  (∀ step_keys inputs_to_marshal outputs_to_marshal md throw_on_user_error,
     execute_externalized_plan pipeline plan step_keys inputs_to_marshal
       outputs_to_marshal environment md throw_on_user_error t =
     (t, Raise PipelineConfigEvaluationError)) ∧
  (∀ md subset_info,
     create_execution_plan pipeline environment md subset_info t =
     (t, Raise PipelineConfigEvaluationError)).
Proof.
  intros Hfail.
  assert (create_typed_environment pipeline environment =
          Raise PipelineConfigEvaluationError) as Henv.
  { unfold create_typed_environment. by rewrite Hfail. }
  repeat split; intros;
    unfold execute_plan, execute_externalized_plan, create_execution_plan, mbind, lift;
    by rewrite Henv.
Qed.

End EntryPoints.

(** ** Unmarshalling the inputs of an externalized plan *)

Lemma assoc_Some_elem {A} (k : string) (d : list (string * A)) (v : A) :
  assoc k d = Some v → k ∈ d.*1.
Proof.
  induction d as [|[k' v'] d IH]; simpl; [done|].
  destruct (decide (k = k')) as [->|Hne]; [by left|]. intros H. right. by apply IH.
Qed.

Lemma lookup2_insert {V} (d : gmap string (gmap string V)) (k i : string) (v : V) k' i' :
  lookup2 (<[k := <[i := v]> (default ∅ (d !! k))]> d) k' i' =
  if decide (k' = k ∧ i' = i) then Some v else lookup2 d k' i'.
Proof.
  unfold lookup2. destruct (decide (k' = k)) as [->|Hk].
  - rewrite lookup_insert_eq. destruct (decide (i' = i)) as [->|Hi].
    + rewrite lookup_insert_eq. by rewrite decide_True.
    + rewrite lookup_insert_ne by done. rewrite decide_False by (by intros [_ ?]).
      by destruct (d !! k).
  - rewrite lookup_insert_ne by done. by rewrite decide_False by (by intros [? _]).
Qed.

Section Unmarshal.
Context {Value : Type} `{!Collaborators Value} `{!TopologicalOrder}.

Lemma unmarshal_entry_readable context plan step_key step i p v inputs t :
  get_step_by_key plan step_key = Return step →
  readable context plan step_key i p v →
  unmarshal_step context step_key step inputs [(i, p)] t =
  (t ++ [read_value_called p],
   Return (<[step_key := <[i := v]> (default ∅ (inputs !! step_key))]> inputs)).
Proof.
  intros Hstep (step' & ty & strategy & Hstep' & Hty & Hstrategy & Hread).
  rewrite Hstep in Hstep'. injection Hstep' as <-.
  unfold unmarshal_step. simpl. unfold mbind, lift, emit, mret, getitem, has_step_input.
  rewrite bool_decide_eq_true_2 by (by eapply assoc_Some_elem). simpl.
  rewrite Hty. simpl. rewrite Hstrategy. simpl. by rewrite Hread.
Qed.

Lemma unmarshal_step_cons context step_key step inputs entry input_dict t :
  unmarshal_step context step_key step inputs (entry :: input_dict) t =
  match unmarshal_step context step_key step inputs [entry] t with
  | (t', Return inputs') => unmarshal_step context step_key step inputs' input_dict t'
  | (t', Raise e) => (t', Raise e)
  end.
Proof.
  unfold unmarshal_step. simpl. unfold mbind.
  repeat match goal with
  | |- context [match ?m ?t0 with _ => _ end] =>
      lazymatch m with
      | lift _ => destruct (m t0) as [? [?|?]]
      | emit _ => destruct (m t0) as [? [?|?]]
      end
  end; try done.
Qed.

Lemma unmarshal_step_readable context plan step_key step input_dict inputs t :
  get_step_by_key plan step_key = Return step →
  NoDup input_dict.*1 →
  Forall (λ entry, ∃ v, readable context plan step_key entry.1 entry.2 v) input_dict →
  ∃ inputs',
    unmarshal_step context step_key step inputs input_dict t =
      (t ++ (read_value_called <$> input_dict.*2), Return inputs') ∧
    (∀ k' i', k' ≠ step_key ∨ i' ∉ input_dict.*1 →
       lookup2 inputs' k' i' = lookup2 inputs k' i') ∧
    (∀ i p, (i, p) ∈ input_dict →
       ∃ v, readable context plan step_key i p v ∧ lookup2 inputs' step_key i = Some v).
Proof.
  intros Hstep Hnd Hall. revert inputs t.
  induction Hall as [|[i0 p0] input_dict [v0 Hv0] _ IH]; intros inputs t.
  - exists inputs. split; [by rewrite app_nil_r|]. split; [done|].
    intros i p Hin. by apply elem_of_nil in Hin.
  - simpl in Hnd. apply NoDup_cons in Hnd as [Hi0 Hnd].
    rewrite unmarshal_step_cons.
    rewrite (unmarshal_entry_readable context plan step_key step i0 p0 v0); [|done|done].
    destruct (IH Hnd (<[step_key := <[i0 := v0]> (default ∅ (inputs !! step_key))]> inputs)
                (t ++ [read_value_called p0])) as (inputs' & Hrun & Hframe & Hset).
    exists inputs'. split; [|split].
    + rewrite Hrun. by rewrite <- app_assoc.
    + intros k' i' Hother. rewrite Hframe.
      * rewrite lookup2_insert. rewrite decide_False; [done|].
        intros [-> ->]. destruct Hother as [?|Hnot]; [done|]. apply Hnot. by left.
      * destruct Hother as [?|Hnot]; [by left|]. right. intros Hin. apply Hnot. by right.
    + intros i p Hin. apply elem_of_cons in Hin as [[= -> ->] | Hin].
      * exists v0. split; [done|]. rewrite Hframe by (by right).
        rewrite lookup2_insert. by rewrite decide_True.
      * by apply Hset.
Qed.

Lemma unmarshal_inputs_cons context plan item inputs_to_marshal (inputs : gmap string (gmap string Value)) t :
  mfoldl (λ inputs (item : string * list (string * string)),
      let* step := lift (get_step_by_key plan item.1) in
      unmarshal_step context item.1 step inputs item.2) inputs (item :: inputs_to_marshal) t =
  match (let* step := lift (get_step_by_key plan item.1) in
         unmarshal_step context item.1 step inputs item.2) t with
  | (t', Return inputs') =>
      mfoldl (λ inputs (item : string * list (string * string)),
        let* step := lift (get_step_by_key plan item.1) in
        unmarshal_step context item.1 step inputs item.2) inputs' inputs_to_marshal t'
  | (t', Raise e) => (t', Raise e)
  end.
Proof. done. Qed.

Lemma unmarshal_inputs_readable context plan inputs_to_marshal
    (inputs : gmap string (gmap string Value)) t :
  all_readable context plan inputs_to_marshal →
  ∃ inputs',
    mfoldl (λ inputs (item : string * list (string * string)),
      let* step := lift (get_step_by_key plan item.1) in
      unmarshal_step context item.1 step inputs item.2) inputs inputs_to_marshal t =
      (t ++ (read_value_called <$> input_paths inputs_to_marshal), Return inputs') ∧
    (∀ k' i', k' ∉ inputs_to_marshal.*1 → lookup2 inputs' k' i' = lookup2 inputs k' i') ∧
    (∀ k d i p, (k, d) ∈ inputs_to_marshal → (i, p) ∈ d →
       ∃ v, readable context plan k i p v ∧ lookup2 inputs' k i = Some v).
Proof.
  intros [Hnd Hall]. revert inputs t.
  induction Hall as [|[k0 d0] rest ([step Hstep] & Hnd0 & Hd0) _ IH]; intros inputs t.
  - exists inputs. split; [by rewrite app_nil_r|]. split; [done|].
    intros k d i p Hin. by apply elem_of_nil in Hin.
  - simpl in Hnd, Hstep, Hnd0, Hd0. apply NoDup_cons in Hnd as [Hk0 Hnd].
    rewrite unmarshal_inputs_cons. unfold mbind at 1, lift at 1. simpl. rewrite Hstep.
    destruct (unmarshal_step_readable context plan k0 step d0 inputs t Hstep Hnd0 Hd0)
      as (inputs1 & Hrun1 & Hframe1 & Hset1).
    rewrite Hrun1.
    destruct (IH Hnd inputs1 (t ++ (read_value_called <$> d0.*2)))
      as (inputs' & Hrun & Hframe & Hset).
    exists inputs'. split; [|split].
    + rewrite Hrun. unfold input_paths. simpl. by rewrite fmap_app, app_assoc.
    + intros k' i' Hk'. rewrite Hframe.
      * apply Hframe1. left. intros ->. apply Hk'. by left.
      * intros Hin. apply Hk'. by right.
    + intros k d i p Hin Hip. apply elem_of_cons in Hin as [[= -> ->] | Hin].
      * destruct (Hset1 i p Hip) as (v & Hv & Hlook). exists v. split; [done|].
        by rewrite Hframe.
      * by eapply Hset.
Qed.

(** X24: when every input of [inputs_to_marshal] can be read, [_unmarshal_inputs]
    reads every path once, in the order of the dictionaries, and returns a
    dictionary that holds, for every step key and input name, the value that
    the persistence policy gave for its path. *)
Theorem unmarshal_inputs_reads_all (context : RuntimeExecutionContext Value)
    (plan : ExecutionPlan) (inputs_to_marshal : list (string * list (string * string)))
    (t : list event) :
  all_readable context plan inputs_to_marshal →
  ∃ inputs,
    _unmarshal_inputs context inputs_to_marshal plan t =
      (t ++ (read_value_called <$> input_paths inputs_to_marshal), Return inputs) ∧
    (∀ k i, k ∉ inputs_to_marshal.*1 → lookup2 inputs k i = None) ∧
    (∀ k d i p, (k, d) ∈ inputs_to_marshal → (i, p) ∈ d →
       ∃ v, readable context plan k i p v ∧ lookup2 inputs k i = Some v).
Proof.
  intros Hall.
  destruct (unmarshal_inputs_readable context plan inputs_to_marshal ∅ t Hall)
    as (inputs & Hrun & Hframe & Hset).
  exists inputs. split; [exact Hrun|]. split; [|done].
  intros k i Hk. by rewrite Hframe.
Qed.

End Unmarshal.

Lemma mfoldl_app {A S} (f : S → A → M S) (s : S) (l1 l2 : list A) (t : list event) :
  mfoldl f s (l1 ++ l2) t =
  match mfoldl f s l1 t with
  | (t', Return s') => mfoldl f s' l2 t'
  | (t', Raise e) => (t', Raise e)
  end.
Proof.
  revert s t. induction l1 as [|a l1 IH]; intros s t; simpl; [done|].
  unfold mbind. destruct (f s a t) as [t' [s'|e]]; [apply IH | done].
Qed.

Section UnmarshalFailure.
Context {Value : Type} `{!Collaborators Value} `{!TopologicalOrder}.

Lemma all_readable_app context plan
    (pre : list (string * list (string * string))) item :
  all_readable context plan (pre ++ [item]) →
  all_readable context plan pre ∧
  (∃ step, get_step_by_key plan item.1 = Return step) ∧
  NoDup item.2.*1 ∧
  Forall (λ entry, ∃ v, readable context plan item.1 entry.1 entry.2 v) item.2.
Proof.
  intros [Hnd Hall]. rewrite fmap_app in Hnd. apply NoDup_app in Hnd as (Hnd & _ & _).
  apply Forall_app in Hall as [Hpre Hitem]. apply Forall_inv in Hitem. by split.
Qed.

(** X25: when the persistence policy fails on one input and every input before
    it could be read, [_unmarshal_inputs] has read the paths up to that one,
    reads no path behind it, and raises [DagsterUnmarshalInputError] with the
    name of the input and the key of its step. *)
Theorem unmarshal_inputs_read_failure (context : RuntimeExecutionContext Value)
    (plan : ExecutionPlan) (pre post : list (string * list (string * string)))
    (step_key : string) (before behind : list (string * string))
    (input_name path : string) (step : ExecutionStep) (input_type : RuntimeType)
    (strategy : string) (e0 : exn) (t : list event) :
  all_readable context plan (pre ++ [(step_key, before)]) →
  get_step_by_key plan step_key = Return step →
  assoc input_name (step_input_dict step) = Some input_type →
  serialization_strategy input_type = Some strategy →
  read_value (rc_persistence_policy context) strategy path = Raise e0 →
  _unmarshal_inputs context
    (pre ++ (step_key, before ++ (input_name, path) :: behind) :: post) plan t =
  (t ++ (read_value_called <$> input_paths (pre ++ [(step_key, before)]) ++ [path]),
   Raise (DagsterUnmarshalInputError input_name step_key)).
Proof.
  intros Hall Hstep Hty Hstrategy Hread.
  apply all_readable_app in Hall as (Hpre & _ & Hnd & Hbefore). simpl in Hnd, Hbefore.
  change (_unmarshal_inputs context
            (pre ++ (step_key, before ++ (input_name, path) :: behind) :: post) plan)
    with (mfoldl (λ inputs (item : string * list (string * string)),
            let* step := lift (get_step_by_key plan item.1) in
            unmarshal_step context item.1 step inputs item.2) ∅
            (pre ++ (step_key, before ++ (input_name, path) :: behind) :: post)).
  rewrite mfoldl_app.
  destruct (unmarshal_inputs_readable context plan pre ∅ t Hpre) as (inputs1 & -> & _).
  rewrite unmarshal_inputs_cons. unfold mbind at 1, lift at 1. simpl. rewrite Hstep.
  unfold unmarshal_step at 1. rewrite mfoldl_app.
  destruct (unmarshal_step_readable context plan step_key step before inputs1
              (t ++ (read_value_called <$> input_paths pre)) Hstep Hnd Hbefore)
    as (inputs2 & Hrun2 & _).
  unfold unmarshal_step in Hrun2. rewrite Hrun2. simpl.
  unfold mbind, lift, emit, mret, getitem, has_step_input.
  rewrite bool_decide_eq_true_2 by (by eapply assoc_Some_elem). simpl.
  rewrite Hty. simpl. rewrite Hstrategy. simpl. rewrite Hread. simpl.
  assert (key step = step_key) as ->.
  { unfold get_step_by_key in Hstep.
    destruct (list_find _ _) as [[n s]|] eqn:Hfind; [|done]. injection Hstep as ->.
    by apply list_find_Some in Hfind as (_ & ? & _). }
  assert (Hp : input_paths (pre ++ [(step_key, before)]) = input_paths pre ++ before.*2).
  { unfold input_paths. rewrite fmap_app, join_app. simpl. by rewrite app_nil_r. }
  rewrite Hp, !fmap_app. by rewrite <- !app_assoc.
Qed.

End UnmarshalFailure.

(** ** The normal form of a scope *)

Lemma scope_outcome_None {B} (r : list event * result B) : scope_outcome None r = r.
Proof. by destruct r as [t [b|e]]. Qed.

Lemma scope_outcome_compose {B} (outer inner : option exn) (r : list event * result B) :
  scope_outcome outer (scope_outcome inner r) =
  scope_outcome (match inner with Some e => Some e | None => outer end) r.
Proof. destruct r as [t [b|e]]; [|done]. by destruct inner. Qed.

Lemma scoped_with_maybe_gen {A} (g : ThingOrGen A) : scoped (λ B, with_maybe_gen g).
Proof.
  unfold scoped, with_maybe_gen, next.
  destruct (gen_items (_ensure_gen g)) as [|a rest].
  - left. destruct (gen_raises (_ensure_gen g)) as [e|]; by eexists.
  - right. exists a.
    exists (match rest with
            | _ :: _ => Some CheckError
            | [] => gen_raises (_ensure_gen g)
            end).
    intros B body t. unfold mbind, lift, mret. cbn [gen_items gen_raises].
    destruct (body a t) as [t' [b|e]]; [|done]. cbn [scope_outcome].
    destruct rest; [|done]. by destruct (gen_raises (_ensure_gen g)).
Qed.

Lemma scoped_raise {A} (e : exn) : scoped (A := A) (λ B _, lift (Raise e)).
Proof. left. by exists e. Qed.

Lemma scoped_bind_lift {A X} (r : result X) (sc : X → ∀ B, (A → M B) → M B) :
  (∀ x, scoped (sc x)) → scoped (λ B body, mbind (lift r) (λ x, sc x B body)).
Proof.
  intros Hsc. destruct r as [x|e]; [|by apply scoped_raise].
  destruct (Hsc x) as [[e He] | (a & after & Ha)].
  - left. exists e. intros B body t. unfold mbind, lift. apply He.
  - right. exists a, after. intros B body t. unfold mbind, lift. apply Ha.
Qed.

Lemma scoped_compose {A1 A2} (sc1 : ∀ B, (A1 → M B) → M B)
    (sc2 : A1 → ∀ B, (A2 → M B) → M B) :
  scoped sc1 → (∀ a1, scoped (sc2 a1)) →
  scoped (λ B body, sc1 B (λ a1, sc2 a1 B body)).
Proof.
  intros [[e He] | (a1 & after1 & H1)] H2.
  - left. exists e. intros B body t. apply He.
  - destruct (H2 a1) as [[e He] | (a2 & after2 & Ha2)].
    + left. exists e. intros B body t. by rewrite H1, He.
    + right. exists a2, (match after2 with Some e => Some e | None => after1 end).
      intros B body t. by rewrite H1, Ha2, scope_outcome_compose.
Qed.

Lemma scoped_return {A} (a : A) : scoped (λ B (body : A → M B), body a).
Proof. right. exists a, None. intros B body t. by rewrite scope_outcome_None. Qed.

Section NormalForm.
Context {Value : Type} `{!Collaborators Value}.

Lemma scoped_enter_resources context_def (env : EnvironmentConfig Value) run_id
    names acquired :
  scoped (λ B, enter_resources context_def env run_id names acquired).
Proof.
  revert acquired. induction names as [|name names IH]; intros acquired; simpl.
  - apply (scoped_return acquired).
  - apply (scoped_bind_lift _
      (λ g B body, with_maybe_gen g (λ obj,
         enter_resources context_def env run_id names (acquired ++ [(name, obj)]) body))).
    intros g.
    apply (scoped_compose (λ B, with_maybe_gen g)
      (λ obj B, enter_resources context_def env run_id names (acquired ++ [(name, obj)]))).
    + apply scoped_with_maybe_gen.
    + intros obj. apply IH.
Qed.

Lemma scoped_create_resources pipeline_def context_def (env : EnvironmentConfig Value)
    execution_context run_id :
  scoped (λ B, _create_resources pipeline_def context_def env execution_context run_id).
Proof.
  unfold _create_resources. destruct (negb (truthy (resources context_def))).
  - apply (scoped_return (ec_resources execution_context)).
  - apply (scoped_bind_lift _ (λ _ B (body : option Value → M B),
      enter_resources context_def env run_id (resources context_def).*1 []
        (λ acquired,
           match context_definitions pipeline_def !! ctx_name (env_context env) with
           | Some cd => body (Some (resources_type cd acquired))
           | None => lift (Raise (KeyError (ctx_name (env_context env))))
           end))).
    intros _.
    apply (scoped_compose
      (λ B, enter_resources context_def env run_id (resources context_def).*1 [])
      (λ acquired B (body : option Value → M B),
         match context_definitions pipeline_def !! ctx_name (env_context env) with
         | Some cd => body (Some (resources_type cd acquired))
         | None => lift (Raise (KeyError (ctx_name (env_context env))))
         end)).
    + apply scoped_enter_resources.
    + intros acquired. destruct (context_definitions pipeline_def !! _).
      * apply (scoped_return (Some _)).
      * apply scoped_raise.
Qed.

Lemma yield_context_normal_form_lemma (p : PipelineDefinition)
    (env : EnvironmentConfig Value) (md : ExecutionMetadata) :
  (∃ e, ∀ B (body : RuntimeExecutionContext Value → M B) t,
     yield_context p env md body t = (t, Raise e)) ∨
  (∃ ctx (after : option exn),
     rc_run_id ctx = md_run_id md ∧
     rc_event_callback ctx = md_event_callback md ∧
     rc_environment_config ctx = original_config_dict env ∧
     ∀ B (body : RuntimeExecutionContext Value → M B) t,
       yield_context p env md body t =
       match body ctx (t ++ [context_opened]) with
       | (t', Return b) =>
           (t' ++ [context_closed], match after with None => Return b | Some e => Raise e end)
       | (t', Raise e) => (t', Raise e)
       end).
Proof.
  unfold yield_context.
  destruct (context_definitions p !! ctx_name (env_context env)) as [cd|];
    [|left; by eexists].
  assert (Hscope : scoped (A := ExecutionContext Value * option Value) (λ B k,
    mbind (lift (context_fn cd {| cci_config := ctx_config (env_context env);
                                  cci_pipeline_def := p;
                                  cci_run_id := md_run_id md |}))
      (λ g, with_maybe_gen g (λ ec,
         _create_resources p cd env ec (md_run_id md) (λ res, k (ec, res)))))).
  { apply (scoped_bind_lift _ (λ g B (k : ExecutionContext Value * option Value → M B),
      with_maybe_gen g (λ ec,
        _create_resources p cd env ec (md_run_id md) (λ res, k (ec, res))))).
    intros g.
    apply (scoped_compose (λ B, with_maybe_gen g)
      (λ ec B (k : ExecutionContext Value * option Value → M B),
         _create_resources p cd env ec (md_run_id md) (λ res, k (ec, res)))).
    - apply scoped_with_maybe_gen.
    - intros ec.
      apply (scoped_compose
        (λ B, _create_resources p cd env ec (md_run_id md))
        (λ res B (k : ExecutionContext Value * option Value → M B), k (ec, res))).
      + apply scoped_create_resources.
      + intros res. apply (scoped_return (ec, res)). }
  destruct Hscope as [[e He] | ([ec res] & after & Hrun)].
  - left. exists e. intros B body t.
    apply (He B (opened_body p env md body) t).
  - destruct (get_tags ec (Some md) p) as [tags|e] eqn:Htags.
    2:{ left. exists e. intros B body t.
        etransitivity; [exact (Hrun B (opened_body p env md body) t)|].
        unfold opened_body, mbind, lift. cbn [fst snd]. by rewrite Htags. }
    assert (∃ r, _create_persistence_policy (ctx_persistence (env_context env)) = r)
      as [[policy|e] Hpol] by (by eexists).
    2:{ left. exists e. intros B body t.
        etransitivity; [exact (Hrun B (opened_body p env md body) t)|].
        unfold opened_body, mbind, lift. cbn [fst snd]. by rewrite Htags, Hpol. }
    right.
    exists {| rc_run_id := md_run_id md; rc_loggers := _create_loggers md ec;
              rc_resources := res; rc_tags := tags;
              rc_event_callback := md_event_callback md;
              rc_environment_config := original_config_dict env;
              rc_persistence_policy := policy |}, after.
    split; [done|]. split; [done|]. split; [done|]. intros B body t.
    etransitivity; [exact (Hrun B (opened_body p env md body) t)|].
    unfold opened_body, mbind, lift, emit, mret. cbn [fst snd]. rewrite Htags, Hpol.
    cbn [get_event_callback].
    destruct (body _ (t ++ [context_opened])) as [t' [b|e]]; [|done].
    cbn [scope_outcome]. by destruct after.
Qed.


End NormalForm.

(** ** The synchronous run and the iterator *)

Lemma mbind_lift_return {A B} (a : A) (k : A → M B) (t : list event) :
  mbind (lift (Return a)) k t = k a t.
Proof. done. Qed.

Lemma mbind_lift_raise {A B} (e : exn) (k : A → M B) (t : list event) :
  mbind (lift (Raise e)) k t = (t, Raise e).
Proof. done. Qed.

Section SyncAndIterator.
Context {Value : Type} `{!Collaborators Value} `{!TopologicalOrder}
  `{!DefaultMetadata} `{!PipelineConstructor}.

(** X27: [execute_pipeline] and the drained [execute_pipeline_iterator] run the
    same way: they leave the same events and raise the same exception, and the
    result list of [execute_pipeline] is what the iterator yields; the result
    carries the run id of the metadata and the pipeline that was executed, the
    one given or its subset. *)
Theorem execute_pipeline_matches_iterator (p : PipelineDefinition)
    (environment : option Value) (throw_on_user_error : bool)
    (execution_metadata : option ExecutionMetadata) (solid_subset : option (list string))
    (t : list event) :
  same_run
    (execute_pipeline p environment throw_on_user_error execution_metadata
       solid_subset t)
    (execute_pipeline_iterator p environment throw_on_user_error execution_metadata
       solid_subset t) ∧
  (∀ t' r,
     execute_pipeline p environment throw_on_user_error execution_metadata
       solid_subset t = (t', Return r) →
     run_id r = md_run_id (default default_execution_metadata execution_metadata) ∧
     get_subset_pipeline p solid_subset = Return (pipeline r)).
Proof.
  unfold execute_pipeline, execute_pipeline_iterator, execute_pipeline_with_metadata.
  destruct (get_subset_pipeline p solid_subset) as [p'|e] eqn:Hsub.
  2:{ rewrite !mbind_lift_raise. by split. }
  rewrite !mbind_lift_return.
  destruct (create_typed_environment p' environment) as [env|e] eqn:Henv.
  2:{ rewrite !mbind_lift_raise. by split. }
  rewrite !mbind_lift_return.
  destruct (yield_context_normal_form_lemma p' env
              (default default_execution_metadata execution_metadata))
    as [[e He] | (ctx & after & Hid & _ & _ & Hrun)].
  - rewrite !He. by split.
  - rewrite !Hrun. unfold mbind, mret.
    destruct (_do_iterate_pipeline p' ctx env _ throw_on_user_error _)
      as [t1 [results|e]]; [|by split].
    destruct after; split; try done.
    intros t' r [= <- <-]. by split.
Qed.

End SyncAndIterator.

(** ** A run of an externalized plan *)

Lemma mbind_run {A B} (m : M A) (k : A → M B) (t t' : list event) (a : A) :
  m t = (t', Return a) → mbind m k t = k a t'.
Proof. intros H. unfold mbind. by rewrite H. Qed.

Lemma mbind_emit {B} (e : event) (k : unit → M B) (t : list event) :
  mbind (emit e) k t = k tt (t ++ [e]).
Proof. done. Qed.

Lemma get_step_has_step (plan : ExecutionPlan) (step_key : string) (step : ExecutionStep) :
  get_step_by_key plan step_key = Return step → has_step plan step_key = true.
Proof.
  unfold get_step_by_key, has_step.
  destruct (list_find _ _) as [[n s]|] eqn:Hfind; [|done]. intros _.
  apply list_find_Some in Hfind as (Hl & Hkey & _). apply bool_decide_eq_true.
  apply list_elem_of_fmap. exists s. split; [done|]. by eapply list_elem_of_lookup_2.
Qed.

Section MarshalOut.
Context {Value : Type} `{!Collaborators Value}.

Lemma marshal_result_writes (context : RuntimeExecutionContext Value)
    (r : StepResult Value) (data : StepSuccessData Value)
    (outputs : list (list (string * string))) (t : list event) :
  success_data r = Some data →
  Forall (servable context (step r) data) outputs →
  marshal_result context r outputs t =
  (t ++ (write_value_called <$> omap (path_for (output_name data)) outputs), Return tt).
Proof.
  intros Hdata Hall. revert t. induction Hall as [|output outputs Ho _ IH]; intros t.
  - by rewrite app_nil_r.
  - destruct Ho as (name & Hname & Hserve).
    unfold marshal_result. cbn [mfor_each]. fold (marshal_result context r outputs).
    unfold mbind at 1. unfold getitem at 1. rewrite Hname, mbind_lift_return.
    unfold get_success_data. rewrite Hdata, mbind_lift_return.
    cbn [omap list_omap]. unfold path_for at 1. rewrite Hname.
    destruct (decide (name = output_name data)) as [Heq|Hne].
    + destruct (Hserve Heq) as (path & ty & Hpath & Hty & Hwrite).
      rewrite (bool_decide_eq_true_2 (name = _)) by done.
      rewrite (bool_decide_eq_true_2 (Some name = _)) by by rewrite Heq.
      cbn [negb]. unfold getitem. rewrite Hty, Hpath. cbn [wrap_exception].
      rewrite !mbind_lift_return, mbind_emit.
      rewrite Hwrite. cbn [wrap_exception]. unfold lift at 1.
      rewrite IH, fmap_cons. by rewrite <- app_assoc.
    + rewrite (bool_decide_eq_false_2 (name = _)) by done.
      rewrite (bool_decide_eq_false_2 (Some name = _)) by congruence.
      cbn [negb]. unfold mret at 1. apply IH.
Qed.

Lemma marshal_outputs_writes_lemma (context : RuntimeExecutionContext Value)
    (results : list (StepResult Value))
    (outputs_to_marshal : list (string * list (list (string * string))))
    (t : list event) :
  Forall (writable context outputs_to_marshal) results →
  _marshal_outputs context results outputs_to_marshal t =
  (t ++ (write_value_called <$> mjoin (written_paths outputs_to_marshal <$> results)),
   Return tt).
Proof.
  intros Hall. revert t. induction Hall as [|r rs Hr _ IH]; intros t.
  - by rewrite app_nil_r.
  - unfold _marshal_outputs. cbn [mfor_each].
    fold (_marshal_outputs context rs outputs_to_marshal).
    rewrite fmap_cons. cbn [mjoin list_join]. rewrite fmap_app, app_assoc. unfold written_paths at 1.
    unfold mbind at 1. unfold writable in Hr.
    destruct (success r); [|unfold mret at 1; rewrite app_nil_r; apply IH].
    destruct (assoc _ _) as [outputs|]; [|unfold mret at 1; rewrite app_nil_r; apply IH].
    destruct (Hr eq_refl outputs eq_refl) as (data & Hdata & Hserve).
    rewrite Hdata.
    pose proof (marshal_result_writes context r data outputs t Hdata Hserve) as Hrun.
    unfold marshal_result in Hrun. rewrite Hrun. apply IH.
Qed.


(** X22: [_marshal_outputs] on step results that can be marshalled returns, and
    it writes exactly the paths of the requests that name the output of a
    successful step result of the requested step, one write for each, in the
    order of the results and of the requests; a failed result, a result of a
    step that is not requested and a request for another output write nothing. *)
Theorem marshal_outputs_writes (context : RuntimeExecutionContext Value)
    (results : list (StepResult Value))
    (outputs_to_marshal : list (string * list (list (string * string))))
    (t : list event) :
  Forall (writable context outputs_to_marshal) results →
  _marshal_outputs context results outputs_to_marshal t =
  (t ++ (write_value_called <$> mjoin (written_paths outputs_to_marshal <$> results)),
   Return tt).
Proof. apply marshal_outputs_writes_lemma. Qed.

End MarshalOut.

Section ExternalizedSuccess.
Context {Value : Type} `{!Collaborators Value} `{!TopologicalOrder}.

Lemma all_readable_check (context : RuntimeExecutionContext Value) (plan : ExecutionPlan)
    (inputs_to_marshal : list (string * list (string * string))) :
  all_readable context plan inputs_to_marshal →
  _check_inputs_to_marshal plan inputs_to_marshal = Return tt.
Proof.
  intros [_ Hall]. unfold _check_inputs_to_marshal.
  destruct (truthy inputs_to_marshal); [|done].
  apply for_each_ok_iff. eapply Forall_impl; [exact Hall|].
  intros [k d] ([step Hstep] & _ & Hd). simpl in *.
  rewrite (get_step_has_step _ _ _ Hstep). simpl. rewrite Hstep. simpl.
  apply for_each_ok_iff, Forall_fmap. eapply Forall_impl; [exact Hd|].
  intros [i p] (v & step' & ty & strategy & Hstep' & Hty & _). simpl in *.
  rewrite Hstep in Hstep'. injection Hstep' as <-.
  unfold has_step_input. by rewrite bool_decide_eq_true_2 by (by eapply assoc_Some_elem).
Qed.

(** X28: a run of an externalized plan whose context opens, with factories that
    give one item each and stop when they are resumed, whose inputs can all be
    read and whose requested outputs pass the check.  The inputs are read inside the open
    context, each path once; the plan builder gets the requested step keys and
    the values that were read; the step engine is invoked once, behind the
    reads; and when its step results can be marshalled, the requested outputs
    are written behind it, the results of the engine are returned as they are
    and the context is closed last. *)
Theorem externalized_plan_runs (p : PipelineDefinition) (plan : ExecutionPlan)
    (step_keys : list string)
    (inputs_to_marshal : list (string * list (string * string)))
    (outputs_to_marshal : list (string * list (list (string * string))))
    (environment : option Value) (env : EnvironmentConfig Value)
    (md : ExecutionMetadata) (ctx : RuntimeExecutionContext Value)
    (throw_on_user_error : bool) (t : list event) :
  create_typed_environment p environment = Return env →
  opens p env md ctx →
  all_readable ctx plan inputs_to_marshal →
  _check_outputs_to_marshal plan outputs_to_marshal = Return tt →
  ∃ loaded,
    (∀ k d i path, (k, d) ∈ inputs_to_marshal → (i, path) ∈ d →
       ∃ v, readable ctx plan k i path v ∧ lookup2 loaded k i = Some v) ∧
    ∀ rebuilt t1 results,
      create_execution_plan_core
        {| epi_context := ctx; epi_pipeline := p; epi_environment := env |} md
        (Some {| included_step_keys := step_keys; subset_inputs := loaded |}) =
        Return rebuilt →
      execute_plan_core ctx rebuilt throw_on_user_error
        (t ++ [context_opened] ++ (read_value_called <$> input_paths inputs_to_marshal) ++
           [step_engine_invoked]) = (t1, Return results) →
      Forall (writable ctx outputs_to_marshal) results →
      execute_externalized_plan p plan step_keys inputs_to_marshal outputs_to_marshal
        environment (Some md) throw_on_user_error t =
      (t1 ++ (write_value_called <$> mjoin (written_paths outputs_to_marshal <$> results)) ++
         [context_closed], Return results).
Proof.
  intros Henv Hopens Hall Hout.
  destruct (unmarshal_inputs_readable ctx plan inputs_to_marshal ∅
              (t ++ [context_opened]) Hall) as (loaded & Hrun & _ & Hset).
  exists loaded. split; [exact Hset|]. intros rebuilt t1 results Hplan Hengine Hnowrite.
  unfold execute_externalized_plan. rewrite Henv, mbind_lift_return.
  cbn [check_inst_param]. rewrite mbind_lift_return.
  rewrite (yield_context_opens_lemma p env md ctx _ t Hopens).
  rewrite (all_readable_check ctx plan inputs_to_marshal Hall), mbind_lift_return.
  rewrite Hout, mbind_lift_return.
  assert (Hrun' : _unmarshal_inputs ctx inputs_to_marshal plan (t ++ [context_opened]) =
            ((t ++ [context_opened]) ++
               (read_value_called <$> input_paths inputs_to_marshal), Return loaded))
    by exact Hrun.
  rewrite (mbind_run _ _ _ _ _ Hrun'). rewrite Hplan, mbind_lift_return, mbind_emit.
  rewrite <- !app_assoc. rewrite (mbind_run _ _ _ _ _ Hengine).
  rewrite (mbind_run _ _ _ _ _ (marshal_outputs_writes_lemma _ _ _ _ Hnowrite)).
  unfold mret. by rewrite <- app_assoc.
Qed.

End ExternalizedSuccess.

(** ** The properties on the example *)

Section MoreWitnesses.
Import MoreExamples Examples.

(** The example opens its context: the default context definition declares no
    resource, the factory gives the user's context and the tags do not meet. *)
Lemma opens_example :
  @opens nat (collaborators plan_ab []) pipeline_ab environment_ab metadata opened_context.
Proof.
  exists default_context, (Thing user_context), user_context,
    {[ "pipeline" := "ab" ]}, FilePersistencePolicy, None.
  repeat split; try reflexivity. left. by split.
Qed.

(** The input of the transform of [b] can be read from its path. *)
Lemma all_readable_example :
  @all_readable nat (collaborators plan_ab []) opened_context plan_ab request_b.
Proof.
  split.
  - apply NoDup_singleton.
  - apply Forall_singleton. split; [by exists step_b|]. split; [apply NoDup_singleton|].
    apply Forall_singleton. exists 0, step_b, any_type, "pickle". by repeat split.
Qed.

(** The scope of the example runs its body between the two events. *)
Lemma yield_context_opens_witness :
  @yield_context nat (collaborators plan_ab []) unit pipeline_ab environment_ab metadata
    (λ _, mret tt) [] = ([context_opened; context_closed], Return tt).
Proof.
  exact (@yield_context_opens nat (collaborators plan_ab []) unit pipeline_ab environment_ab
           metadata opened_context (λ _, mret tt) [] opens_example).
Defined.

(** The persistence [s3] is not known: the scope does not open. *)
Lemma yield_context_bad_persistence_witness :
  ∃ e, @yield_context nat (collaborators plan_ab []) unit pipeline_ab environment_s3
          metadata (λ _, mret tt) [] = ([], Raise e).
Proof.
  refine (@yield_context_bad_persistence nat (collaborators plan_ab []) unit pipeline_ab
            environment_s3 metadata (λ _, mret tt) CheckError _ []).
  reflexivity.
Defined.

(** The user's context and the metadata both have the tag [team]: the scope
    does not open. *)
Lemma yield_context_overlapping_tags_witness :
  ∃ e, @yield_context nat tagging_collaborators unit pipeline_ab environment_ab
          tagged_metadata (λ _, mret tt) [] = ([], Raise e).
Proof.
  refine (@yield_context_overlapping_tags nat tagging_collaborators unit pipeline_ab
            environment_ab tagged_metadata (λ _, mret tt) _ []).
  intros cd g ec rest _ Hg Hec Hdisjoint. simpl in Hg. injection Hg as <-.
  simpl in Hec. injection Hec as <- _.
  apply (Hdisjoint "team"); apply elem_of_dom; eexists; reflexivity.
Defined.



(** The first step of [plan_b] has an input: the run stops behind the debug
    message. *)
Lemma iterate_pipeline_raises_witness :
  [pipeline_start; debug_order ["b.transform"]] = [] ++ [pipeline_start] ∨
  (∃ keys, [pipeline_start; debug_order ["b.transform"]] =
             [] ++ [pipeline_start; debug_order keys] ∧ CheckError = CheckError) ∨
  (∃ plan keys,
     [pipeline_start; debug_order ["b.transform"]] =
     (@execute_plan_core nat (collaborators plan_b []) runtime_context plan true
        ([] ++ [pipeline_start; debug_order keys; step_engine_invoked])).1).
Proof.
  apply (@iterate_pipeline_raises nat (collaborators plan_b []) topological_order
           pipeline_ab runtime_context environment_ab metadata true []).
  reflexivity.
Defined.

(** Of the three step results, the successful one of [b.transform] carries a
    requested output. *)
Lemma writable_example :
  Forall (@writable nat (collaborators plan_ab []) opened_context outputs_b)
    [ok step_a TRANSFORM "result" 42; ok step_b TRANSFORM "result" 5;
     failed step_b TRANSFORM 7].
Proof.
  repeat apply Forall_cons_2; [| | |apply Forall_nil_2]; intros Hs outputs Ho;
    try discriminate.
  injection Ho as <-. eexists. split; [reflexivity|].
  apply Forall_singleton. exists "result". split; [reflexivity|]. intros _.
  exists "/tmp/out.bin", any_type. by repeat split.
Qed.

(** One write, for the output [result] of [b.transform]. *)
Lemma marshal_outputs_writes_witness :
  @_marshal_outputs nat (collaborators plan_ab []) opened_context
    [ok step_a TRANSFORM "result" 42; ok step_b TRANSFORM "result" 5;
     failed step_b TRANSFORM 7] outputs_b [] =
  ([write_value_called "/tmp/out.bin"], Return tt).
Proof.
  exact (@marshal_outputs_writes nat (collaborators plan_ab []) opened_context
           [ok step_a TRANSFORM "result" 42; ok step_b TRANSFORM "result" 5;
            failed step_b TRANSFORM 7] outputs_b [] writable_example).
Defined.

(** An environment that is rejected: no event, no context. *)
Lemma config_error_before_context_witness :
  @execute_externalized_plan nat rejecting_collaborators pipeline_ab plan_ab
    ["b.transform"] request_b outputs_b None (Some metadata) true [] =
  ([], Raise PipelineConfigEvaluationError).
Proof.
  refine (proj1 (proj2 (@config_error_before_context nat rejecting_collaborators
            default_metadata pipeline_ab plan_ab None [] _))
            ["b.transform"] request_b outputs_b (Some metadata) true).
  reflexivity.
Defined.

(** The request of the example is read with one call. *)
Lemma unmarshal_inputs_reads_all_witness :
  ∃ inputs,
    @_unmarshal_inputs nat (collaborators plan_ab []) opened_context request_b plan_ab [] =
      ([] ++ (read_value_called <$> input_paths request_b), Return inputs) ∧
    (∀ k i, k ∉ request_b.*1 → lookup2 inputs k i = None) ∧
    (∀ k d i p, (k, d) ∈ request_b → (i, p) ∈ d →
       ∃ v, @readable nat (collaborators plan_ab []) opened_context plan_ab k i p v ∧
            lookup2 inputs k i = Some v).
Proof.
  exact (@unmarshal_inputs_reads_all nat (collaborators plan_ab []) opened_context plan_ab
           request_b [] all_readable_example).
Defined.

(** The file of the input [in] is missing: the error names the input and the
    step. *)
Lemma unmarshal_inputs_read_failure_witness :
  @_unmarshal_inputs nat unreadable_collaborators runtime_context
    ([] ++ [("b.transform", [] ++ [("in", "/tmp/missing.bin")])]) plan_ab [] =
  ([] ++ (read_value_called <$> input_paths ([] ++ [("b.transform", [])]) ++ ["/tmp/missing.bin"]),
   Raise (DagsterUnmarshalInputError "in" "b.transform")).
Proof.
  apply (@unmarshal_inputs_read_failure nat unreadable_collaborators runtime_context plan_ab
           [] [] "b.transform" [] [] "in" "/tmp/missing.bin" step_b any_type "pickle"
           (UserException "no such file") []); try reflexivity.
  split.
  - apply NoDup_singleton.
  - apply Forall_singleton. split; [by exists step_b|]. split; [apply NoDup_nil_2|].
    apply Forall_nil_2.
Defined.

(** A run of the example: the input is read, the engine runs, the output is
    written, the context is closed. *)
Lemma externalized_plan_runs_witness :
  @execute_externalized_plan nat
    (collaborators plan_ab [ok step_a TRANSFORM "result" 42; ok step_b TRANSFORM "result" 5;
                            failed step_b TRANSFORM 7])
    pipeline_ab plan_ab ["b.transform"] request_b outputs_b None (Some metadata) true [] =
  ([context_opened; read_value_called "/tmp/in.bin"; step_engine_invoked;
    write_value_called "/tmp/out.bin"; context_closed],
   Return [ok step_a TRANSFORM "result" 42; ok step_b TRANSFORM "result" 5;
           failed step_b TRANSFORM 7]).
Proof.
  destruct (@externalized_plan_runs nat
              (collaborators plan_ab [ok step_a TRANSFORM "result" 42;
                                      ok step_b TRANSFORM "result" 5;
                                      failed step_b TRANSFORM 7])
              pipeline_ab plan_ab ["b.transform"] request_b outputs_b None environment_ab
              metadata opened_context true []) as (loaded & _ & Hrun).
  - reflexivity.
  - exact opens_example.
  - exact all_readable_example.
  - reflexivity.
  - apply (Hrun plan_ab [context_opened; read_value_called "/tmp/in.bin"; step_engine_invoked]
             [ok step_a TRANSFORM "result" 42; ok step_b TRANSFORM "result" 5;
              failed step_b TRANSFORM 7]).
    + reflexivity.
    + reflexivity.
    + exact writable_example.
Defined.

(** Two declared resources, each created by a factory that returns a value. *)
Lemma create_resources_spec_witness :
  @_create_resources nat (collaborators plan_ab []) (option nat) pipeline_db resource_context
    environment_ab user_context "run" (λ r, mret r) [] = ([], Return (Some 0)).
Proof.
  refine (proj2 (proj2 (@create_resources_spec nat (collaborators plan_ab []) (option nat)
            pipeline_db resource_context environment_ab user_context "run" (λ r, mret r) []))
          _ _ _ [("db", 0); ("cache", 0)] _); try done.
  repeat apply Forall2_cons_2; [| |apply Forall2_nil_2];
    (split; [reflexivity|]); exists (Thing 0); by split.
Defined.

(** The context generator of the example raises when it is resumed: the value
    of the body is lost. *)
Lemma yield_context_teardown_raises_witness :
  @yield_context nat failing_teardown_collaborators nat pipeline_ab environment_ab metadata
    (λ _, mret 7) [] =
  ([context_opened; context_closed], Raise (UserException "teardown")).
Proof.
  refine (@yield_context_teardown_raises nat failing_teardown_collaborators nat
            (UserException "teardown") pipeline_ab environment_ab metadata opened_context
            (λ _, mret 7) [] _).
  exists default_context, (RaisingGenerator [user_context] (UserException "teardown")),
    user_context, {[ "pipeline" := "ab" ]}, FilePersistencePolicy, None.
  repeat split; try reflexivity. left. by split.
Defined.

End MoreWitnesses.
